(** * The handler engine of whatsapp_mcp: event matching, rate limits,
      circuit breaker, priority order, action execution and registration.

    The development embeds the Go sources
    [cmd/whatsapp_mcp/event_matcher.go] (EventMatcher and ActionExecutor),
    the handler store (Database: SaveHandler, GetHandler, ListHandlers,
    UpdateHandlerStats, LogHandlerExecution) and the operation
    [handleRegisterHandler], and states the properties of the
    specification over these definitions.  It goes on to the rest of the
    handler store (DeleteHandler, UpdateHandlerEnabled), the operations
    on one handler (get, update, delete, enable, disable) and the error
    state of [cmd/whatsapp_mcp/error_state.go], with properties read off
    the code.

    Conventions of the embedding.
    - A Go [map[string]interface{}] is a [gmap string value]; a Go
      [interface{}] is a [value], with one constructor per dynamic type
      the engine distinguishes by type assertion.
    - A Go [int] or [int64] is a [Z]; increments wrap at 64 bits.
    - A [float64] is the rational it denotes (JSON numbers are finite).
    - A [time.Time] is a [Z]: nanoseconds since the Unix epoch.  The clock
      is an explicit argument (or a field of the world); comparisons of
      elapsed seconds are exact.
    - A call that can panic or fail returns an [option].
    - Capabilities outside the repository (the regexp engine, Unicode
      lower-casing, RFC 3339 formatting, the messaging client, the script
      runner, the file system) are Variables of the section. *)

From Stdlib Require Import ZArith QArith String Ascii List.
From Stdlib Require Import OrderedTypeEx.
From stdpp Require Import gmap strings list fin_maps sorting pretty.

Set Warnings "-register-all,-clear-no-such-hyp".
Set Default Proof Using "Type".
Local Open Scope Z_scope.

(** ** Dynamic values *)

Inductive value :=
| VNil
| VBool (b : bool)
| VInt (n : Z)       (* Go int *)
| VInt64 (n : Z)     (* Go int64 *)
| VFloat (q : Q)     (* Go float64 *)
| VStr (s : string)
| VList (l : list value)             (* []interface{} *)
| VMap (m : gmap string value).      (* map[string]interface{} *)

(** [x, ok := v.(T)]: the comma-ok type assertions.  Looking a key up in
    a Go map gives the nil interface when the key is missing, hence the
    [option value] argument. *)

Definition as_string (v : option value) : option string :=
  match v with Some (VStr s) => Some s | _ => None end.
Definition as_bool (v : option value) : option bool :=
  match v with Some (VBool b) => Some b | _ => None end.
Definition as_int (v : option value) : option Z :=
  match v with Some (VInt n) => Some n | _ => None end.
Definition as_int64 (v : option value) : option Z :=
  match v with Some (VInt64 n) => Some n | _ => None end.
Definition as_float64 (v : option value) : option Q :=
  match v with Some (VFloat q) => Some q | _ => None end.
Definition as_slice (v : option value) : option (list value) :=
  match v with Some (VList l) => Some l | _ => None end.
Definition as_map (v : option value) : option (gmap string value) :=
  match v with Some (VMap m) => Some m | _ => None end.

(** [x, _ := v.(T)]: the zero value when the assertion fails. *)
Definition string_of (v : option value) : string := default ""%string (as_string v).
Definition bool_of (v : option value) : bool := default false (as_bool v).
Definition int_of (v : option value) : Z := default 0 (as_int v).

(** A map literal entry ["k": m[key]] stores the nil interface when the
    key is missing. *)
Definition iface (v : option value) : value := default VNil v.

(** ** Machine integers and time *)

Definition wrap64 (z : Z) : Z := (z + 2 ^ 63) mod 2 ^ 64 - 2 ^ 63.

Definition Second : Z := 1000000000.
(** [t.Unix()] *)
Definition Unix (t : Z) : Z := t / Second.
(** Go integer division truncates toward zero. *)
Definition minute_bucket (t : Z) : Z := Z.quot (Unix t) 60.
Definition hour_bucket (t : Z) : Z := Z.quot (Unix t) 3600.
(** [time.Since(t0).Seconds() >= float64(secs)] at clock [now] *)
Definition elapsed_at_least (now t0 secs : Z) : bool := secs * Second <=? now - t0.

(** [int(f)] for a float64: truncation toward zero *)
Definition int_of_float (q : Q) : Z := wrap64 (Z.quot (Qnum q) (Z.pos (Qden q))).

(** ** Strings *)

(** [strings.Contains(s, substr)] *)
Fixpoint Contains (s substr : string) : bool :=
  if String.prefix substr s then true
  else match s with
       | EmptyString => false
       | String _ s' => Contains s' substr
       end.

(** [len(v) > 7 && v[:7] == "{event." && v[len(v)-1:] == "}"], and the
    field name [v[7 : len(v)-1]] when the test passes *)
Definition event_variable (v : string) : option string :=
  if (7 <? String.length v)%nat
     && String.eqb (substring 0 7 v) "{event."
     && String.eqb (substring (String.length v - 1) 1 v) "}"
  then Some (substring 7 (String.length v - 1 - 7) v)
  else None.

(** [containsString] *)
Fixpoint containsString (slice : list value) (str : string) : bool :=
  match slice with
  | [] => false
  | item :: rest =>
      match item with
      | VStr itemStr => if String.eqb itemStr str then true else containsString rest str
      | _ => containsString rest str
      end
  end.

(** ** Rate limiter and matcher state *)

(** [lastExecution] is [None] for the zero [time.Time]. *)
Record RateLimiter := mkRateLimiter {
  perMinuteCounts : gmap Z Z;
  perHourCounts : gmap Z Z;
  perSenderCounts : gmap string (gmap Z Z);
  lastExecution : option Z
}.

(** [&RateLimiter{perMinuteCounts: make(...), ...}] *)
Definition newRateLimiter : RateLimiter :=
  mkRateLimiter ∅ ∅ ∅ None.

Record EventMatcher := mkEventMatcher {
  handlers : list (gmap string value);
  rateLimits : gmap string RateLimiter
}.

Definition NewEventMatcher : EventMatcher := mkEventMatcher [] ∅.

(** [counts[bucket]] on a Go [map[int64]int]: zero when missing *)
Definition count_at (counts : gmap Z Z) (bucket : Z) : Z := default 0 (counts !! bucket).

(** [limiter, exists := em.rateLimits[handlerID]; if !exists { ... }] *)
Definition limiter_of (em : EventMatcher) (handlerID : string) : RateLimiter :=
  default newRateLimiter (rateLimits em !! handlerID).

Definition set_limiter (em : EventMatcher) (handlerID : string) (limiter : RateLimiter)
  : EventMatcher :=
  mkEventMatcher (handlers em) (<[handlerID := limiter]> (rateLimits em)).

(** [checkRateLimits]; [None] is the panic of [handler["handler_id"].(string)].
    The limiter is created when missing, and so is the per-sender map. *)
Definition checkRateLimits (handler event : gmap string value) (now : Z) (em : EventMatcher)
  : option (bool * EventMatcher) :=
  handlerID ← as_string (handler !! "handler_id");
  let limiter := limiter_of em handlerID in
  let currentMinute := minute_bucket now in
  let currentHour := hour_bucket now in
  let minute_blocked :=
    match as_int64 (handler !! "max_executions_per_minute") with
    | Some maxPerMin =>
        (0 <? maxPerMin) && (maxPerMin <=? count_at (perMinuteCounts limiter) currentMinute)
    | None => false
    end in
  let hour_blocked :=
    match as_int64 (handler !! "max_executions_per_hour") with
    | Some maxPerHour =>
        (0 <? maxPerHour) && (maxPerHour <=? count_at (perHourCounts limiter) currentHour)
    | None => false
    end in
  if minute_blocked then Some (false, set_limiter em handlerID limiter)
  else if hour_blocked then Some (false, set_limiter em handlerID limiter)
  else
    match as_int64 (handler !! "max_executions_per_sender_per_hour") with
    | Some maxPerSenderHour =>
        let fromJID := string_of (event !! "from") in
        if (0 <? maxPerSenderHour) && negb (String.eqb fromJID "") then
          let senderCounts := default ∅ (perSenderCounts limiter !! fromJID) in
          let limiter' :=
            mkRateLimiter (perMinuteCounts limiter) (perHourCounts limiter)
              (<[fromJID := senderCounts]> (perSenderCounts limiter))
              (lastExecution limiter) in
          Some (negb (maxPerSenderHour <=? count_at senderCounts currentHour),
                set_limiter em handlerID limiter')
        else Some (true, set_limiter em handlerID limiter)
    | None => Some (true, set_limiter em handlerID limiter)
    end.

(** The clean-up loops of [RecordExecution]: buckets below the oldest
    kept one are deleted; a sender left without buckets is deleted. *)
Definition drop_old (oldest : Z) (counts : gmap Z Z) : gmap Z Z :=
  filter (λ kv, ¬ kv.1 < oldest) counts.

Definition drop_old_senders (oldest : Z) (senders : gmap string (gmap Z Z))
  : gmap string (gmap Z Z) :=
  omap (λ counts, let counts' := drop_old oldest counts in
                  if decide (size counts' = 0%nat) then None else Some counts') senders.

(** [RecordExecution] *)
Definition RecordExecution (handlerID : string) (event : gmap string value) (now : Z)
    (em : EventMatcher) : EventMatcher :=
  let limiter := limiter_of em handlerID in
  let currentMinute := minute_bucket now in
  let currentHour := hour_bucket now in
  let minutes :=
    <[currentMinute := wrap64 (count_at (perMinuteCounts limiter) currentMinute + 1)]>
      (perMinuteCounts limiter) in
  let hours :=
    <[currentHour := wrap64 (count_at (perHourCounts limiter) currentHour + 1)]>
      (perHourCounts limiter) in
  let fromJID := string_of (event !! "from") in
  let senders :=
    if String.eqb fromJID "" then perSenderCounts limiter
    else
      let senderCounts := default ∅ (perSenderCounts limiter !! fromJID) in
      <[fromJID := <[currentHour := wrap64 (count_at senderCounts currentHour + 1)]> senderCounts]>
        (perSenderCounts limiter) in
  let oldestMinute := Z.quot (Unix now - 7200) 60 in
  let oldestHour := Z.quot (Unix now - 7200) 3600 in
  set_limiter em handlerID
    (mkRateLimiter (drop_old oldestMinute minutes) (drop_old oldestHour hours)
       (drop_old_senders oldestHour senders) (Some now)).

(** [checkCooldown] *)
Definition checkCooldown (handler : gmap string value) (now : Z) (em : EventMatcher)
  : option bool :=
  match as_int64 (handler !! "cooldown_seconds") with
  | Some cooldownSeconds =>
      if cooldownSeconds <=? 0 then Some true
      else
        handlerID ← as_string (handler !! "handler_id");
        match rateLimits em !! handlerID with
        | None => Some true
        | Some limiter =>
            match lastExecution limiter with
            | None => Some true
            | Some lastExec => Some (elapsed_at_least now lastExec cooldownSeconds)
            end
        end
  | None => Some true
  end.

(** [sortHandlersByPriority]: the bubble sort, on indices as in the source.
    [swap_if_less j] is the body of the inner loop. *)
Definition swap_if_less (j : nat) (hs : list (gmap string value)) : list (gmap string value) :=
  match hs !! j, hs !! S j with
  | Some hj, Some hj1 =>
      let priority1 := int_of (hj !! "priority") in
      let priority2 := int_of (hj1 !! "priority") in
      if priority1 <? priority2 then <[j := hj1]> (<[S j := hj]> hs) else hs
  | _, _ => hs
  end.

(** [for j := j0; j < j0 + count; j++] *)
Fixpoint inner_loop (count j : nat) (hs : list (gmap string value)) : list (gmap string value) :=
  match count with
  | O => hs
  | S count' => inner_loop count' (S j) (swap_if_less j hs)
  end.

(** [for i := i0; i < i0 + count; i++], with [n = len(handlers)] *)
Fixpoint outer_loop (n count i : nat) (hs : list (gmap string value)) : list (gmap string value) :=
  match count with
  | O => hs
  | S count' => outer_loop n count' (S i) (inner_loop (n - i - 1) 0 hs)
  end.

Definition sortHandlersByPriority (hs : list (gmap string value)) : list (gmap string value) :=
  let n := length hs in
  outer_loop n (n - 1) 0 hs.

(** ** The handler store

    The store is the SQLite table [event_handlers] (keyed by
    [handler_id]) and the append-only table [handler_executions].  A
    value handed to the driver becomes an [sqlval]; the driver refuses
    slices and maps.  An INTEGER column keeps an integer, NULL, or
    something no integer can be scanned from. *)

Inductive sqlval :=
| SqlNull
| SqlInt (n : Z)
| SqlReal (q : Q)
| SqlText (s : string).

(** The driver's conversion of a statement argument; [None] is the error
    "unsupported type". *)
Definition bind (v : option value) : option sqlval :=
  match v with
  | None | Some VNil => Some SqlNull
  | Some (VBool b) => Some (SqlInt (if b then 1 else 0))
  | Some (VInt n) | Some (VInt64 n) => Some (SqlInt n)
  | Some (VFloat q) => Some (SqlReal q)
  | Some (VStr s) => Some (SqlText s)
  | Some (VList _) | Some (VMap _) => None
  end.

Inductive intcol :=
| INull
| IInt (n : Z)
| IJunk.

Definition in_int64 (n : Z) : bool := (- 2 ^ 63 <=? n) && (n <? 2 ^ 63).

Record Row := mkRow {
  description : option string;
  event_filter : value;          (* the JSON text, as the value it encodes *)
  action : value;                (* the JSON text, as the value it encodes *)
  enabled : Z;
  priority : intcol;
  max_executions_per_minute : intcol;
  max_executions_per_hour : intcol;
  max_executions_per_sender_per_hour : intcol;
  cooldown_seconds : intcol;
  timeout_seconds : intcol;
  circuit_breaker_enabled : Z;
  circuit_breaker_threshold : Z;
  circuit_breaker_reset_seconds : Z;
  created_at : Z;
  updated_at : Z;
  execution_count : Z;
  last_executed : option Z;
  last_error : option string;
  last_error_time : option Z;
  total_errors : Z;
  circuit_breaker_state : option string
}.

(** The execution map built by [logExecutionSuccess] and
    [logExecutionError]; [error] and [actions_executed] are missing keys
    in one or the other. *)
Record Execution := mkExecution {
  x_handler_id : string;
  x_event_id : string;
  x_event_type : string;
  x_from_jid : string;
  x_started_at : Z;
  x_completed_at : Z;
  x_duration_ms : Z;
  x_success : bool;
  x_error : option string;
  x_actions_executed : option Z
}.

(** A row of [handler_executions]. *)
Record HandlerExecution := mkHandlerExecution {
  exec_handler_id : string;
  exec_event_id : string;
  exec_event_type : string;
  exec_from_jid : string;
  exec_started_at : Z;
  exec_completed_at : Z;
  exec_duration_ms : Z;
  exec_success : Z;
  exec_error : option string;
  exec_actions_executed : option Z
}.

Record Database := mkDatabase {
  event_handlers : gmap string Row;
  handler_executions : list HandlerExecution
}.

(** [json.Unmarshal(json.Marshal(v))] into an [interface{}]: every number
    comes back as a float64. *)
Fixpoint json_roundtrip (v : value) : value :=
  match v with
  | VInt n | VInt64 n => VFloat (inject_Z n)
  | VList l => VList (List.map json_roundtrip l)
  | VMap m => VMap (json_roundtrip <$> m)
  | _ => v
  end.

(** [var m map[string]interface{}; json.Unmarshal(text, &m)] with the
    error ignored: a JSON object gives its map, anything else leaves the
    nil map, which reads as empty. *)
Definition json_object (stored : value) : gmap string value :=
  match stored with
  | VMap m => json_roundtrip <$> m
  | _ => ∅
  end.

(** Scanning an INTEGER column into an [int]: NULL is an error too. *)
Definition scan_int (c : intcol) : option Z :=
  match c with IInt n => Some n | _ => None end.

(** Scanning into an [sql.NullInt64]: the outer [None] is the error. *)
Definition scan_null_int (c : intcol) : option (option Z) :=
  match c with
  | INull => Some None
  | IInt n => Some (Some n)
  | IJunk => None
  end.

(** [if o.Valid { handler[k] = ... }] *)
Definition set_if (k : string) (o : option value) (m : gmap string value)
  : gmap string value :=
  match o with
  | Some v => <[k := v]> m
  | None => m
  end.

(** [ORDER BY priority DESC, handler_id]: integers by value, texts by
    their bytes. *)
Definition order_by (x y : Z * string) : Prop :=
  (x.1 >? y.1) || ((x.1 =? y.1) && String.leb x.2 y.2) = true.

Global Instance order_by_dec : RelDecision order_by.
Proof. intros x y. unfold order_by. apply _. Defined.

Definition row_order (x y : Z * string * Row) : Prop := order_by x.1 y.1.

Global Instance row_order_dec : RelDecision row_order.
Proof. intros x y. unfold row_order. apply _. Defined.

(** [UpdateHandlerStats] *)
Definition UpdateHandlerStats (handlerID : string) (success : bool) (errorMsg : string)
    (now : Z) (db : Database) : Database :=
  mkDatabase
    (alter (λ r,
       if success then
         mkRow (description r) (event_filter r) (action r) (enabled r) (priority r)
           (max_executions_per_minute r) (max_executions_per_hour r)
           (max_executions_per_sender_per_hour r) (cooldown_seconds r) (timeout_seconds r)
           (circuit_breaker_enabled r) (circuit_breaker_threshold r)
           (circuit_breaker_reset_seconds r) (created_at r)
           now (execution_count r + 1) (Some now)
           (last_error r) (last_error_time r) (total_errors r) (circuit_breaker_state r)
       else
         mkRow (description r) (event_filter r) (action r) (enabled r) (priority r)
           (max_executions_per_minute r) (max_executions_per_hour r)
           (max_executions_per_sender_per_hour r) (cooldown_seconds r) (timeout_seconds r)
           (circuit_breaker_enabled r) (circuit_breaker_threshold r)
           (circuit_breaker_reset_seconds r) (created_at r)
           now (execution_count r + 1) (Some now)
           (Some errorMsg) (Some now) (total_errors r + 1) (circuit_breaker_state r))
       handlerID (event_handlers db))
    (handler_executions db).

(** [LogHandlerExecution] *)
Definition LogHandlerExecution (execution : Execution) (db : Database) : Database :=
  let success := if x_success execution then 1 else 0 in
  mkDatabase (event_handlers db)
    (handler_executions db ++
       [mkHandlerExecution (x_handler_id execution) (x_event_id execution)
          (x_event_type execution) (x_from_jid execution) (x_started_at execution)
          (x_completed_at execution) (x_duration_ms execution) success
          (x_error execution) (x_actions_executed execution)]).

(** ** A reference instance of the outside capabilities

    Closed stand-ins, used to run the engine on concrete scenarios:
    ASCII lower-casing, patterns read as literal substrings, times
    printed as decimal seconds, and a messaging client that accepts
    every call. *)

Definition ascii_lower (c : ascii) : ascii :=
  let n := N_of_ascii c in
  if ((65 <=? n) && (n <=? 90))%N then ascii_of_N (n + 32) else c.

Fixpoint lower (s : string) : string :=
  match s with
  | EmptyString => EmptyString
  | String c s' => String (ascii_lower c) (lower s')
  end.

Definition literal_match (pattern s : string) : option bool := Some (Contains s pattern).

Fixpoint parse_digits (acc : Z) (s : string) : option Z :=
  match s with
  | EmptyString => Some acc
  | String c s' =>
      let n := Z.of_N (N_of_ascii c) in
      if (48 <=? n) && (n <=? 57) then parse_digits (10 * acc + (n - 48)) s' else None
  end.

Definition parse_decimal (s : string) : option Z :=
  match s with
  | EmptyString => None
  | String "-" s' => if String.eqb s' "" then None else Z.opp <$> parse_digits 0 s'
  | _ => parse_digits 0 s
  end.

Definition seconds_Format (t : Z) : string := pretty (Unix t).
Definition seconds_Parse (s : string) : option Z := (λ n, n * Second) <$> parse_decimal s.

Definition accept_call : string → gmap string value → bool := λ _ _, true.
Definition no_real_text : Q → string := λ _, ""%string.
Definition slash_Join (a b : string) : string := a +:+ "/" +:+ b.
Definition no_file : string → bool := λ _, false.
Definition no_tool : gmap string value → string → string + string :=
  λ _ _, inl "unavailable"%string.
Definition no_json : string → string + gmap string value := λ _, inl "invalid"%string.

Section Engine.

(** ** Capabilities outside the repository *)

(** [strings.ToLower] *)
Variable strings_ToLower : string → string.
(** [regexp.MatchString(pattern, s)]; [None] when the pattern does not
    compile *)
Variable regexp_MatchString : string → string → option bool.
(** The empty pattern matches every text. *)
Hypothesis regexp_empty_pattern : ∀ s, regexp_MatchString "" s = Some true.
(** [t.Format(time.RFC3339)] and [time.Parse(time.RFC3339, s)] *)
Variable time_Format : Z → string.
Variable time_Parse : string → option Z.
(** SQLite's coercions: the text of a REAL stored in a TEXT column, and
    the integer a text stored in an INTEGER column is read as, if any *)
Variable sqlite_text_of_real : Q → string.
Variable sqlite_integer_of_text : string → option Z.

(** ** Writing and reading handler rows *)

Definition integer_column (v : sqlval) : intcol :=
  match v with
  | SqlNull => INull
  | SqlInt n => IInt n
  | SqlReal q =>
      if (Qnum q mod Z.pos (Qden q) =? 0) && in_int64 (Qnum q / Z.pos (Qden q))
      then IInt (Qnum q / Z.pos (Qden q)) else IJunk
  | SqlText s =>
      match sqlite_integer_of_text s with
      | Some n => IInt n
      | None => IJunk
      end
  end.

Definition text_column (v : sqlval) : option string :=
  match v with
  | SqlNull => None
  | SqlInt n => Some (pretty n)
  | SqlReal q => Some (sqlite_text_of_real q)
  | SqlText s => Some s
  end.

(** [SaveHandler]: INSERT OR REPLACE of the fifteen listed columns.  The
    old row of the same [handler_id], if any, is deleted and the new row
    takes the column defaults of the schema for every column the
    statement does not list: [created_at] (CURRENT_TIMESTAMP),
    [execution_count] (0), [last_executed], [last_error],
    [last_error_time] (NULL), [total_errors] (0) and
    [circuit_breaker_state] ('closed').  [None] is the error of [Exec].
    Every caller passes a string [handler_id]; the model refuses any
    other. *)
Definition SaveHandler (handler : gmap string value) (now : Z) (db : Database)
  : option Database :=
  let filterJSON := iface (handler !! "event_filter") in
  let actionJSON := iface (handler !! "action") in
  let enabled :=
    match as_bool (handler !! "enabled") with
    | Some false => 0
    | _ => 1
    end in
  let cbEnabled :=
    match handler !! "circuit_breaker_enabled" with
    | Some (VBool false) => 0
    | Some (VInt cb) => cb
    | Some (VFloat cb) => if Qeq_bool cb 0 then 0 else 1
    | _ => 1
    end in
  let cbThreshold :=
    match handler !! "circuit_breaker_threshold" with
    | Some (VInt t) => t
    | Some (VInt64 t) => t
    | Some (VFloat t) => int_of_float t
    | _ => 5
    end in
  let cbReset :=
    match handler !! "circuit_breaker_reset_seconds" with
    | Some (VInt r) => r
    | Some (VInt64 r) => r
    | Some (VFloat r) => int_of_float r
    | _ => 300
    end in
  handlerID ← as_string (handler !! "handler_id");
  a_description ← bind (handler !! "description");
  a_priority ← bind (handler !! "priority");
  a_per_minute ← bind (handler !! "max_executions_per_minute");
  a_per_hour ← bind (handler !! "max_executions_per_hour");
  a_per_sender ← bind (handler !! "max_executions_per_sender_per_hour");
  a_cooldown ← bind (handler !! "cooldown_seconds");
  a_timeout ← bind (handler !! "timeout_seconds");
  let row :=
    mkRow (text_column a_description) filterJSON actionJSON enabled
      (integer_column a_priority) (integer_column a_per_minute)
      (integer_column a_per_hour) (integer_column a_per_sender)
      (integer_column a_cooldown) (integer_column a_timeout)
      cbEnabled cbThreshold cbReset
      (Unix now * Second) now 0 None None None 0 (Some "closed"%string) in
  Some (mkDatabase (<[handlerID := row]> (event_handlers db)) (handler_executions db)).

(** [GetHandler]; [None] is the error (no such row, or a column that
    does not scan). *)
Definition GetHandler (handlerID : string) (db : Database) : option (gmap string value) :=
  row ← event_handlers db !! handlerID;
  priority ← scan_int (priority row);
  maxPerMin ← scan_null_int (max_executions_per_minute row);
  maxPerHour ← scan_null_int (max_executions_per_hour row);
  maxPerSenderHour ← scan_null_int (max_executions_per_sender_per_hour row);
  cooldown ← scan_null_int (cooldown_seconds row);
  timeout ← scan_null_int (timeout_seconds row);
  let handler : gmap string value :=
    <["handler_id" := VStr handlerID]> $
    <["event_filter" := VMap (json_object (event_filter row))]> $
    <["action" := VMap (json_object (action row))]> $
    <["enabled" := VBool (enabled row =? 1)]> $
    <["priority" := VInt priority]> $
    <["created_at" := VStr (time_Format (created_at row))]> $
    <["updated_at" := VStr (time_Format (updated_at row))]> $
    <["execution_count" := VInt (execution_count row)]> $
    <["total_errors" := VInt (total_errors row)]> $
    <["circuit_breaker_state" := VStr "closed"]> ∅ in
  let handler := set_if "description" (VStr <$> description row) handler in
  let handler := set_if "max_executions_per_minute" (VInt64 <$> maxPerMin) handler in
  let handler := set_if "max_executions_per_hour" (VInt64 <$> maxPerHour) handler in
  let handler :=
    set_if "max_executions_per_sender_per_hour" (VInt64 <$> maxPerSenderHour) handler in
  let handler := set_if "cooldown_seconds" (VInt64 <$> cooldown) handler in
  let handler := set_if "timeout_seconds" (VInt64 <$> timeout) handler in
  let handler :=
    if circuit_breaker_enabled row =? 1 then
      <["circuit_breaker_reset_seconds" := VInt64 (circuit_breaker_reset_seconds row)]> $
      <["circuit_breaker_threshold" := VInt64 (circuit_breaker_threshold row)]> $
      <["circuit_breaker_enabled" := VBool true]> handler
    else handler in
  let handler :=
    set_if "last_executed" ((λ t, VStr (time_Format t)) <$> last_executed row) handler in
  let handler := set_if "last_error" (VStr <$> last_error row) handler in
  let handler :=
    set_if "last_error_time" ((λ t, VStr (time_Format t)) <$> last_error_time row) handler in
  let handler := set_if "circuit_breaker_state" (VStr <$> circuit_breaker_state row) handler in
  Some handler.

(** The summary map [ListHandlers] builds for a row. *)
Definition list_entry (handlerID : string) (priority : Z) (row : Row) : gmap string value :=
  let handler : gmap string value :=
    <["handler_id" := VStr handlerID]> $
    <["enabled" := VBool (enabled row =? 1)]> $
    <["priority" := VInt priority]> $
    <["execution_count" := VInt (execution_count row)]> ∅ in
  let handler := set_if "description" (VStr <$> description row) handler in
  let handler :=
    set_if "last_executed" ((λ t, VStr (time_Format t)) <$> last_executed row) handler in
  set_if "circuit_breaker_state" (VStr <$> circuit_breaker_state row) handler.

(** [ListHandlers]: the selected rows in the order of the ORDER BY
    clause.  A selected row whose priority does not scan into an [int]
    fails the whole call. *)
Definition ListHandlers (enabledOnly : bool) (db : Database)
  : option (list (gmap string value)) :=
  let selected :=
    filter (λ kr, enabledOnly = false ∨ enabled kr.2 = 1) (map_to_list (event_handlers db)) in
  keyed ← mapM (λ kr, p ← scan_int (priority kr.2); Some ((p, kr.1), kr.2)) selected;
  let ordered := merge_sort row_order keyed in
  Some ((λ x, list_entry x.1.2 x.1.1 x.2) <$> ordered).

(** ** Event-filter matching *)

(** The keyword loop of the [text_contains] clause; [textContent] is
    already lower-cased. *)
Fixpoint any_keyword (textContains : list value) (textContent : string) : bool :=
  match textContains with
  | [] => false
  | keyword :: rest =>
      match keyword with
      | VStr keywordStr =>
          if Contains textContent (strings_ToLower keywordStr) then true
          else any_keyword rest textContent
      | _ => any_keyword rest textContent
      end
  end.

(** [if <clause fails> { return false }] *)
Local Notation "'return_false_if' c ';;' k" := (if c then false else k)
  (at level 10, c at level 99, k at level 200, only parsing).

(** [x, ok := m[k].([]interface{}); ok && len(x) > 0] *)
Definition nonempty_slice (v : option value) : option (list value) :=
  match as_slice v with
  | Some l => if (0 <? length l)%nat then Some l else None
  | None => None
  end.

(** [s, ok := event[k].(string); ok && s != ""] *)
Definition nonempty_string (v : option value) : bool :=
  match as_string v with
  | Some s => negb (String.eqb s "")
  | None => false
  end.

(** [matchesFilter] *)
Definition matchesFilter (handler event : gmap string value) : bool :=
  match as_map (handler !! "event_filter") with
  | None => false
  | Some filter =>
      return_false_if
        match nonempty_slice (filter !! "event_types") with
        | Some eventTypes =>
            let eventType := string_of (event !! "event_type") in
            negb (containsString eventTypes eventType)
        | None => false
        end ;;
      return_false_if
        match as_bool (filter !! "is_from_me") with
        | Some isFromMe =>
            let eventIsFromMe := bool_of (event !! "is_from_me") in
            negb (eqb isFromMe eventIsFromMe)
        | None => false
        end ;;
      return_false_if
        match nonempty_slice (filter !! "message_types") with
        | Some messageTypes =>
            let msgType := string_of (event !! "message_type") in
            negb (containsString messageTypes msgType)
        | None => false
        end ;;
      return_false_if
        match nonempty_slice (filter !! "from_jids") with
        | Some fromJIDs =>
            let fromJID := string_of (event !! "from") in
            negb (containsString fromJIDs fromJID)
        | None => false
        end ;;
      return_false_if
        match nonempty_slice (filter !! "chat_jids") with
        | Some chatJIDs =>
            let chatJID := string_of (event !! "chat") in
            negb (containsString chatJIDs chatJID)
        | None => false
        end ;;
      return_false_if
        match as_bool (filter !! "is_group") with
        | Some isGroup =>
            let eventIsGroup := bool_of (event !! "is_group") in
            negb (eqb isGroup eventIsGroup)
        | None => false
        end ;;
      return_false_if
        match nonempty_slice (filter !! "group_jids") with
        | Some groupJIDs =>
            let chatJID := string_of (event !! "chat") in
            let isGroup := bool_of (event !! "is_group") in
            negb isGroup || negb (containsString groupJIDs chatJID)
        | None => false
        end ;;
      return_false_if
        match as_bool (filter !! "has_media") with
        | Some hasMedia =>
            let eventHasMedia := nonempty_string (event !! "media_type") in
            negb (eqb hasMedia eventHasMedia)
        | None => false
        end ;;
      return_false_if
        match as_bool (filter !! "has_quoted_message") with
        | Some hasQuoted =>
            let eventHasQuoted := nonempty_string (event !! "quoted_message_id") in
            negb (eqb hasQuoted eventHasQuoted)
        | None => false
        end ;;
      return_false_if
        match nonempty_slice (filter !! "text_contains") with
        | Some textContains =>
            let textContent := strings_ToLower (string_of (event !! "text_content")) in
            let matched := any_keyword textContains textContent in
            negb matched
        | None => false
        end ;;
      return_false_if
        match as_string (filter !! "text_regex") with
        | Some textRegex =>
            if String.eqb textRegex "" then false
            else
              let textContent := string_of (event !! "text_content") in
              match regexp_MatchString textRegex textContent with
              | Some matched => negb matched
              | None => true
              end
        | None => false
        end ;;
      true
  end.

(** ** Circuit breaker *)

(** [isCircuitBreakerOpen] *)
Definition isCircuitBreakerOpen (handler : gmap string value) (now : Z) : bool :=
  match as_bool (handler !! "circuit_breaker_enabled") with
  | Some true =>
      let cbState := string_of (handler !! "circuit_breaker_state") in
      if negb (String.eqb cbState "open") then false
      else
        match as_string (handler !! "last_error_time") with
        | None => false
        | Some lastErrorTime =>
            match time_Parse lastErrorTime with
            | None => false
            | Some lastError =>
                let resetSeconds :=
                  default 300 (as_int64 (handler !! "circuit_breaker_reset_seconds")) in
                if elapsed_at_least now lastError resetSeconds then false else true
            end
        end
  | _ => false
  end.

(** [UpdateCircuitBreaker]; [None] is a returned error, which leaves the
    store as it was. *)
Definition UpdateCircuitBreaker (handlerID : string) (success : bool) (now : Z)
    (db : Database) : option Database :=
  handler ← GetHandler handlerID db;
  match as_bool (handler !! "circuit_breaker_enabled") with
  | Some true =>
      if success then
        SaveHandler (<["circuit_breaker_state" := VStr "closed"]> handler) now db
      else
        let totalErrors := int_of (handler !! "total_errors") in
        let threshold := default 5 (as_int64 (handler !! "circuit_breaker_threshold")) in
        if threshold <=? totalErrors then
          SaveHandler (<["circuit_breaker_state" := VStr "open"]> handler) now db
        else Some db
  | _ => Some db
  end.

(** ** Loading and matching *)

(** The loop of [LoadHandlers] over the listed handlers: a handler whose
    full record cannot be read is skipped. *)
Fixpoint load_loop (db : Database) (listed fullHandlers : list (gmap string value))
  : option (list (gmap string value)) :=
  match listed with
  | [] => Some fullHandlers
  | h :: rest =>
      handlerID ← as_string (h !! "handler_id");
      match GetHandler handlerID db with
      | None => load_loop db rest fullHandlers
      | Some fullHandler => load_loop db rest (fullHandlers ++ [fullHandler])
      end
  end.

(** [LoadHandlers]; [None] is a returned error, which leaves the
    snapshot as it was. *)
Definition LoadHandlers (db : Database) (em : EventMatcher) : option EventMatcher :=
  listed ← ListHandlers true db;
  fullHandlers ← load_loop db listed [];
  Some (mkEventMatcher fullHandlers (rateLimits em)).

(** The loop of [MatchEvent] over the snapshot. *)
Fixpoint match_loop (snapshot : list (gmap string value)) (event : gmap string value)
    (now : Z) (em : EventMatcher) (matches : list (gmap string value))
  : option (list (gmap string value) * EventMatcher) :=
  match snapshot with
  | [] => Some (matches, em)
  | handler :: rest =>
      match as_bool (handler !! "enabled") with
      | Some true =>
          if isCircuitBreakerOpen handler now then match_loop rest event now em matches
          else
            '(allowed, em1) ← checkRateLimits handler event now em;
            if negb allowed then match_loop rest event now em1 matches
            else
              cooled ← checkCooldown handler now em1;
              if negb cooled then match_loop rest event now em1 matches
              else if matchesFilter handler event
                   then match_loop rest event now em1 (matches ++ [handler])
                   else match_loop rest event now em1 matches
      | _ => match_loop rest event now em matches
      end
  end.

(** [MatchEvent] at clock [now]; [None] is a panic. *)
Definition MatchEvent (event : gmap string value) (now : Z) (em : EventMatcher)
  : option (list (gmap string value) * EventMatcher) :=
  '(matches, em') ← match_loop (handlers em) event now em [];
  Some (sortHandlersByPriority matches, em').

(** ** Action execution *)

(** [CallWhatsmeowMethod(method, params)]: whether the result is non-nil
    and successful *)
Variable CallWhatsmeowMethod : string → gmap string value → bool.
(** The media directory and the file system *)
Variable os_TempDir : string.
Variable filepath_Join : string → string → string.
Variable os_Stat : string → bool.
(** [global_whatsapp_client != nil && global_whatsapp_client.client != nil] *)
Variable client_available : bool.
(** [global_sse_connection != nil] *)
Variable sse_connected : bool.
(** [callMCPTool(conn, "python", ...)] on the event data and the user
    code: the raw result, or an error text *)
Variable callMCPTool : gmap string value → string → string + string.
(** [json.Unmarshal] of a text into a [map[string]interface{}] *)
Variable json_Unmarshal : string → string + gmap string value.

(** What the executor reads and writes: the store, the matcher, the
    calls made on the messaging client (oldest first) and the clock. *)
Record World := mkWorld {
  database : Database;
  eventMatcher : EventMatcher;
  calls : list (string * gmap string value);
  clock : Z
}.

Definition call (method : string) (params : gmap string value) (w : World) : bool * World :=
  (CallWhatsmeowMethod method params,
   mkWorld (database w) (eventMatcher w) (calls w ++ [(method, params)]) (clock w)).

Definition with_database (w : World) (db : Database) : World :=
  mkWorld db (eventMatcher w) (calls w) (clock w).

(** [substituteValue] *)
Fixpoint substituteValue (eventData : gmap string value) (v : value) : value :=
  match v with
  | VStr s =>
      match event_variable s with
      | Some fieldName =>
          match eventData !! fieldName with
          | Some fieldValue => fieldValue
          | None => VStr s
          end
      | None => VStr s
      end
  | VMap m => VMap (substituteValue eventData <$> m)
  | VList l => VList (List.map (substituteValue eventData) l)
  | _ => v
  end.

(** [substituteVariables] *)
Definition substituteVariables (action eventData : gmap string value) : gmap string value :=
  substituteValue eventData <$> action.

Definition executeSendMessage (action : gmap string value) (w : World) : bool * World :=
  match as_string (action !! "to") with
  | None => (false, w)
  | Some to =>
      match as_map (action !! "message") with
      | None => (false, w)
      | Some message =>
          call "SendMessage" (<["to" := VStr to]> (<["message" := VMap message]> ∅)) w
      end
  end.

Definition executeSendReaction (action : gmap string value) (w : World) : bool * World :=
  (false, w).

Definition executeMarkRead (action : gmap string value) (w : World) : bool * World :=
  match as_slice (action !! "message_ids") with
  | None => (false, w)
  | Some messageIDs =>
      let chat := string_of (action !! "chat") in
      let sender := string_of (action !! "sender") in
      call "MarkRead"
        (<["message_ids" := VList messageIDs]>
           (<["chat" := VStr chat]> (<["sender" := VStr sender]> ∅))) w
  end.

Definition executeSendPresence (action : gmap string value) (w : World) : bool * World :=
  match as_string (action !! "state") with
  | None => (false, w)
  | Some state => call "SendPresence" (<["state" := VStr state]> ∅) w
  end.

Definition executeSendChatPresence (action : gmap string value) (w : World) : bool * World :=
  match as_string (action !! "jid") with
  | None => (false, w)
  | Some jid =>
      match as_string (action !! "state") with
      | None => (false, w)
      | Some state =>
          let params : gmap string value := <["jid" := VStr jid]> (<["state" := VStr state]> ∅) in
          let params := set_if "media" (VStr <$> as_string (action !! "media")) params in
          call "SendChatPresence" params w
      end
  end.

(** [executeDelay]: the sleep moves the clock of the unit. *)
Definition executeDelay (action : gmap string value) (w : World) : bool * World :=
  match as_float64 (action !! "seconds") with
  | None => (false, w)
  | Some seconds =>
      let d := int_of_float (Qmult seconds (inject_Z Second)) in
      (true, mkWorld (database w) (eventMatcher w) (calls w) (clock w + Z.max 0 d))
  end.

Definition executeCallMethod (action : gmap string value) (w : World) : bool * World :=
  match as_string (action !! "method") with
  | None => (false, w)
  | Some method =>
      let params := default ∅ (as_map (action !! "params")) in
      call method params w
  end.

(** [executeReturnedActions] *)
Fixpoint executeReturnedActions (actions : list value) (eventData : gmap string value)
    (executed : Z) (w : World) : Z * World :=
  match actions with
  | [] => (executed, w)
  | action :: rest =>
      match action with
      | VMap actionMap =>
          let actionMap := substituteVariables actionMap eventData in
          let actionType := string_of (actionMap !! "type") in
          let '(ok, w') :=
            if String.eqb actionType "send_message" then executeSendMessage actionMap w
            else if String.eqb actionType "send_reaction" then executeSendReaction actionMap w
            else if String.eqb actionType "mark_read" then executeMarkRead actionMap w
            else if String.eqb actionType "send_presence" then executeSendPresence actionMap w
            else if String.eqb actionType "send_chat_presence"
                 then executeSendChatPresence actionMap w
            else if String.eqb actionType "delay" then executeDelay actionMap w
            else if String.eqb actionType "call_method" then executeCallMethod actionMap w
            else (false, w) in
          executeReturnedActions rest eventData
            (if ok then wrap64 (executed + 1) else executed) w'
      | _ => executeReturnedActions rest eventData executed w
      end
  end.

(** [executeDirectActions]: the error text, or the result map *)
Definition executeDirectActions (action eventData : gmap string value) (w : World)
  : (string + gmap string value) * World :=
  match as_slice (action !! "actions") with
  | None => (inl "missing actions array"%string, w)
  | Some actions =>
      let '(executed, w') := executeReturnedActions actions eventData 0 w in
      (inr (<["success" := VBool true]> (<["actions_executed" := VInt executed]> ∅)), w')
  end.

(** [executePythonAction]; the [variables] map of the source is built and
    never used. *)
Definition executePythonAction (action eventData : gmap string value) (timeout : Z)
  : string + gmap string value :=
  match as_string (action !! "code") with
  | None => inl "missing Python code"%string
  | Some code =>
      if String.eqb code "" then inl "missing Python code"%string
      else if negb sse_connected then inl "MCP connection not available"%string
      else
        match callMCPTool eventData code with
        | inl err => inl ("Python tool call failed: " +:+ err)
        | inr rawResult =>
            match json_Unmarshal rawResult with
            | inl err => inl ("failed to parse Python result: " +:+ err)
            | inr resultMap =>
                match as_bool (resultMap !! "success") with
                | Some false =>
                    inl ("Python execution failed: " +:+ string_of (resultMap !! "error"))
                | _ =>
                    match as_string (resultMap !! "output") with
                    | Some output =>
                        if String.eqb output "" then inr resultMap
                        else
                          match json_Unmarshal output with
                          | inr handlerResult => inr handlerResult
                          | inl _ =>
                              inr (<["success" := VBool true]>
                                     (<["output" := VStr output]> ∅))
                          end
                    | None => inr resultMap
                    end
                end
            end
        end
  end.

(** [downloadMedia]: the path, or [None] for an error *)
Definition downloadMedia (event : gmap string value) (w : World) : option string * World :=
  match as_string (event !! "message_id") with
  | None => (None, w)
  | Some messageID =>
      if String.eqb messageID "" then (None, w)
      else
        let mediaType := string_of (event !! "media_type") in
        if String.eqb mediaType "" then (None, w)
        else
          let tempDir := filepath_Join os_TempDir "whatsapp_media" in
          let ext :=
            if String.eqb mediaType "image" then ".jpg"
            else if String.eqb mediaType "video" then ".mp4"
            else if String.eqb mediaType "audio" then ".ogg"
            else if String.eqb mediaType "document" then ".bin"
            else "" in
          let filename := messageID +:+ "_" +:+ mediaType +:+ ext in
          let filePath := filepath_Join tempDir filename in
          if os_Stat filePath then (Some filePath, w)
          else if negb client_available then (None, w)
          else
            let params : gmap string value :=
              <["message" := iface (event !! "raw_message")]> (<["path" := VStr filePath]> ∅) in
            let '(ok, w') := call "DownloadMediaWithPath" params w in
            if ok then (Some filePath, w') else (None, w')
  end%string.

(** [prepareEventData] *)
Definition prepareEventData (event : gmap string value) (w : World)
  : gmap string value * World :=
  if nonempty_string (event !! "media_type") then
    match downloadMedia event w with
    | (Some mediaPath, w') =>
        if String.eqb mediaPath "" then (event, w')
        else (<["has_media" := VBool true]> (<["media_path" := VStr mediaPath]> event), w')
    | (None, w') => (event, w')
    end
  else (event, w).

(** [d.Milliseconds()] of the time elapsed since [startTime] *)
Definition milliseconds_since (startTime now : Z) : Z := Z.quot (now - startTime) 1000000.

(** [logExecutionSuccess] *)
Definition logExecutionSuccess (handlerID : string) (event : gmap string value)
    (startTime durationMs actionsExecuted : Z) (w : World) : World :=
  let eventID := string_of (event !! "message_id") in
  let eventType := string_of (event !! "event_type") in
  let fromJID := string_of (event !! "from") in
  with_database w
    (LogHandlerExecution
       (mkExecution handlerID eventID eventType fromJID startTime (clock w) durationMs
          true None (Some actionsExecuted))
       (database w)).

(** [logExecutionError] *)
Definition logExecutionError (handlerID : string) (event : gmap string value)
    (startTime : Z) (errorMsg : string) (w : World) : World :=
  let eventID := string_of (event !! "message_id") in
  let eventType := string_of (event !! "event_type") in
  let fromJID := string_of (event !! "from") in
  let duration := milliseconds_since startTime (clock w) in
  with_database w
    (LogHandlerExecution
       (mkExecution handlerID eventID eventType fromJID startTime (clock w) duration
          false (Some errorMsg) None)
       (database w)).

(** The three calls that end a failed execution, in the order of the
    source: the log record, the breaker, then the statistics.  An error
    returned by [UpdateCircuitBreaker] is dropped. *)
Definition fail_execution (handlerID : string) (event : gmap string value)
    (startTime : Z) (errorMsg : string) (w : World) : World :=
  let w := logExecutionError handlerID event startTime errorMsg w in
  let w :=
    with_database w
      (default (database w) (UpdateCircuitBreaker handlerID false (clock w) (database w))) in
  with_database w (UpdateHandlerStats handlerID false errorMsg (clock w) (database w)).

(** [executeHandler]; [None] is the panic of [handler["handler_id"].(string)]. *)
Definition executeHandler (handler event : gmap string value) (w : World) : option World :=
  handlerID ← as_string (handler !! "handler_id");
  let startTime := clock w in
  let w :=
    mkWorld (database w) (RecordExecution handlerID event (clock w) (eventMatcher w))
      (calls w) (clock w) in
  let timeout :=
    match as_int64 (handler !! "timeout_seconds") with
    | Some t => if 0 <? t then t else 30
    | None => 30
    end in
  let '(eventData, w) := prepareEventData event w in
  match as_map (handler !! "action") with
  | None => Some (logExecutionError handlerID event startTime "Invalid action definition" w)
  | Some action =>
      let actionType := string_of (action !! "type") in
      let '(outcome, w) :=
        if String.eqb actionType "python"
        then (executePythonAction action eventData timeout, w)
        else if String.eqb actionType "actions" then executeDirectActions action eventData w
        else (inl ("unknown action type: " +:+ actionType), w) in
      match outcome with
      | inl err => Some (fail_execution handlerID event startTime err w)
      | inr result =>
          let success := bool_of (result !! "success") in
          if negb success then
            let errorMsg := string_of (result !! "error") in
            Some (fail_execution handlerID event startTime errorMsg w)
          else
            let '(actionsExecuted, w) :=
              match as_slice (result !! "actions") with
              | Some actions => executeReturnedActions actions eventData 0 w
              | None => (0, w)
              end in
            let duration := milliseconds_since startTime (clock w) in
            let w := logExecutionSuccess handlerID event startTime duration actionsExecuted w in
            let w :=
              with_database w
                (default (database w)
                   (UpdateCircuitBreaker handlerID true (clock w) (database w))) in
            Some (with_database w (UpdateHandlerStats handlerID true "" (clock w) (database w)))
      end
  end.

(** ** Registration *)

Record OperationResult := mkOperationResult {
  Success : bool;
  Error : string;
  Message : string;
  Data : gmap string value
}.

(** [if _, ok := data[k]; !ok { data[k] = v }] *)
Definition set_default (k : string) (v : value) (data : gmap string value)
  : gmap string value :=
  match data !! k with
  | Some _ => data
  | None => <[k := v]> data
  end.

(** [handleRegisterHandler] on [input.Data] ([None] for the nil map); the
    text of a store error is not modelled beyond its prefix. *)
Definition handleRegisterHandler (data : option (gmap string value)) (now : Z)
    (db : Database) : OperationResult * Database :=
  match data with
  | None => (mkOperationResult false "Missing handler data" "" ∅, db)
  | Some data =>
      match as_string (data !! "handler_id") with
      | None => (mkOperationResult false "Missing or invalid handler_id" "" ∅, db)
      | Some handlerID =>
          if String.eqb handlerID "" then
            (mkOperationResult false "Missing or invalid handler_id" "" ∅, db)
          else if negb (bool_decide (is_Some (data !! "event_filter"))) then
            (mkOperationResult false "Missing event_filter" "" ∅, db)
          else if negb (bool_decide (is_Some (data !! "action"))) then
            (mkOperationResult false "Missing action" "" ∅, db)
          else
            let data := set_default "enabled" (VBool true) data in
            let data := set_default "priority" (VInt 0) data in
            let data := set_default "timeout_seconds" (VInt 30) data in
            match SaveHandler data now db with
            | None => (mkOperationResult false "Failed to save handler" "" ∅, db)
            | Some db' =>
                (mkOperationResult true ""
                   ("Handler '" +:+ handlerID +:+ "' registered successfully")
                   (<["handler_id" := VStr handlerID]> ∅), db')
            end
      end
  end%string.

(** ** The filter semantics of the specification (§4.2)

    A clause is present when the filter carries a value of the clause's
    type under the clause's key; a list clause is present when the list
    is not empty.  Event fields read as their zero value when missing. *)

Definition list_clause (F : gmap string value) (k : string) (l : list value) : Prop :=
  F !! k = Some (VList l) ∧ l ≠ [].

Definition bool_clause (F : gmap string value) (k : string) (b : bool) : Prop :=
  F !! k = Some (VBool b).

Definition text_field (E : gmap string value) (k : string) : string := string_of (E !! k).
Definition flag_field (E : gmap string value) (k : string) : bool := bool_of (E !! k).

(** The derived boolean "present and non-empty". *)
Definition has_field (E : gmap string value) (k : string) : Prop :=
  ∃ s, E !! k = Some (VStr s) ∧ s ≠ ""%string.

Definition is_substring (sub s : string) : Prop := ∃ a b, s = a +:+ sub +:+ b.

Definition contains_ignoring_case (text keyword : string) : Prop :=
  is_substring (strings_ToLower keyword) (strings_ToLower text).

Record filter_satisfied (F E : gmap string value) : Prop := mk_filter_satisfied {
  sat_event_types :
    ∀ l, list_clause F "event_types" l → VStr (text_field E "event_type") ∈ l;
  sat_is_from_me :
    ∀ b, bool_clause F "is_from_me" b → flag_field E "is_from_me" = b;
  sat_message_types :
    ∀ l, list_clause F "message_types" l → VStr (text_field E "message_type") ∈ l;
  sat_from_jids :
    ∀ l, list_clause F "from_jids" l → VStr (text_field E "from") ∈ l;
  sat_chat_jids :
    ∀ l, list_clause F "chat_jids" l → VStr (text_field E "chat") ∈ l;
  sat_is_group :
    ∀ b, bool_clause F "is_group" b → flag_field E "is_group" = b;
  sat_group_jids :
    ∀ l, list_clause F "group_jids" l →
         flag_field E "is_group" = true ∧ VStr (text_field E "chat") ∈ l;
  sat_has_media :
    ∀ b, bool_clause F "has_media" b → (b = true ↔ has_field E "media_type");
  sat_has_quoted_message :
    ∀ b, bool_clause F "has_quoted_message" b →
         (b = true ↔ has_field E "quoted_message_id");
  sat_text_contains :
    ∀ l, list_clause F "text_contains" l →
         ∃ keyword, VStr keyword ∈ l ∧
                    contains_ignoring_case (text_field E "text_content") keyword;
  sat_text_regex :
    ∀ pattern, F !! "text_regex" = Some (VStr pattern) →
               regexp_MatchString pattern (text_field E "text_content") = Some true
}.

(** ** What the rate limiter holds, as its callers read it

    A missing limiter, a missing sender and a missing bucket all read as
    the count zero, as Go map lookups do. *)

Definition minute_count (em : EventMatcher) (handlerID : string) (bucket : Z) : Z :=
  count_at (perMinuteCounts (limiter_of em handlerID)) bucket.

Definition hour_count (em : EventMatcher) (handlerID : string) (bucket : Z) : Z :=
  count_at (perHourCounts (limiter_of em handlerID)) bucket.

Definition sender_count (em : EventMatcher) (handlerID sender : string) (bucket : Z) : Z :=
  count_at (default ∅ (perSenderCounts (limiter_of em handlerID) !! sender)) bucket.

Definition last_execution (em : EventMatcher) (handlerID : string) : option Z :=
  lastExecution (limiter_of em handlerID).

(** The answer of [checkRateLimits] as a function of the limiter, and the
    limiter it leaves behind (the per-sender map is created on the path
    that reads it). *)
Definition limit_reached (limit : option Z) (count : Z) : bool :=
  match limit with
  | Some max => (0 <? max) && (max <=? count)
  | None => false
  end.

Definition sender_checked (handler event : gmap string value) : bool :=
  match as_int64 (handler !! "max_executions_per_sender_per_hour") with
  | Some max => (0 <? max) && negb (String.eqb (string_of (event !! "from")) "")
  | None => false
  end.

Definition verdict (handler event : gmap string value) (now : Z) (limiter : RateLimiter)
  : bool :=
  negb (limit_reached (as_int64 (handler !! "max_executions_per_minute"))
          (count_at (perMinuteCounts limiter) (minute_bucket now)))
  && negb (limit_reached (as_int64 (handler !! "max_executions_per_hour"))
             (count_at (perHourCounts limiter) (hour_bucket now)))
  && negb (sender_checked handler event
           && limit_reached (as_int64 (handler !! "max_executions_per_sender_per_hour"))
                (count_at (default ∅ (perSenderCounts limiter !! string_of (event !! "from")))
                   (hour_bucket now))).

Definition touched (handler event : gmap string value) (now : Z) (limiter : RateLimiter)
  : RateLimiter :=
  if negb (limit_reached (as_int64 (handler !! "max_executions_per_minute"))
             (count_at (perMinuteCounts limiter) (minute_bucket now)))
     && negb (limit_reached (as_int64 (handler !! "max_executions_per_hour"))
                (count_at (perHourCounts limiter) (hour_bucket now)))
     && sender_checked handler event
  then
    let fromJID := string_of (event !! "from") in
    mkRateLimiter (perMinuteCounts limiter) (perHourCounts limiter)
      (<[fromJID := default ∅ (perSenderCounts limiter !! fromJID)]> (perSenderCounts limiter))
      (lastExecution limiter)
  else limiter.

Definition limit_keys : list string :=
  ["max_executions_per_minute"; "max_executions_per_hour";
   "max_executions_per_sender_per_hour"]%string.

(** ** The order of the matched handlers in the specification

    Higher priority first; among equal priorities, [handler_id]
    ascending in the lexical order of the bytes. *)

Definition handler_priority (h : gmap string value) : Z := int_of (h !! "priority").
Definition handler_name (h : gmap string value) : string := string_of (h !! "handler_id").

Definition handler_before (h1 h2 : gmap string value) : Prop :=
  handler_priority h2 < handler_priority h1
  ∨ (handler_priority h1 = handler_priority h2
     ∧ String.leb (handler_name h1) (handler_name h2) = true).

(** A handler as the loops of the matcher need it: with a string id. *)
Definition has_id (h : gmap string value) : Prop :=
  ∃ handlerID, h !! "handler_id" = Some (VStr handlerID).

(** ** The scenario of the priority test: four handlers that all match,
    registered with priorities 5, 1, 5 and 3 *)

Definition priority_row (p : Z) : Row :=
  mkRow None (VMap {[ "event_types"%string := VList [VStr "message"] ]}) (VMap ∅)
    1 (IInt p) INull INull INull INull INull 1 5 300 0 0 0 None None None 0
    (Some "closed"%string).

Definition priority_store : Database :=
  mkDatabase
    (<["alpha"%string := priority_row 5]> $ <["bravo"%string := priority_row 1]> $
     <["charlie"%string := priority_row 5]> $ <["delta"%string := priority_row 3]> ∅) [].

Definition message_event : gmap string value :=
  <["event_type"%string := VStr "message"]> $ <["is_from_me"%string := VBool false]> $
  <["from"%string := VStr "491700000000@s.whatsapp.net"]> $
  <["text_content"%string := VStr "hello there"]> ∅.

Definition priority_key (h : gmap string value) : Z * string :=
  (handler_priority h, handler_name h).

Definition expected_order : list (Z * string) :=
  [(5, "alpha"%string); (5, "charlie"%string); (3, "delta"%string); (1, "bravo"%string)].

Definition unsorted_handlers : list (gmap string value) :=
  [ <["handler_id"%string := VStr "alpha"]> {[ "priority"%string := VInt 5 ]};
    <["handler_id"%string := VStr "bravo"]> {[ "priority"%string := VInt 1 ]};
    <["handler_id"%string := VStr "charlie"]> {[ "priority"%string := VInt 5 ]};
    <["handler_id"%string := VStr "delta"]> {[ "priority"%string := VInt 3 ]} ].

(** A scalar that is not a string. *)
Definition scalar (v : value) : Prop :=
  match v with
  | VNil | VBool _ | VInt _ | VInt64 _ | VFloat _ => True
  | _ => False
  end.

(** ** Registration requests

    A request is invalid when it has no data, when [handler_id] is
    missing, empty or not a string, or when [event_filter] or [action] is
    missing.  The store refuses a request when one of the arguments it
    hands to the driver as they are is a list or a map. *)

Definition bindable (v : value) : Prop :=
  match v with
  | VList _ | VMap _ => False
  | _ => True
  end.

(** The arguments [SaveHandler] hands to the driver as they are. *)
Definition raw_columns : list string :=
  ["description"; "priority"; "max_executions_per_minute"; "max_executions_per_hour";
   "max_executions_per_sender_per_hour"; "cooldown_seconds"; "timeout_seconds"]%string.

Definition invalid_request (data : option (gmap string value)) : Prop :=
  match data with
  | None => True
  | Some d =>
      (∀ handlerID, d !! "handler_id" = Some (VStr handlerID) → handlerID = ""%string)
      ∨ d !! "event_filter" = None
      ∨ d !! "action" = None
  end.

Definition store_refuses (data : option (gmap string value)) : Prop :=
  ∃ d k x, data = Some d ∧ k ∈ raw_columns ∧ d !! k = Some x ∧ ¬ bindable x.

(** A request that names everything the validation asks for, with a list
    as its priority. *)
Definition list_priority_request : gmap string value :=
  <["handler_id"%string := VStr "h1"]> $ <["event_filter"%string := VMap ∅]> $
  <["action"%string := VMap ∅]> $ <["priority"%string := VList [VInt 1]]> ∅.

Definition empty_store : Database := mkDatabase ∅ [].

(** ** Scenarios *)

(** A stored handler with the breaker enabled and threshold 2. *)
Definition breaker_row (executions errors : Z) (lastError : option string)
    (lastErrorTime : option Z) : Row :=
  mkRow None (VMap ∅) (VMap ∅) 1 (IInt 0) INull INull INull INull INull 1 2 300
    1699999000000000000 1699999000000000000 executions None lastError lastErrorTime
    errors (Some "closed"%string).

Definition breaker_world (row : Row) : World :=
  mkWorld (mkDatabase {[ "h1"%string := row ]} []) NewEventMatcher []
    1700000000000000000.

(** The end-to-end scenario: the greeting handler with a static action. *)
Definition greeter_request : gmap string value :=
  <["handler_id"%string := VStr "greeter"]> $
  <["event_filter"%string :=
      VMap (<["event_types"%string := VList [VStr "message"]]> $
            <["is_from_me"%string := VBool false]> $
            <["text_contains"%string := VList [VStr "hello"]]> ∅)]> $
  <["action"%string :=
      VMap (<["type"%string := VStr "actions"]> $
            <["actions"%string :=
                VList [VMap (<["type"%string := VStr "send_message"]> $
                             <["to"%string := VStr "{event.from}"]> $
                             <["message"%string :=
                                 VMap {[ "conversation"%string := VStr "hi!" ]}]> ∅)]]> ∅)]> ∅.

(** Register the request in an empty store, load the snapshot, match the
    event and execute the one handler that matched: whether the
    registration succeeded, the matched handlers and the final world. *)
Definition register_and_run (request event : gmap string value) (now : Z)
  : option (bool * list (gmap string value) * World) :=
  let '(result, db) := handleRegisterHandler (Some request) now empty_store in
  em ← LoadHandlers db NewEventMatcher;
  '(matched, em') ← MatchEvent event now em;
  match matched with
  | [handler] =>
      w ← executeHandler handler event (mkWorld db em' [] now);
      Some (Success result, matched, w)
  | _ => None
  end.

(** Handlers and requests of the other scenarios. *)
Definition limited_handler : gmap string value :=
  <["handler_id"%string := VStr "h1"]> {[ "max_executions_per_minute"%string := VInt64 3 ]}.

Definition unlimited_handler : gmap string value :=
  <["handler_id"%string := VStr "h1"]> $
  <["max_executions_per_minute"%string := VInt64 0]> $
  <["max_executions_per_hour"%string := VInt64 (-1)]> ∅.

Definition plain_request : gmap string value :=
  <["handler_id"%string := VStr "h1"]> $ <["event_filter"%string := VMap ∅]> $
  <["action"%string := VMap ∅]> ∅.

Definition tripped_store : Database :=
  database (breaker_world (breaker_row 2 2 (Some "boom"%string) (Some 1700000060000000000))).

(** What the log says of an execution. *)
Definition log_summary (x : HandlerExecution) : string * Z * option string * option Z :=
  (exec_handler_id x, exec_success x, exec_error x, exec_actions_executed x).

(** ** More of the store and of the operations

    As for the registration, the text of a store error is not modelled
    beyond the prefix the operation puts before it. *)

(** [DeleteHandler]: deleting a row that does not exist is no error. *)
Definition DeleteHandler (handlerID : string) (db : Database) : Database :=
  mkDatabase (delete handlerID (event_handlers db)) (handler_executions db).

(** [UpdateHandlerEnabled]: an UPDATE that matches no row is no error. *)
Definition UpdateHandlerEnabled (handlerID : string) (enable : bool) (now : Z)
    (db : Database) : Database :=
  let enabledInt := if enable then 1 else 0 in
  mkDatabase
    (alter (λ r,
       mkRow (description r) (event_filter r) (action r) enabledInt (priority r)
         (max_executions_per_minute r) (max_executions_per_hour r)
         (max_executions_per_sender_per_hour r) (cooldown_seconds r) (timeout_seconds r)
         (circuit_breaker_enabled r) (circuit_breaker_threshold r)
         (circuit_breaker_reset_seconds r) (created_at r)
         now (execution_count r) (last_executed r)
         (last_error r) (last_error_time r) (total_errors r) (circuit_breaker_state r))
       handlerID (event_handlers db))
    (handler_executions db).

(** The id check shared by the operations on one handler. *)
Definition requested_id (data : option (gmap string value)) : string + string :=
  match data with
  | None => inl "Missing handler_id"
  | Some data =>
      match as_string (data !! "handler_id") with
      | None => inl "Missing or invalid handler_id"
      | Some handlerID =>
          if String.eqb handlerID "" then inl "Missing or invalid handler_id"
          else inr handlerID
      end
  end%string.

(** [handleGetHandler] *)
Definition handleGetHandler (data : option (gmap string value)) (db : Database)
  : OperationResult :=
  match requested_id data with
  | inl err => mkOperationResult false err "" ∅
  | inr handlerID =>
      match GetHandler handlerID db with
      | None => mkOperationResult false "Failed to retrieve handler" "" ∅
      | Some handler =>
          mkOperationResult true "" ("Retrieved handler '" +:+ handlerID +:+ "'") handler
      end
  end%string.

(** [handleUpdateHandler]: the request is merged over the stored handler
    and the result is saved. *)
Definition handleUpdateHandler (data : option (gmap string value)) (now : Z)
    (db : Database) : OperationResult * Database :=
  match data with
  | None => (mkOperationResult false "Missing handler data" "" ∅, db)
  | Some data =>
      match requested_id (Some data) with
      | inl err => (mkOperationResult false err "" ∅, db)
      | inr handlerID =>
          match GetHandler handlerID db with
          | None => (mkOperationResult false "Handler not found" "" ∅, db)
          | Some existing =>
              let existing := data ∪ existing in
              match SaveHandler existing now db with
              | None => (mkOperationResult false "Failed to update handler" "" ∅, db)
              | Some db' =>
                  (mkOperationResult true ""
                     ("Handler '" +:+ handlerID +:+ "' updated successfully")
                     (<["handler_id" := VStr handlerID]> ∅), db')
              end
          end
      end
  end%string.

(** [handleDeleteHandler] *)
Definition handleDeleteHandler (data : option (gmap string value)) (db : Database)
  : OperationResult * Database :=
  match requested_id data with
  | inl err => (mkOperationResult false err "" ∅, db)
  | inr handlerID =>
      (mkOperationResult true "" ("Handler '" +:+ handlerID +:+ "' deleted successfully")
         (<["handler_id" := VStr handlerID]> ∅),
       DeleteHandler handlerID db)
  end%string.

(** [handleEnableHandler] and [handleDisableHandler] *)
Definition handleEnableHandler (data : option (gmap string value)) (now : Z)
    (db : Database) : OperationResult * Database :=
  match requested_id data with
  | inl err => (mkOperationResult false err "" ∅, db)
  | inr handlerID =>
      (mkOperationResult true "" ("Handler '" +:+ handlerID +:+ "' enabled")
         (<["handler_id" := VStr handlerID]> (<["enabled" := VBool true]> ∅)),
       UpdateHandlerEnabled handlerID true now db)
  end%string.

Definition handleDisableHandler (data : option (gmap string value)) (now : Z)
    (db : Database) : OperationResult * Database :=
  match requested_id data with
  | inl err => (mkOperationResult false err "" ∅, db)
  | inr handlerID =>
      (mkOperationResult true "" ("Handler '" +:+ handlerID +:+ "' disabled")
         (<["handler_id" := VStr handlerID]> (<["enabled" := VBool false]> ∅)),
       UpdateHandlerEnabled handlerID false now db)
  end%string.

(** ** The bubble sort, pass by pass

    [carry x t c] is what the inner loop makes of [x :: t] in [c]
    comparisons: the element in hand is compared with the next one and
    the one of smaller priority is carried on. *)
Fixpoint carry (x : gmap string value) (t : list (gmap string value)) (c : nat)
  : list (gmap string value) :=
  match c, t with
  | S c', y :: t' =>
      if handler_priority x <? handler_priority y
      then y :: carry x t' c'
      else x :: carry y t' c'
  | _, _ => x :: t
  end.

(** Priority descending. *)
Definition priority_ge (h1 h2 : gmap string value) : Prop :=
  handler_priority h2 ≤ handler_priority h1.

(** ** How a stored row reads *)

(** The columns [GetHandler] scans into Go integers: [priority] into an
    [int], the limits, the cooldown and the timeout into nullable
    integers. *)
Definition row_scans (row : Row) : Prop :=
  is_Some (scan_int (priority row)) ∧
  is_Some (scan_null_int (max_executions_per_minute row)) ∧
  is_Some (scan_null_int (max_executions_per_hour row)) ∧
  is_Some (scan_null_int (max_executions_per_sender_per_hour row)) ∧
  is_Some (scan_null_int (cooldown_seconds row)) ∧
  is_Some (scan_null_int (timeout_seconds row)).

(** The entry a nullable integer column leaves in the handler map. *)
Definition nullable (c : intcol) : option value :=
  match c with
  | IInt n => Some (VInt64 n)
  | _ => None
  end.

(** What [SaveHandler] leaves in an INTEGER column for an argument it
    hands to the driver as it is. *)
Definition integer_stored (v : option value) : intcol :=
  match bind v with
  | Some a => integer_column a
  | None => IJunk
  end.

(** ** What running actions may change

    [acts_within n w w']: from [w] to [w'] the store and the matcher are
    the same, the clock has not gone back, and at most [n] calls were
    added to the calls made on the messaging client. *)
Definition acts_within (n : nat) (w w' : World) : Prop :=
  database w' = database w ∧ eventMatcher w' = eventMatcher w ∧
  clock w ≤ clock w' ∧
  ∃ new, calls w' = calls w ++ new ∧ (length new ≤ n)%nat.

(** The three calls that end a successful execution, in the order of the
    source: the log record, the breaker, then the statistics. *)
Definition succeed_execution (handlerID : string) (event : gmap string value)
    (startTime actionsExecuted : Z) (w : World) : World :=
  let duration := milliseconds_since startTime (clock w) in
  let w := logExecutionSuccess handlerID event startTime duration actionsExecuted w in
  let w :=
    with_database w
      (default (database w) (UpdateCircuitBreaker handlerID true (clock w) (database w))) in
  with_database w (UpdateHandlerStats handlerID true "" (clock w) (database w)).

(** The world in which the actions of an execution start: the execution
    is on record in the limiter. *)
Definition started (handlerID : string) (event : gmap string value) (w : World) : World :=
  mkWorld (database w) (RecordExecution handlerID event (clock w) (eventMatcher w))
    (calls w) (clock w).

(** The three ways an execution ends. *)
Inductive ending :=
| InvalidAction
| Failed (errorMsg : string)
| Succeeded (actionsExecuted : Z).

Definition end_execution (handlerID : string) (event : gmap string value)
    (startTime : Z) (e : ending) (w : World) : World :=
  match e with
  | InvalidAction =>
      logExecutionError handlerID event startTime "Invalid action definition" w
  | Failed errorMsg => fail_execution handlerID event startTime errorMsg w
  | Succeeded actionsExecuted =>
      succeed_execution handlerID event startTime actionsExecuted w
  end.

(** ** The error state

    [ErrorSeverity] is a string type; the four constants are "info",
    "warning", "error" and "critical".  An entry is never changed once it
    is made, so the pointers of the source are modelled by values. *)

Record ErrorEntry := mkErrorEntry {
  entry_ID : string;
  entry_Timestamp : Z;
  entry_Severity : string;
  entry_Operation : string;
  entry_Message : string;
  entry_Details : string;
  entry_StackTrace : string
}.

Record ErrorState := mkErrorState {
  current_critical_error : option ErrorEntry;
  recent_errors : list ErrorEntry;
  max_recent_errors : Z
}.

(** [NewErrorState]; [None] is the panic of [make] on a negative
    capacity. *)
Definition NewErrorState (max_recent_errors : Z) : option ErrorState :=
  if max_recent_errors <? 0 then None
  else Some (mkErrorState None [] max_recent_errors).

(** [LogError]; [id] is the fresh [uuid.New().String()], [now] the clock
    and [stack] the text of [debug.Stack()]. *)
Definition LogError (id : string) (now : Z) (stack : string)
    (severity operation message details : string) (es : ErrorState)
  : ErrorEntry * ErrorState :=
  let entry :=
    mkErrorEntry id now severity operation message details
      (if String.eqb severity "error" || String.eqb severity "critical"
       then stack else "") in
  let critical :=
    if String.eqb severity "critical" then Some entry else current_critical_error es in
  let recent := recent_errors es ++ [entry] in
  let recent :=
    if max_recent_errors es <? Z.of_nat (length recent) then drop 1 recent else recent in
  (entry, mkErrorState critical recent (max_recent_errors es)).

Definition GetCriticalError (es : ErrorState) : option ErrorEntry :=
  current_critical_error es.

Definition HasCriticalError (es : ErrorState) : bool :=
  match current_critical_error es with
  | Some _ => true
  | None => false
  end.

Definition ClearCriticalError (es : ErrorState) : ErrorState :=
  mkErrorState None (recent_errors es) (max_recent_errors es).

(** [severity == nil || entry.Severity == *severity] *)
Definition severity_selected (severity : option string) (entry : ErrorEntry) : bool :=
  match severity with
  | None => true
  | Some s => String.eqb (entry_Severity entry) s
  end.

(** The loop of [GetRecentErrors]: [count] is [i + 1]; [None] is the
    panic of an index out of range. *)
Fixpoint recent_loop (entries : list ErrorEntry) (count : nat) (severity : option string)
    (limit : Z) (filtered : list ErrorEntry) : option (list ErrorEntry) :=
  match count with
  | O => Some filtered
  | S i =>
      entry ← entries !! i;
      if severity_selected severity entry then
        let filtered := filtered ++ [entry] in
        if (0 <? limit) && (limit <=? Z.of_nat (length filtered)) then Some filtered
        else recent_loop entries i severity limit filtered
      else recent_loop entries i severity limit filtered
  end.

(** [GetRecentErrors] *)
Definition GetRecentErrors (severity : option string) (limit : Z) (es : ErrorState)
  : option (list ErrorEntry) :=
  recent_loop (recent_errors es) (length (recent_errors es)) severity limit [].

(** [ClearRecentErrors] *)
Definition ClearRecentErrors (es : ErrorState) : ErrorState :=
  mkErrorState (current_critical_error es)
    (filter (λ entry, entry_Severity entry = "critical"%string) (recent_errors es))
    (max_recent_errors es).

(** [CheckErrorState]; [None] is the nil result. *)
Definition CheckErrorState (operation : string) (es : ErrorState) : option OperationResult :=
  if HasCriticalError es then
    criticalErr ← GetCriticalError es;
    Some (mkOperationResult false
            ("Operation '" +:+ operation +:+ "' blocked due to critical error: "
             +:+ entry_Message criticalErr +:+ " (occurred at "
             +:+ time_Format (entry_Timestamp criticalErr) +:+ " during '"
             +:+ entry_Operation criticalErr +:+ "')")
            ""
            (<["blocked_by_critical_error" := VBool true]> $
             <["critical_error" :=
                 VMap (<["id" := VStr (entry_ID criticalErr)]> $
                       <["timestamp" := VStr (time_Format (entry_Timestamp criticalErr))]> $
                       <["operation" := VStr (entry_Operation criticalErr)]> $
                       <["message" := VStr (entry_Message criticalErr)]> $
                       <["details" := VStr (entry_Details criticalErr)]> ∅)]> ∅))
  else None.

(** A call on the error state that changes it, and a sequence of such
    calls, oldest first. *)
Inductive error_call :=
| CallLogError (id : string) (now : Z) (stack : string)
    (severity operation message details : string)
| CallClearCriticalError
| CallClearRecentErrors.

Definition error_step (es : ErrorState) (c : error_call) : ErrorState :=
  match c with
  | CallLogError id now stack severity operation message details =>
      (LogError id now stack severity operation message details es).2
  | CallClearCriticalError => ClearCriticalError es
  | CallClearRecentErrors => ClearRecentErrors es
  end.

Definition error_run (cs : list error_call) (es : ErrorState) : ErrorState :=
  foldl error_step es cs.

(** A call that leaves a current critical error in place. *)
Definition keeps_critical (c : error_call) : Prop :=
  match c with
  | CallLogError _ _ _ severity _ _ _ => severity ≠ "critical"%string
  | CallClearCriticalError => False
  | CallClearRecentErrors => True
  end.

(** The entries a sequence of calls logs, oldest first. *)
Definition logged (cs : list error_call) (es : ErrorState) : list ErrorEntry :=
  (foldl (λ '(es, entries) c,
            (error_step es c,
             match c with
             | CallLogError id now stack severity operation message details =>
                 entries ++ [(LogError id now stack severity operation message details es).1]
             | _ => entries
             end)) (es, []) cs).2.

(** ** Scenarios for the store, the executor and the error state *)


Definition sender_limited_handler : gmap string value :=
  <["handler_id"%string := VStr "h1"]>
    {[ "max_executions_per_sender_per_hour"%string := VInt64 1 ]}.

Definition other_event : gmap string value :=
  <["from"%string := VStr "491711111111@s.whatsapp.net"]> message_event.

(** A stored handler whose breaker is open since its last error. *)
Definition open_row : Row :=
  mkRow None (VMap ∅) (VMap ∅) 1 (IInt 0) INull INull INull INull INull 1 2 300
    1699999000000000000 1700000060000000000 2 None (Some "boom"%string)
    (Some 1700000060000000000) 2 (Some "open"%string).


(** A stored handler with the breaker disabled. *)
Definition quiet_row : Row :=
  mkRow None (VMap ∅) (VMap ∅) 1 (IInt 0) INull INull INull INull INull 0 5 300
    1699999000000000000 1699999000000000000 4 None None None 1 (Some "closed"%string).

Definition quiet_world : World :=
  mkWorld (mkDatabase {[ "greeter"%string := quiet_row ]} []) NewEventMatcher []
    1700000000000000000.

(** A store with one handler. *)
Definition single_store : Database :=
  mkDatabase {[ "alpha"%string := priority_row 5 ]} [].

Definition alpha_request : gmap string value := {[ "handler_id"%string := VStr "alpha" ]}.

Definition stored_request : gmap string value :=
  <["priority"%string := VInt 7]> (<["cooldown_seconds"%string := VFloat (inject_Z 60)]> greeter_request).

Definition null_priority_request : gmap string value :=
  <["priority"%string := VNil]> plain_request.

Definition greeter_directives : list value :=
  [VMap (<["type"%string := VStr "send_message"]> $
         <["to"%string := VStr "{event.from}"]> $
         <["message"%string := VMap {[ "conversation"%string := VStr "hi!" ]}]> ∅);
   VStr "not a directive";
   VMap {[ "type"%string := VStr "send_reaction" ]}].

Definition three_errors : list error_call :=
  [CallLogError "e1" 1700000000000000000 "trace" "warning" "connect" "slow" "";
   CallLogError "e2" 1700000001000000000 "trace" "critical" "connect" "lost" "";
   CallLogError "e3" 1700000002000000000 "trace" "error" "send" "failed" ""]%string.

(** No stored handler has the breaker state 'open'. *)
Definition no_open_breaker (db : Database) : Prop :=
  ∀ id row, event_handlers db !! id = Some row →
            circuit_breaker_state row ≠ Some "open"%string.

(** * Properties *)

(** Proofs start by dropping the outside capabilities their statement
    does not mention, so that no theorem depends on one by accident. *)
Ltac keep_stated_tail :=
  try clear json_Unmarshal; try clear callMCPTool; try clear sse_connected;
  try clear client_available; try clear os_Stat; try clear filepath_Join;
  try clear os_TempDir; try clear CallWhatsmeowMethod;
  try clear sqlite_integer_of_text; try clear sqlite_text_of_real;
  try clear time_Parse; try clear time_Format; try clear strings_ToLower.

Ltac keep_stated :=
  try clear regexp_empty_pattern; try clear regexp_MatchString; keep_stated_tail.

(** ** Strings *)

Lemma app_cons (c : ascii) (a b : string) : String c a +:+ b = String c (a +:+ b).
Proof.
  keep_stated. reflexivity. Qed.

Lemma app_nil (b : string) : "" +:+ b = b.
Proof.
  keep_stated. reflexivity. Qed.

Lemma prefix_spec (p s : string) :
  String.prefix p s = true ↔ ∃ b, s = p +:+ b.
Proof.
  keep_stated.
  revert s. induction p as [|c p IH]; intros s.
  - split; [intros _; by exists s | by destruct s].
  - destruct s as [|d s]; simpl.
    + split; [done | intros [b Hb]; discriminate].
    + destruct (ascii_dec c d) as [->|Hne].
      * rewrite IH. split; intros [b Hb]; exists b; [by rewrite Hb | by injection Hb].
      * split; [done | intros [b Hb]; injection Hb as Hcd _; by destruct Hne].
Qed.

(** [Contains] is the substring test. *)
Lemma Contains_spec (s sub : string) :
  Contains s sub = true ↔ ∃ a b, s = a +:+ sub +:+ b.
Proof.
  keep_stated.
  induction s as [|c s IH]; cbn [Contains].
  - destruct (String.prefix sub "") eqn:Hp.
    + apply prefix_spec in Hp as [b Hb]. split; [intros _|done]. by exists ""%string, b.
    + split; [done|]. intros (a & b & Hab).
      destruct a; [|discriminate]. rewrite app_nil in Hab.
      assert (String.prefix sub "" = true) by (apply prefix_spec; by exists b).
      congruence.
  - destruct (String.prefix sub (String c s)) eqn:Hp.
    + apply prefix_spec in Hp as [b Hb]. split; [intros _|done]. by exists ""%string, b.
    + rewrite IH. split.
      * intros (a & b & ->). by exists (String c a), b.
      * intros (a & b & Hab). destruct a as [|d a].
        -- rewrite app_nil in Hab.
           assert (String.prefix sub (String c s) = true) by (apply prefix_spec; by exists b).
           congruence.
        -- rewrite app_cons in Hab. injection Hab as _ ->. by exists a, b.
Qed.

Lemma substring_app_head (a b : string) :
  substring 0 (String.length a) (a +:+ b) = a.
Proof.
  keep_stated.
  induction a as [|c a IH].
  - rewrite app_nil. by destruct b.
  - rewrite app_cons. simpl. by rewrite IH.
Qed.

Lemma substring_app_tail (a b : string) (n : nat) :
  substring (String.length a) n (a +:+ b) = substring 0 n b.
Proof.
  keep_stated. induction a as [|c a IH]; [done | rewrite app_cons; apply IH]. Qed.

Lemma substring_all (s : string) : substring 0 (String.length s) s = s.
Proof.
  keep_stated. induction s as [|c s IH]; simpl; [done | by rewrite IH]. Qed.

Lemma substring_split (s : string) (n : nat) :
  (n ≤ String.length s)%nat →
  s = substring 0 n s +:+ substring n (String.length s - n) s.
Proof.
  keep_stated.
  revert n. induction s as [|c s IH]; intros n Hn; simpl in *.
  - by destruct n.
  - destruct n as [|n]; simpl.
    + by rewrite app_nil, substring_all.
    + rewrite app_cons. f_equal. apply IH. lia.
Qed.

Lemma string_length_app (a b : string) :
  String.length (a +:+ b) = (String.length a + String.length b)%nat.
Proof.
  keep_stated.
  induction a as [|c a IH]; [done|]. rewrite app_cons. simpl. by rewrite IH.
Qed.

Lemma string_app_assoc (a b c : string) : (a +:+ b) +:+ c = a +:+ (b +:+ c).
Proof.
  keep_stated.
  induction a as [|x a IH]; [done|]. rewrite !app_cons. by rewrite IH.
Qed.

Lemma substring_zero (s : string) : substring 0 0 s = ""%string.
Proof.
  keep_stated. by destruct s. Qed.

Lemma last_split (r : string) :
  (0 < String.length r)%nat →
  r = substring 0 (String.length r - 1) r +:+ substring (String.length r - 1) 1 r.
Proof.
  keep_stated.
  intros Hr. rewrite (substring_split r (String.length r - 1)) at 1 by lia.
  do 2 f_equal. lia.
Qed.

Lemma substring_app_skip (a b : string) (n m : nat) :
  substring (String.length a + n) m (a +:+ b) = substring n m b.
Proof.
  keep_stated. induction a as [|c a IH]; [done | rewrite app_cons; apply IH]. Qed.

(** The test of [substituteValue] accepts exactly the strings that are,
    as a whole, ["{event."], a field name, and ["}"]. *)
Lemma event_variable_spec (s field : string) :
  event_variable s = Some field ↔ s = "{event." +:+ field +:+ "}".
Proof.
  keep_stated.
  unfold event_variable. split.
  - destruct (7 <? String.length s)%nat eqn:Hlen; simpl; [|done].
    apply Nat.ltb_lt in Hlen.
    destruct (String.eqb (substring 0 7 s) "{event.") eqn:Hpre; simpl; [|done].
    destruct (String.eqb (substring (String.length s - 1) 1 s) "}") eqn:Hsuf; [|done].
    apply String.eqb_eq in Hpre, Hsuf. intros [= <-].
    pose proof (substring_split s 7 ltac:(lia)) as Hs. rewrite Hpre in Hs.
    set (r := substring 7 (String.length s - 7) s) in Hs. clearbody r. subst s.
    rewrite string_length_app in Hlen, Hsuf |- *.
    change (String.length "{event.") with 7%nat in *.
    assert (Hr : (0 < String.length r)%nat) by lia.
    replace (7 + String.length r - 1)%nat
      with (String.length "{event." + (String.length r - 1))%nat in Hsuf |- *
      by (simpl; lia).
    rewrite substring_app_skip in Hsuf.
    replace (String.length "{event." + (String.length r - 1) - 7)%nat
      with (String.length r - 1)%nat by (simpl; lia).
    change 7%nat with (String.length "{event." + 0)%nat at 1.
    rewrite substring_app_skip. f_equal.
    rewrite <- Hsuf. by apply last_split.
  - intros ->.
    assert (Hlen : String.length ("{event." +:+ field +:+ "}") = (8 + String.length field)%nat).
    { rewrite !string_length_app. simpl. lia. }
    rewrite Hlen.
    replace (7 <? 8 + String.length field)%nat with true
      by (symmetry; apply Nat.ltb_lt; lia).
    assert (substring 0 7 ("{event." +:+ field +:+ "}") = "{event."%string) as ->.
    { change 7%nat with (String.length "{event."). apply substring_app_head. }
    assert (substring (8 + String.length field - 1) 1 ("{event." +:+ field +:+ "}")
            = "}"%string) as ->.
    { rewrite <- string_app_assoc.
      replace (8 + String.length field - 1)%nat with (String.length ("{event." +:+ field))
        by (rewrite string_length_app; simpl; lia).
      by rewrite substring_app_tail. }
    rewrite !String.eqb_refl. cbn [andb]. f_equal.
    replace (8 + String.length field - 1 - 7)%nat with (String.length field) by lia.
    change 7%nat with (String.length "{event.").
    rewrite substring_app_tail. apply substring_app_head.
Qed.

(** ** Variable substitution *)

(** C8.  A string that is as a whole ["{event.<field>}"], with the field
    present in the event data, is replaced by the value of the field;
    every other string is returned unchanged, among them the partial
    interpolation ["hello {event.from}"]; maps and lists are substituted
    element by element; scalars that are not strings are returned
    unchanged. *)
Theorem substituteValue_spec (eventData : gmap string value) :
  (∀ field fieldValue,
     eventData !! field = Some fieldValue →
     substituteValue eventData (VStr ("{event." +:+ field +:+ "}")) = fieldValue) ∧
  (∀ s,
     (∀ field, s = "{event." +:+ field +:+ "}" → eventData !! field = None) →
     substituteValue eventData (VStr s) = VStr s) ∧
  substituteValue eventData (VStr "hello {event.from}") = VStr "hello {event.from}" ∧
  (∀ m, substituteValue eventData (VMap m) = VMap (substituteValue eventData <$> m)) ∧
  (∀ l, substituteValue eventData (VList l) = VList (substituteValue eventData <$> l)) ∧
  (∀ v, scalar v → substituteValue eventData v = v).
Proof.
  keep_stated.
  split; [|split; [|split; [|split; [|split]]]].
  - intros field fieldValue Hfield. cbn [substituteValue].
    rewrite (proj2 (event_variable_spec _ field) eq_refl). by rewrite Hfield.
  - intros s Hs. cbn [substituteValue].
    destruct (event_variable s) as [field|] eqn:Hvar; [|done].
    apply event_variable_spec in Hvar. by rewrite (Hs field Hvar).
  - reflexivity.
  - reflexivity.
  - reflexivity.
  - by intros [].
Qed.

(** ** Event-filter matching *)

Lemma containsString_spec (slice : list value) (str : string) :
  containsString slice str = true ↔ VStr str ∈ slice.
Proof.
  keep_stated.
  induction slice as [|item rest IH]; simpl.
  - split; [done | by intros ?%elem_of_nil].
  - rewrite elem_of_cons.
    destruct item as [| | | | |s| |]; try (rewrite IH; naive_solver).
    destruct (String.eqb s str) eqn:Heq.
    + apply String.eqb_eq in Heq as ->. naive_solver.
    + apply String.eqb_neq in Heq. rewrite IH. naive_solver.
Qed.

Lemma any_keyword_spec (textContains : list value) (textContent : string) :
  any_keyword textContains textContent = true ↔
  ∃ keyword, VStr keyword ∈ textContains ∧
             is_substring (strings_ToLower keyword) textContent.
Proof.
  keep_stated.
  unfold is_substring. induction textContains as [|item rest IH]; simpl.
  - split; [done | by intros (? & ?%elem_of_nil & _)].
  - setoid_rewrite elem_of_cons.
    destruct item as [| | | | |s| |]; try (rewrite IH; naive_solver).
    destruct (Contains textContent (strings_ToLower s)) eqn:Hc.
    + apply Contains_spec in Hc. naive_solver.
    + rewrite IH. split; [naive_solver|].
      intros (keyword & [[= <-]|Hin] & Hsub); [|naive_solver].
      apply Contains_spec in Hsub. congruence.
Qed.

Lemma nonempty_slice_spec (v : option value) (l : list value) :
  nonempty_slice v = Some l ↔ v = Some (VList l) ∧ l ≠ [].
Proof.
  keep_stated.
  unfold nonempty_slice.
  destruct v as [[| | | | | |l'|]|]; simpl; try naive_solver.
  destruct l'; simpl; naive_solver.
Qed.

Lemma nonempty_string_spec (E : gmap string value) (k : string) :
  nonempty_string (E !! k) = true ↔ has_field E k.
Proof.
  keep_stated.
  unfold nonempty_string, has_field.
  destruct (E !! k) as [[| | | | |s| |]|]; simpl; try naive_solver.
  destruct (String.eqb s "") eqn:Heq; simpl.
  - apply String.eqb_eq in Heq. naive_solver.
  - apply String.eqb_neq in Heq. naive_solver.
Qed.

Lemma guard_iff (g k : bool) : (if g then false else k) = true ↔ g = false ∧ k = true.
Proof.
  keep_stated. destruct g, k; naive_solver. Qed.

Lemma list_guard (F : gmap string value) (k : string) (g : list value → bool)
    (P : list value → Prop) :
  (∀ l, g l = false ↔ P l) →
  match nonempty_slice (F !! k) with Some l => g l | None => false end = false ↔
  ∀ l, list_clause F k l → P l.
Proof.
  keep_stated.
  intros HgP. unfold list_clause.
  destruct (nonempty_slice (F !! k)) as [l|] eqn:Hl.
  - apply nonempty_slice_spec in Hl as [Hl Hne]. rewrite HgP. split.
    + intros HP l' [Hl' _]. congruence.
    + intros H. by apply H.
  - split; [|done]. intros _ l Hl'. apply nonempty_slice_spec in Hl'. congruence.
Qed.

Lemma bool_guard (F : gmap string value) (k : string) (g : bool → bool) (P : bool → Prop) :
  (∀ b, g b = false ↔ P b) →
  match as_bool (F !! k) with Some b => g b | None => false end = false ↔
  ∀ b, bool_clause F k b → P b.
Proof.
  keep_stated.
  intros HgP. unfold bool_clause.
  destruct (F !! k) as [[| b| | | | | |]|]; simpl; rewrite ?HgP; naive_solver.
Qed.

Lemma negb_false_true (b : bool) : negb b = false ↔ b = true.
Proof.
  keep_stated. by destruct b. Qed.

Lemma negb_eqb_false (a b : bool) : negb (eqb a b) = false ↔ b = a.
Proof.
  keep_stated. destruct a, b; naive_solver. Qed.

(** C5.  A handler's filter matches an event exactly when every present
    clause of the filter is satisfied by the event: list clauses are
    membership tests, [is_from_me] and [is_group] are equalities,
    [group_jids] asks for a group and for the chat to be listed,
    [has_media] and [has_quoted_message] compare with "the field is
    present and not empty", [text_contains] asks for one keyword
    contained in the text whatever the case, and [text_regex] asks the
    pattern to compile and to match. *)
Theorem matchesFilter_iff_satisfied (handler F E : gmap string value) :
  handler !! "event_filter" = Some (VMap F) →
  matchesFilter handler E = true ↔ filter_satisfied F E.
Proof using regexp_empty_pattern.
  keep_stated_tail.
  intros HF. unfold matchesFilter. rewrite HF. cbn [as_map].
  rewrite !guard_iff.
  rewrite !(list_guard F _ (λ l, negb (containsString l _)) (λ l, VStr _ ∈ l))
    by (intros l; by rewrite negb_false_true, containsString_spec).
  rewrite !(bool_guard F _ (λ b, negb (eqb b (bool_of _))) (λ b, bool_of _ = b))
    by (intros b; apply negb_eqb_false).
  rewrite (list_guard F "group_jids" _
             (λ l, flag_field E "is_group" = true ∧ VStr (text_field E "chat") ∈ l)).
  2:{ intros l. rewrite <- containsString_spec. unfold flag_field, text_field.
      destruct (bool_of _), (containsString _ _); naive_solver. }
  rewrite (bool_guard F "has_media" _ (λ b, b = true ↔ has_field E "media_type")).
  2:{ intros b. rewrite <- nonempty_string_spec.
      destruct b, (nonempty_string _); naive_solver. }
  rewrite (bool_guard F "has_quoted_message" _
             (λ b, b = true ↔ has_field E "quoted_message_id")).
  2:{ intros b. rewrite <- nonempty_string_spec.
      destruct b, (nonempty_string _); naive_solver. }
  rewrite (list_guard F "text_contains" _
             (λ l, ∃ keyword, VStr keyword ∈ l ∧
                     contains_ignoring_case (text_field E "text_content") keyword)).
  2:{ intros l. rewrite negb_false_true. apply any_keyword_spec. }
  assert (Hregex :
    match as_string (F !! "text_regex") with
    | Some textRegex =>
        if String.eqb textRegex "" then false
        else match regexp_MatchString textRegex (string_of (E !! "text_content")) with
             | Some matched => negb matched
             | None => true
             end
    | None => false
    end = false ↔
    ∀ pattern, F !! "text_regex" = Some (VStr pattern) →
               regexp_MatchString pattern (text_field E "text_content") = Some true).
  { unfold text_field.
    destruct (F !! "text_regex") as [[| | | | |p| |]|]; simpl; try naive_solver.
    destruct (String.eqb p "") eqn:Hp.
    - apply String.eqb_eq in Hp as ->. split; [|done].
      intros _ pattern [= <-]. apply regexp_empty_pattern.
    - destruct (regexp_MatchString p _) as [[]|] eqn:Hm; simpl.
      + split; [|done]. by intros _ pattern [= <-].
      + split; [done|]. intros H. specialize (H p eq_refl). congruence.
      + split; [done|]. intros H. specialize (H p eq_refl). congruence. }
  rewrite Hregex. clear Hregex.
  split.
  - intros (?&?&?&?&?&?&?&?&?&?&?&_). by constructor.
  - intros []. repeat (split; [assumption|]). done.
Qed.

(** ** Rate limiter *)

Lemma checkRateLimits_eq (handler event : gmap string value) (now : Z) (em : EventMatcher)
    (handlerID : string) :
  handler !! "handler_id" = Some (VStr handlerID) →
  checkRateLimits handler event now em
  = Some (verdict handler event now (limiter_of em handlerID),
          set_limiter em handlerID (touched handler event now (limiter_of em handlerID))).
Proof.
  keep_stated.
  intros Hid. unfold checkRateLimits, verdict, touched, sender_checked, limit_reached.
  rewrite Hid. cbn [as_string mbind option_bind].
  destruct (as_int64 (handler !! "max_executions_per_minute")) as [maxPerMin|];
    destruct (as_int64 (handler !! "max_executions_per_hour")) as [maxPerHour|];
    destruct (as_int64 (handler !! "max_executions_per_sender_per_hour")) as [maxPerSender|];
    repeat match goal with
           | |- context [(0 <? ?x) && _] => destruct (0 <? x); cbn [andb negb]
           | |- context [(?x <=? ?y)] => destruct (x <=? y); cbn [andb negb]
           | |- context [String.eqb ?x ?y] => destruct (String.eqb x y); cbn [andb negb]
           end; reflexivity.
Qed.

Lemma limiter_of_set_limiter (em : EventMatcher) (handlerID id : string) (L : RateLimiter) :
  limiter_of (set_limiter em handlerID L) id
  = if decide (handlerID = id) then L else limiter_of em id.
Proof.
  keep_stated.
  unfold limiter_of, set_limiter. cbn [rateLimits].
  rewrite lookup_insert. by case_decide.
Qed.

Lemma touched_fields (handler event : gmap string value) (now : Z) (L : RateLimiter) :
  perMinuteCounts (touched handler event now L) = perMinuteCounts L ∧
  perHourCounts (touched handler event now L) = perHourCounts L ∧
  lastExecution (touched handler event now L) = lastExecution L ∧
  ∀ sender, default ∅ (perSenderCounts (touched handler event now L) !! sender)
            = default ∅ (perSenderCounts L !! sender).
Proof.
  keep_stated.
  unfold touched. destruct (_ && _ && _); cbn; [|done].
  repeat split. intros sender. rewrite lookup_insert. by case_decide; subst.
Qed.

Lemma verdict_touched (handler event : gmap string value) (now : Z) (L : RateLimiter) :
  verdict handler event now (touched handler event now L) = verdict handler event now L.
Proof.
  keep_stated.
  destruct (touched_fields handler event now L) as (Hm & Hh & _ & Hs).
  unfold verdict. by rewrite Hm, Hh, Hs.
Qed.

(** C7.  Checking the limits is a read: for a handler with an id, the
    call returns, the snapshot and every per-minute, per-hour and
    per-sender-per-hour count and every last-execution time read the same
    before and after, and a second call at the same clock gives the same
    answer. *)
Theorem checkRateLimits_read_only (handler event : gmap string value) (now : Z)
    (em : EventMatcher) (handlerID : string) :
  handler !! "handler_id" = Some (VStr handlerID) →
  ∃ allowed em',
    checkRateLimits handler event now em = Some (allowed, em') ∧
    handlers em' = handlers em ∧
    (∀ id bucket, minute_count em' id bucket = minute_count em id bucket) ∧
    (∀ id bucket, hour_count em' id bucket = hour_count em id bucket) ∧
    (∀ id sender bucket, sender_count em' id sender bucket = sender_count em id sender bucket) ∧
    (∀ id, last_execution em' id = last_execution em id) ∧
    fst <$> checkRateLimits handler event now em' = Some allowed.
Proof.
  keep_stated.
  intros Hid. eexists _, _. split; [by apply checkRateLimits_eq|].
  destruct (touched_fields handler event now (limiter_of em handlerID)) as (Hm & Hh & Hl & Hs).
  unfold minute_count, hour_count, sender_count, last_execution.
  repeat split.
  - intros id bucket. rewrite limiter_of_set_limiter. case_decide; subst; by rewrite ?Hm.
  - intros id bucket. rewrite limiter_of_set_limiter. case_decide; subst; by rewrite ?Hh.
  - intros id sender bucket. rewrite limiter_of_set_limiter.
    case_decide; subst; by rewrite ?Hs.
  - intros id. rewrite limiter_of_set_limiter. case_decide; subst; by rewrite ?Hl.
  - rewrite (checkRateLimits_eq _ _ _ _ handlerID Hid). cbn.
    rewrite limiter_of_set_limiter. rewrite decide_True by done.
    by rewrite verdict_touched.
Qed.

(** C10.  A limit configured as zero or below is never enforced: the
    check answers as it does for the handler without that limit,
    whatever the counts; and a handler all of whose configured limits are
    zero or below is always allowed. *)
Theorem nonpositive_limit_never_blocks (handler event : gmap string value) (now : Z)
    (em : EventMatcher) :
  (∀ k n, k ∈ limit_keys → handler !! k = Some (VInt64 n) → n ≤ 0 →
          checkRateLimits handler event now em
          = checkRateLimits (delete k handler) event now em) ∧
  (∀ handlerID,
     handler !! "handler_id" = Some (VStr handlerID) →
     (∀ k n, k ∈ limit_keys → handler !! k = Some (VInt64 n) → n ≤ 0) →
     ∃ em', checkRateLimits handler event now em = Some (true, em')).
Proof.
  keep_stated.
  split.
  - intros k n Hk Hlimit Hn.
    assert (Hoff : (0 <? n) = false) by (apply Z.ltb_ge; lia).
    unfold limit_keys in Hk. rewrite !elem_of_cons in Hk.
    destruct Hk as [->|[->|[->|Hk]]]; [| | |by apply elem_of_nil in Hk];
      unfold checkRateLimits;
      rewrite ?lookup_delete_eq, ?lookup_delete_ne by done;
      rewrite Hlimit; cbn [as_int64]; rewrite Hoff; cbn [andb];
      destruct (as_string (handler !! "handler_id")); cbn [mbind option_bind];
      try reflexivity;
      repeat match goal with
             | |- context [if ?b then _ else _] => destruct b
             end; reflexivity.
  - intros handlerID Hid Hall. eexists.
    rewrite (checkRateLimits_eq _ _ _ _ handlerID Hid). f_equal. f_equal.
    unfold verdict, sender_checked, limit_reached.
    assert (Hoff : ∀ k, k ∈ limit_keys →
              match as_int64 (handler !! k) with
              | Some max => 0 <? max
              | None => false
              end = false).
    { intros k Hk. destruct (handler !! k) as [[| | |n| | | |]|] eqn:Hv; try done.
      cbn. apply Z.ltb_ge. by apply (Hall k). }
    pose proof (Hoff "max_executions_per_minute"%string) as H1.
    pose proof (Hoff "max_executions_per_hour"%string) as H2.
    pose proof (Hoff "max_executions_per_sender_per_hour"%string) as H3.
    unfold limit_keys in H1, H2, H3.
    destruct (as_int64 (handler !! "max_executions_per_minute"));
      [rewrite H1 by set_solver|];
      (destruct (as_int64 (handler !! "max_executions_per_hour"));
       [rewrite H2 by set_solver|]);
      (destruct (as_int64 (handler !! "max_executions_per_sender_per_hour"));
       [rewrite H3 by set_solver|]); reflexivity.
Qed.

Lemma oldest_minute_le (now : Z) : Z.quot (Unix now - 7200) 60 ≤ minute_bucket now.
Proof.
  keep_stated. unfold minute_bucket. apply Z.quot_le_mono; lia. Qed.

Lemma count_at_drop_old (oldest bucket : Z) (counts : gmap Z Z) :
  count_at (drop_old oldest counts) bucket
  = if decide (bucket < oldest) then 0 else count_at counts bucket.
Proof.
  keep_stated.
  unfold count_at, drop_old. rewrite map_lookup_filter.
  destruct (counts !! bucket) as [c|]; cbn; [|by case_decide].
  case_decide.
  - rewrite option_guard_False by (cbn; lia). done.
  - rewrite option_guard_True by (cbn; lia). done.
Qed.

(** Recording increments the bucket of the current minute and keeps it. *)
Lemma RecordExecution_minute_count (handlerID : string) (event : gmap string value)
    (now bucket : Z) (em : EventMatcher) :
  minute_bucket now = bucket →
  minute_count (RecordExecution handlerID event now em) handlerID bucket
  = wrap64 (minute_count em handlerID bucket + 1).
Proof.
  keep_stated.
  intros <-. unfold minute_count, RecordExecution.
  rewrite limiter_of_set_limiter, decide_True by done. cbn [perMinuteCounts].
  rewrite count_at_drop_old. pose proof (oldest_minute_le now).
  rewrite decide_False by lia.
  unfold count_at at 1. by rewrite lookup_insert_eq.
Qed.

(** Any other bucket keeps its count or is evicted. *)
Lemma RecordExecution_minute_other (handlerID : string) (event : gmap string value)
    (now bucket : Z) (em : EventMatcher) :
  bucket ≠ minute_bucket now →
  minute_count (RecordExecution handlerID event now em) handlerID bucket
  = minute_count em handlerID bucket
  ∨ minute_count (RecordExecution handlerID event now em) handlerID bucket = 0.
Proof.
  keep_stated.
  intros Hne. unfold minute_count, RecordExecution.
  rewrite limiter_of_set_limiter, decide_True by done. cbn [perMinuteCounts].
  rewrite count_at_drop_old. case_decide; [by right|left].
  unfold count_at at 1. by rewrite lookup_insert_ne.
Qed.

Lemma wrap64_small (z : Z) : - 2 ^ 63 ≤ z < 2 ^ 63 → wrap64 z = z.
Proof.
  keep_stated. intros Hz. unfold wrap64. rewrite Z.mod_small; lia. Qed.

(** C6.  With [max_executions_per_minute = 3] and no other limit, after
    three recorded executions in one minute bucket a check in that bucket
    is blocked, and a check in a later bucket, where fewer than three
    executions are on record, is allowed. *)
Theorem rate_limit_minute_bucket (handler e1 e2 e3 event : gmap string value)
    (t1 t2 t3 m : Z) (em : EventMatcher) (handlerID : string) :
  handler !! "handler_id" = Some (VStr handlerID) →
  handler !! "max_executions_per_minute" = Some (VInt64 3) →
  as_int64 (handler !! "max_executions_per_hour") = None →
  as_int64 (handler !! "max_executions_per_sender_per_hour") = None →
  minute_bucket t1 = m → minute_bucket t2 = m → minute_bucket t3 = m →
  0 ≤ minute_count em handlerID m < 2 ^ 63 - 3 →
  let em3 :=
    RecordExecution handlerID e3 t3
      (RecordExecution handlerID e2 t2 (RecordExecution handlerID e1 t1 em)) in
  (∀ t, minute_bucket t = m →
        fst <$> checkRateLimits handler event t em3 = Some false) ∧
  (∀ t, m < minute_bucket t →
        minute_count em handlerID (minute_bucket t) < 3 →
        fst <$> checkRateLimits handler event t em3 = Some true).
Proof.
  keep_stated.
  intros Hid Hmax Hhour Hsender H1 H2 H3 Hcount em3.
  assert (Hm3 : minute_count em3 handlerID m = minute_count em handlerID m + 3).
  { unfold em3. rewrite !RecordExecution_minute_count by done.
    rewrite (wrap64_small (_ em _ _ + 1)) by lia.
    rewrite (wrap64_small (_ em _ _ + 1 + 1)) by lia.
    rewrite wrap64_small by lia. lia. }
  split.
  - intros t Ht. rewrite (checkRateLimits_eq _ _ _ _ handlerID Hid). cbn.
    unfold verdict, sender_checked. rewrite Hmax, Hhour, Hsender, Ht. cbn.
    fold (minute_count em3 handlerID m). rewrite Hm3.
    replace (3 <=? minute_count em handlerID m + 3) with true
      by (symmetry; apply Z.leb_le; lia).
    done.
  - intros t Ht Hfew. rewrite (checkRateLimits_eq _ _ _ _ handlerID Hid). cbn.
    unfold verdict, sender_checked. rewrite Hmax, Hhour, Hsender. cbn.
    fold (minute_count em3 handlerID (minute_bucket t)).
    assert (Hlater : minute_count em3 handlerID (minute_bucket t) < 3).
    { unfold em3.
      destruct (RecordExecution_minute_other handlerID e3 t3 (minute_bucket t)
                  (RecordExecution handlerID e2 t2 (RecordExecution handlerID e1 t1 em)))
        as [-> | ->]; [lia| |lia].
      destruct (RecordExecution_minute_other handlerID e2 t2 (minute_bucket t)
                  (RecordExecution handlerID e1 t1 em)) as [-> | ->]; [lia| |lia].
      destruct (RecordExecution_minute_other handlerID e1 t1 (minute_bucket t) em)
        as [-> | ->]; lia. }
    replace (3 <=? minute_count em3 handlerID (minute_bucket t)) with false
      by (symmetry; apply Z.leb_gt; lia).
    done.
Qed.

(** ** Priority order *)

Lemma string_leb_total (a b : string) : String.leb a b = true ∨ String.leb b a = true.
Proof.
  keep_stated.
  unfold String.leb. rewrite (String.compare_antisym a b).
  destruct (String.compare b a); cbn; auto.
Qed.

Lemma string_leb_trans (a b c : string) :
  String.leb a b = true → String.leb b c = true → String.leb a c = true.
Proof.
  keep_stated.
  unfold String.leb. intros Hab Hbc.
  destruct (String.compare a b) eqn:Eab; [| |done].
  - apply String.compare_eq_iff in Eab as ->. done.
  - destruct (String.compare b c) eqn:Ebc; [| |done].
    + apply String.compare_eq_iff in Ebc as <-. by rewrite Eab.
    + apply String_as_OT.cmp_lt in Eab, Ebc.
      pose proof (String_as_OT.lt_trans _ _ _ Eab Ebc) as Hac.
      apply String_as_OT.cmp_lt in Hac. unfold String_as_OT.cmp in Hac. by rewrite Hac.
Qed.

Lemma order_by_spec (x y : Z * string) :
  order_by x y ↔ y.1 < x.1 ∨ (x.1 = y.1 ∧ String.leb x.2 y.2 = true).
Proof.
  keep_stated.
  unfold order_by. rewrite orb_true_iff, andb_true_iff, Z.gtb_ltb, Z.ltb_lt, Z.eqb_eq.
  done.
Qed.

Global Instance row_order_total : Total row_order.
Proof.
  keep_stated.
  intros x y. unfold row_order. rewrite !order_by_spec.
  destruct (Z.lt_trichotomy x.1.1 y.1.1) as [?|[?|?]]; [auto|..|auto].
  destruct (string_leb_total x.1.2 y.1.2); auto.
Qed.

Global Instance row_order_trans : Transitive row_order.
Proof.
  keep_stated.
  intros x y z. unfold row_order. rewrite !order_by_spec.
  intros [?|[? ?]] [?|[? ?]]; [left; lia..|].
  right. split; [lia|]. by eapply string_leb_trans.
Qed.

Lemma lookup_set_if_ne (k k' : string) (o : option value) (m : gmap string value) :
  k ≠ k' → set_if k o m !! k' = m !! k'.
Proof.
  keep_stated. intros Hne. destruct o; cbn; [by rewrite lookup_insert_ne | done]. Qed.

Ltac skip_keys :=
  repeat first
    [ rewrite lookup_set_if_ne by done
    | rewrite lookup_insert_ne by done ].

Lemma list_entry_id (handlerID : string) (p : Z) (row : Row) :
  list_entry handlerID p row !! "handler_id" = Some (VStr handlerID).
Proof.
  keep_stated. unfold list_entry. skip_keys. by rewrite lookup_insert_eq. Qed.

Lemma list_entry_priority (handlerID : string) (p : Z) (row : Row) :
  list_entry handlerID p row !! "priority" = Some (VInt p).
Proof.
  keep_stated. unfold list_entry. skip_keys. by rewrite lookup_insert_eq. Qed.

(** What [GetHandler] returns carries the id asked for and the priority
    of the row. *)
Lemma GetHandler_keys (handlerID : string) (db : Database) (h : gmap string value) :
  GetHandler handlerID db = Some h →
  ∃ row p,
    event_handlers db !! handlerID = Some row ∧ priority row = IInt p ∧
    h !! "handler_id" = Some (VStr handlerID) ∧ h !! "priority" = Some (VInt p).
Proof.
  keep_stated.
  unfold GetHandler. intros Hget.
  destruct (event_handlers db !! handlerID) as [row|]; [|done]. cbn in Hget.
  destruct (priority row) as [|p|] eqn:Hp; try done. cbn in Hget.
  destruct (scan_null_int (max_executions_per_minute row)); [|done]. cbn in Hget.
  destruct (scan_null_int (max_executions_per_hour row)); [|done]. cbn in Hget.
  destruct (scan_null_int (max_executions_per_sender_per_hour row)); [|done]. cbn in Hget.
  destruct (scan_null_int (cooldown_seconds row)); [|done]. cbn in Hget.
  destruct (scan_null_int (timeout_seconds row)); [|done]. cbn in Hget.
  injection Hget as <-. exists row, p. split; [done|]. split; [done|].
  destruct (circuit_breaker_enabled row =? 1);
    split; skip_keys; by rewrite lookup_insert_eq.
Qed.

Lemma handler_before_list_entry (x y : Z * string * Row) :
  row_order x y →
  handler_before (list_entry x.1.2 x.1.1 x.2) (list_entry y.1.2 y.1.1 y.2).
Proof.
  keep_stated.
  unfold row_order, handler_before, handler_priority, handler_name.
  rewrite order_by_spec, !list_entry_id, !list_entry_priority. done.
Qed.

(** [ListHandlers] returns the handlers in the order of the
    specification, each with its id and the priority of its row. *)
Lemma ListHandlers_sorted (enabledOnly : bool) (db : Database)
    (listed : list (gmap string value)) :
  ListHandlers enabledOnly db = Some listed →
  StronglySorted handler_before listed ∧
  Forall (λ h, ∃ handlerID row p,
            h !! "handler_id" = Some (VStr handlerID) ∧ h !! "priority" = Some (VInt p) ∧
            event_handlers db !! handlerID = Some row ∧ priority row = IInt p) listed.
Proof.
  keep_stated.
  unfold ListHandlers. intros Hlist.
  destruct (mapM _ _) as [keyed|] eqn:Hkeyed; [|done]. cbn in Hlist.
  injection Hlist as <-. split.
  - apply StronglySorted_fmap with (R1 := row_order).
    + intros x y. apply handler_before_list_entry.
    + apply StronglySorted_merge_sort; apply _.
  - apply Forall_fmap, Forall_forall. intros x Hx.
    rewrite merge_sort_Permutation in Hx.
    apply mapM_Some_1 in Hkeyed.
    apply list_elem_of_lookup in Hx as [i Hi].
    destruct (Forall2_lookup_r _ _ _ _ _ Hkeyed Hi) as (kr & Hkr & Hscan).
    apply list_elem_of_lookup_2, list_elem_of_filter in Hkr as [_ Hkr].
    destruct kr as [handlerID row]. apply elem_of_map_to_list in Hkr. cbn in *.
    destruct (priority row) as [|p|] eqn:Hp; try done. cbn in Hscan.
    injection Hscan as <-. cbn.
    exists handlerID, row, p. by rewrite list_entry_id, list_entry_priority.
Qed.

Lemma handler_before_keys (h1 h2 h1' h2' : gmap string value) :
  h1' !! "handler_id" = h1 !! "handler_id" → h1' !! "priority" = h1 !! "priority" →
  h2' !! "handler_id" = h2 !! "handler_id" → h2' !! "priority" = h2 !! "priority" →
  handler_before h1 h2 → handler_before h1' h2'.
Proof.
  keep_stated.
  unfold handler_before, handler_priority, handler_name. by intros -> -> -> ->.
Qed.

(** The loop of [LoadHandlers] returns, keeps the order of the listing,
    and every handler it keeps has its id. *)
Lemma load_loop_sorted (db : Database) (listed acc : list (gmap string value)) :
  StronglySorted handler_before listed →
  Forall (λ h, ∃ handlerID row p,
            h !! "handler_id" = Some (VStr handlerID) ∧ h !! "priority" = Some (VInt p) ∧
            event_handlers db !! handlerID = Some row ∧ priority row = IInt p) listed →
  ∃ full, load_loop db listed acc = Some (acc ++ full) ∧
          StronglySorted handler_before full ∧ Forall has_id full ∧
          Forall (λ f, ∃ h, h ∈ listed ∧ f !! "handler_id" = h !! "handler_id"
                            ∧ f !! "priority" = h !! "priority") full.
Proof.
  keep_stated.
  revert acc. induction listed as [|h rest IH]; intros acc Hsorted Hrows.
  - exists []. rewrite app_nil_r. repeat split; constructor.
  - apply StronglySorted_inv in Hsorted as [Hsorted Hfirst].
    apply Forall_cons in Hrows as [(handlerID & row & p & Hid & Hprio & Hrow & Hp) Hrows].
    cbn [load_loop]. rewrite Hid. cbn.
    destruct (GetHandler handlerID db) as [fullHandler|] eqn:Hget.
    + destruct (IH (acc ++ [fullHandler]) Hsorted Hrows) as (full & -> & Hs & Hids & Hfrom).
      exists (fullHandler :: full). rewrite <- app_assoc. split; [done|].
      apply GetHandler_keys in Hget as (row' & p' & Hrow' & Hp' & Hfid & Hfprio).
      assert (p' = p) as -> by congruence.
      repeat split.
      * constructor; [done|]. apply Forall_forall. intros f Hf.
        rewrite Forall_forall in Hfrom. destruct (Hfrom f Hf) as (h' & Hh' & Hfi & Hfp).
        rewrite Forall_forall in Hfirst.
        apply (handler_before_keys h h'); try done; [congruence..|]. by apply Hfirst.
      * constructor; [by exists handlerID | done].
      * constructor.
        -- exists h. split; [by left | split; congruence].
        -- eapply Forall_impl; [exact Hfrom|]. intros f (h' & Hh' & ?). exists h'.
           split; [by right | done].
    + destruct (IH acc Hsorted Hrows) as (full & -> & Hs & Hids & Hfrom).
      exists full. repeat split; try done.
      eapply Forall_impl; [exact Hfrom|]. intros f (h' & Hh' & ?). exists h'.
        split; [by right | done].
Qed.

Lemma checkCooldown_returns (handler : gmap string value) (now : Z) (em : EventMatcher) :
  has_id handler → is_Some (checkCooldown handler now em).
Proof.
  keep_stated.
  intros [handlerID Hid]. unfold checkCooldown. rewrite Hid.
  destruct (as_int64 _) as [c|]; [|done].
  destruct (c <=? 0); [done|]. cbn.
  destruct (rateLimits em !! handlerID) as [limiter|]; [|done].
  by destruct (lastExecution limiter).
Qed.

(** The matching loop returns, and what it keeps is a sublist of the
    snapshot, in the order of the snapshot. *)
Lemma match_loop_sublist (snapshot : list (gmap string value)) (event : gmap string value)
    (now : Z) (em : EventMatcher) (acc : list (gmap string value)) :
  Forall has_id snapshot →
  ∃ kept em', match_loop snapshot event now em acc = Some (acc ++ kept, em')
              ∧ kept `sublist_of` snapshot.
Proof.
  keep_stated.
  revert em acc. induction snapshot as [|handler rest IH]; intros em acc Hids.
  - exists [], em. by rewrite app_nil_r.
  - apply Forall_cons in Hids as [Hid Hids]. cbn [match_loop].
    assert (Hskip : ∀ em1, ∃ kept em',
              match_loop rest event now em1 acc = Some (acc ++ kept, em')
              ∧ kept `sublist_of` handler :: rest).
    { intros em1. destruct (IH em1 acc Hids) as (kept & em' & -> & Hsub).
      exists kept, em'. split; [done | by apply sublist_cons]. }
    destruct (as_bool (handler !! "enabled")) as [[]|]; [|by apply Hskip..].
    destruct (isCircuitBreakerOpen handler now); [by apply Hskip|].
    destruct Hid as [handlerID Hid].
    rewrite (checkRateLimits_eq _ _ _ _ handlerID Hid). cbn.
    destruct (verdict _ _ _ _); cbn; [|by apply Hskip].
    destruct (checkCooldown_returns handler now
                (set_limiter em handlerID
                   (touched handler event now (limiter_of em handlerID)))) as [cooled ->];
      [by exists handlerID|]. cbn.
    destruct cooled; cbn; [|by apply Hskip].
    destruct (matchesFilter handler event); [|by apply Hskip].
    destruct (IH (set_limiter em handlerID
                    (touched handler event now (limiter_of em handlerID)))
                (acc ++ [handler]) Hids) as (kept & em' & -> & Hsub).
    exists (handler :: kept), em'. rewrite <- app_assoc. split; [done|].
    by apply sublist_skip.
Qed.

Lemma StronglySorted_sublist {A} (R : relation A) (l1 l2 : list A) :
  l1 `sublist_of` l2 → StronglySorted R l2 → StronglySorted R l1.
Proof.
  keep_stated.
  induction 1 as [|x l1 l2 Hsub IH|x l1 l2 Hsub IH]; intros Hsorted; [done|..].
  - apply StronglySorted_inv in Hsorted as [Hs Hx]. constructor; [by apply IH|].
    rewrite Forall_forall in Hx |- *. intros y Hy. apply Hx.
    by eapply elem_of_sublist.
  - apply StronglySorted_inv in Hsorted as [Hs _]. by apply IH.
Qed.

Lemma StronglySorted_lookup_lt {A} (R : relation A) (l : list A) (i j : nat) (a b : A) :
  StronglySorted R l → l !! i = Some a → l !! j = Some b → (i < j)%nat → R a b.
Proof.
  keep_stated.
  intros Hsorted. revert i j.
  induction Hsorted as [|x l Hs IH Hx]; intros i j Hi Hj Hlt; [done|].
  destruct j as [|j]; [lia|]. destruct i as [|i]; cbn in *.
  - injection Hi as <-. rewrite Forall_forall in Hx. apply Hx.
    by eapply list_elem_of_lookup_2.
  - apply (IH i j); [done..|lia].
Qed.

(** On a list that is already in order the bubble sort swaps nothing. *)
Lemma sortHandlersByPriority_sorted_id (hs : list (gmap string value)) :
  StronglySorted handler_before hs → sortHandlersByPriority hs = hs.
Proof.
  keep_stated.
  intros Hsorted.
  assert (Hswap : ∀ j, swap_if_less j hs = hs).
  { intros j. unfold swap_if_less.
    destruct (hs !! j) as [hj|] eqn:Hj; [|done].
    destruct (hs !! S j) as [hj1|] eqn:Hj1; [|done].
    assert (Hb : handler_before hj hj1)
      by (eapply StronglySorted_lookup_lt; [done..|lia]).
    unfold handler_before, handler_priority in Hb. cbn zeta.
    destruct (Z.ltb_spec (int_of (hj !! "priority")) (int_of (hj1 !! "priority")));
      [lia|done]. }
  assert (Hinner : ∀ count j, inner_loop count j hs = hs).
  { induction count as [|count IH]; intros j; cbn; [done|]. by rewrite Hswap. }
  assert (Houter : ∀ n count i, outer_loop n count i hs = hs).
  { intros n. induction count as [|count IH]; intros i; cbn; [done|].
    by rewrite Hinner. }
  apply Houter.
Qed.

Lemma LoadHandlers_sorted (db : Database) (em0 em : EventMatcher) :
  LoadHandlers db em0 = Some em →
  StronglySorted handler_before (handlers em) ∧ Forall has_id (handlers em).
Proof.
  keep_stated.
  unfold LoadHandlers. intros Hload.
  destruct (ListHandlers true db) as [listed|] eqn:Hlist; [|done]. cbn in Hload.
  apply ListHandlers_sorted in Hlist as [Hsorted Hrows].
  destruct (load_loop_sorted db listed [] Hsorted Hrows) as (full & Hfull & Hs & Hids & _).
  rewrite Hfull in Hload. cbn in Hload. by injection Hload as <-.
Qed.

(** C4.  On every snapshot that [LoadHandlers] produces, [MatchEvent]
    returns, and its list is in the order of the specification: priority
    descending, equal priorities by [handler_id] ascending.  The answer is
    a function of the snapshot, the limiter state, the event and the
    clock.  Four matching handlers of priorities 5, 1, 5, 3 come out as
    5, 5, 3, 1, the two of priority 5 by their ids; the sort alone puts
    the unsorted list of the four in that order too. *)
Theorem MatchEvent_priority_order :
  (∀ db em0 em event now,
     LoadHandlers db em0 = Some em →
     ∃ result em',
       MatchEvent event now em = Some (result, em') ∧
       StronglySorted handler_before result) ∧
  (∀ now,
     match LoadHandlers priority_store NewEventMatcher with
     | Some em =>
         match MatchEvent message_event now em with
         | Some (result, _) => Some (List.map priority_key result)
         | None => None
         end
     | None => None
     end = Some expected_order) ∧
  List.map priority_key (sortHandlersByPriority unsorted_handlers) = expected_order.
Proof.
  keep_stated.
  split; [|split].
  - intros db em0 em event now Hload.
    apply LoadHandlers_sorted in Hload as [Hsorted Hids].
    destruct (match_loop_sublist (handlers em) event now em [] Hids)
      as (kept & em' & Hloop & Hsub).
    assert (Hkept : StronglySorted handler_before kept)
      by by eapply StronglySorted_sublist.
    exists (sortHandlersByPriority kept), em'. split.
    + unfold MatchEvent. by rewrite Hloop.
    + by rewrite sortHandlersByPriority_sorted_id.
  - intros now. vm_compute. reflexivity.
  - vm_compute. reflexivity.
Qed.

(** ** Circuit breaker and the store *)

(** Every row [SaveHandler] writes carries the column defaults: the
    breaker state 'closed' and fresh statistics. *)
Lemma SaveHandler_row (handler : gmap string value) (now : Z) (db db' : Database) :
  SaveHandler handler now db = Some db' →
  ∃ handlerID row,
    handler !! "handler_id" = Some (VStr handlerID) ∧
    event_handlers db' = <[handlerID := row]> (event_handlers db) ∧
    handler_executions db' = handler_executions db ∧
    circuit_breaker_state row = Some "closed"%string ∧
    execution_count row = 0 ∧ total_errors row = 0 ∧
    last_executed row = None ∧ last_error row = None ∧ last_error_time row = None ∧
    created_at row = Unix now * Second ∧ updated_at row = now ∧
    enabled row = match as_bool (handler !! "enabled") with Some false => 0 | _ => 1 end ∧
    (∀ a, bind (handler !! "priority") = Some a → priority row = integer_column a) ∧
    (∀ a, bind (handler !! "timeout_seconds") = Some a →
          timeout_seconds row = integer_column a).
Proof.
  keep_stated.
  unfold SaveHandler. intros Hsave.
  destruct (handler !! "handler_id") as [[| | | | |handlerID| |]|]; try done.
  cbn in Hsave.
  repeat match type of Hsave with
         | context [bind ?v] => destruct (bind v); [cbn in Hsave | done]
         end.
  injection Hsave as <-. eexists handlerID, _. cbn.
  repeat split; try reflexivity; by intros a [= <-].
Qed.

Lemma bind_is_Some (v : option value) :
  is_Some (bind v) ↔ ∀ x, v = Some x → bindable x.
Proof.
  keep_stated.
  destruct v as [[]|]; cbn; split; try done; try (intros _ x [= <-]; done);
    try (intros H; by destruct (H _ eq_refl)); by intros [].
Qed.

(** [SaveHandler] fails exactly when the id is not a string or one of the
    raw arguments is a list or a map. *)
Lemma SaveHandler_is_Some (handler : gmap string value) (now : Z) (db : Database) :
  is_Some (SaveHandler handler now db) ↔
  is_Some (as_string (handler !! "handler_id")) ∧
  ∀ k x, k ∈ raw_columns → handler !! k = Some x → bindable x.
Proof.
  keep_stated.
  unfold SaveHandler, raw_columns.
  destruct (as_string (handler !! "handler_id")) as [handlerID|]; cbn;
    [|split; [by intros [] | by intros [[] _]]].
  split.
  - intros Hsome. split; [done|]. intros k x Hk Hx.
    repeat match type of Hsome with
           | context [bind ?v] =>
               let E := fresh "E" in destruct (bind v) eqn:E; [cbn in Hsome | by destruct Hsome]
           end.
    rewrite !elem_of_cons in Hk.
    destruct Hk as [->|[->|[->|[->|[->|[->|[->|Hk]]]]]]]; [..|by apply elem_of_nil in Hk];
      match goal with
      | E : bind (handler !! ?k) = Some _ |- _ =>
          match type of Hx with handler !! k = _ =>
            apply (proj1 (bind_is_Some (handler !! k))); [by rewrite E | done]
          end
      end.
  - intros [_ Hall].
    assert (Hb : ∀ k, k ∈ raw_columns → is_Some (bind (handler !! k))).
    { intros k Hk. apply bind_is_Some. intros x Hx. by apply (Hall k). }
    unfold raw_columns in Hb.
    repeat match goal with
           | |- context [bind (handler !! ?k)] =>
               destruct (Hb k) as [? ->]; [set_solver|cbn]
           end.
    done.
Qed.

Ltac not_raw_column :=
  let H := fresh in
  intros H; unfold raw_columns in H;
  repeat (apply elem_of_cons in H as [H|H]; [discriminate H|]);
  by apply elem_of_nil in H.

Lemma map_Forall_set_if (P : string → value → Prop) (k : string) (o : option value)
    (m : gmap string value) :
  (∀ v, o = Some v → P k v) → map_Forall P m → map_Forall P (set_if k o m).
Proof.
  keep_stated.
  intros Ho Hm. destruct o as [v|]; cbn; [|done].
  apply map_Forall_insert_2; [by apply Ho | done].
Qed.

(** Apart from the filter and the action, everything [GetHandler] returns
    is a value the driver accepts. *)
Lemma GetHandler_bindable (handlerID : string) (db : Database) (h : gmap string value) :
  GetHandler handlerID db = Some h →
  ∀ k x, k ∈ raw_columns → h !! k = Some x → bindable x.
Proof.
  keep_stated.
  unfold GetHandler. intros Hget.
  destruct (event_handlers db !! handlerID) as [row|]; [|done]. cbn in Hget.
  repeat match type of Hget with
         | context [scan_int ?c ≫= _] => destruct (scan_int c); [cbn in Hget | done]
         | context [scan_null_int ?c ≫= _] =>
             destruct (scan_null_int c); [cbn in Hget | done]
         end.
  injection Hget as <-.
  set (P := λ (k : string) (x : value), k ∈ raw_columns → bindable x).
  intros k x Hk Hx. revert k x Hx Hk.
  match goal with
  | |- ∀ k x, ?m !! k = Some x → _ => change (map_Forall P m)
  end.
  assert (Hraw : ∀ k (x : value), k ∉ raw_columns → P k x) by (intros k x Hk Hin; done).
  assert (Hok : ∀ k (x : value), bindable x → P k x) by (intros k x Hx _; done).
  repeat first
    [ apply map_Forall_set_if;
      [intros ? Hv; apply Hok;
       repeat match type of Hv with
              | _ <$> ?o = Some _ => destruct o; cbn in Hv; [|discriminate Hv]
              end; by injection Hv as <- |]
    | apply map_Forall_insert_2; [first [by apply Hok | apply Hraw; not_raw_column]|]
    | match goal with
      | |- context [if ?b then _ else _] => destruct b
      end
    | apply map_Forall_empty ].
Qed.

Lemma GetHandler_breaker (handlerID : string) (db : Database) (h : gmap string value) :
  GetHandler handlerID db = Some h →
  ∃ row,
    event_handlers db !! handlerID = Some row ∧
    h !! "total_errors" = Some (VInt (total_errors row)) ∧
    (circuit_breaker_enabled row = 1 →
     h !! "circuit_breaker_enabled" = Some (VBool true) ∧
     h !! "circuit_breaker_threshold" = Some (VInt64 (circuit_breaker_threshold row))).
Proof.
  keep_stated.
  unfold GetHandler. intros Hget.
  destruct (event_handlers db !! handlerID) as [row|]; [|done]. cbn in Hget.
  repeat match type of Hget with
         | context [scan_int ?c ≫= _] => destruct (scan_int c); [cbn in Hget | done]
         | context [scan_null_int ?c ≫= _] =>
             destruct (scan_null_int c); [cbn in Hget | done]
         end.
  injection Hget as <-. exists row. split; [done|]. split.
  - destruct (circuit_breaker_enabled row =? 1); skip_keys; by rewrite lookup_insert_eq.
  - intros Hen. rewrite Hen. cbn. split; skip_keys; by rewrite lookup_insert_eq.
Qed.

(** C2 on the code.  When [UpdateCircuitBreaker] writes (after a success,
    or after a failure with the error count at the threshold), the row it
    leaves is a fresh one: the state is 'closed' whatever was meant, and
    the execution count, the error count, the last error and its time
    are back at the column defaults, and [created_at] is the time of the
    call. *)
Theorem UpdateCircuitBreaker_resets_row (handlerID : string) (success : bool) (now : Z)
    (db : Database) (h : gmap string value) (row : Row) :
  GetHandler handlerID db = Some h →
  event_handlers db !! handlerID = Some row →
  circuit_breaker_enabled row = 1 →
  success = true ∨ circuit_breaker_threshold row ≤ total_errors row →
  ∃ db' row',
    UpdateCircuitBreaker handlerID success now db = Some db' ∧
    event_handlers db' !! handlerID = Some row' ∧
    circuit_breaker_state row' = Some "closed"%string ∧
    execution_count row' = 0 ∧ total_errors row' = 0 ∧
    last_error row' = None ∧ last_error_time row' = None ∧
    created_at row' = Unix now * Second.
Proof.
  keep_stated.
  intros Hget Hrow Hen Hwrite.
  pose proof (GetHandler_bindable _ _ _ Hget) as Hbind.
  pose proof (GetHandler_keys _ _ _ Hget) as (row1 & p & Hrow1 & _ & Hid & _).
  pose proof (GetHandler_breaker _ _ _ Hget) as (row2 & Hrow2 & Herrors & Hcb).
  assert (row2 = row) as -> by congruence.
  destruct (Hcb Hen) as [Hcben Hthr].
  unfold UpdateCircuitBreaker. rewrite Hget. cbn [mbind option_bind].
  rewrite Hcben. cbn [as_bool].
  assert (Hsave : ∀ state, ∃ db',
            SaveHandler (<["circuit_breaker_state" := VStr state]> h) now db = Some db').
  { intros state. apply SaveHandler_is_Some. split.
    - rewrite lookup_insert_ne by done. by rewrite Hid.
    - intros k x Hk. unfold raw_columns in Hk.
      rewrite lookup_insert_ne by (intros <-; set_solver).
      by apply Hbind. }
  assert (Hfresh : ∀ state db',
            SaveHandler (<["circuit_breaker_state" := VStr state]> h) now db = Some db' →
            ∃ row', event_handlers db' !! handlerID = Some row' ∧
                    circuit_breaker_state row' = Some "closed"%string ∧
                    execution_count row' = 0 ∧ total_errors row' = 0 ∧
                    last_error row' = None ∧ last_error_time row' = None ∧
                    created_at row' = Unix now * Second).
  { intros state db' Hs.
    apply SaveHandler_row in Hs
      as (id & row' & Hid' & Hdb' & _ & ? & ? & ? & _ & ? & ? & ? & _).
    rewrite lookup_insert_ne in Hid' by done.
    assert (id = handlerID) as -> by congruence.
    exists row'. rewrite Hdb', lookup_insert_eq. done. }
  destruct success.
  - destruct (Hsave "closed"%string) as [db' Hdb']. exists db'.
    destruct (Hfresh _ _ Hdb') as (row' & ?). exists row'. by rewrite Hdb'.
  - destruct Hwrite as [|Hwrite]; [done|].
    rewrite Herrors, Hthr. cbn [int_of as_int as_int64 default from_option id].
    rewrite (proj2 (Z.leb_le _ _) Hwrite).
    destruct (Hsave "open"%string) as [db' Hdb']. exists db'.
    destruct (Hfresh _ _ Hdb') as (row' & ?). exists row'. by rewrite Hdb'.
Qed.

(** A failed execution below the threshold: the breaker writes nothing,
    the statistics count the error, the state stays as it was. *)
Lemma fail_execution_below_threshold (handlerID : string) (event : gmap string value)
    (startTime : Z) (errorMsg : string) (w : World) (row : Row) :
  event_handlers (database w) !! handlerID = Some row →
  circuit_breaker_enabled row = 1 →
  total_errors row < circuit_breaker_threshold row →
  ∃ row',
    event_handlers (database (fail_execution handlerID event startTime errorMsg w))
      !! handlerID = Some row' ∧
    total_errors row' = total_errors row + 1 ∧
    circuit_breaker_enabled row' = circuit_breaker_enabled row ∧
    circuit_breaker_threshold row' = circuit_breaker_threshold row ∧
    circuit_breaker_state row' = circuit_breaker_state row.
Proof.
  keep_stated.
  intros Hrow Hen Hbelow. unfold fail_execution.
  set (w1 := logExecutionError handlerID event startTime errorMsg w).
  assert (Hrow1 : event_handlers (database w1) !! handlerID = Some row) by done.
  assert (Hsame :
    default (database w1) (UpdateCircuitBreaker handlerID false (clock w1) (database w1))
    = database w1).
  { unfold UpdateCircuitBreaker.
    destruct (GetHandler handlerID (database w1)) as [h|] eqn:Hget; [|done].
    cbn [mbind option_bind].
    apply GetHandler_breaker in Hget as (row2 & Hrow2 & Herrors & Hcb).
    assert (row2 = row) as -> by congruence.
    destruct (Hcb Hen) as [-> ->]. rewrite Herrors. cbn.
    by rewrite (proj2 (Z.leb_gt _ _) Hbelow). }
  rewrite Hsame. cbn [database with_database UpdateHandlerStats event_handlers].
  rewrite lookup_alter_eq, Hrow1. cbn. eexists. split; [done|]. done.
Qed.

(** C1 on the code.  A handler with the breaker enabled, threshold 2, no
    error on record and state 'closed': after two failed executions the
    store counts two errors, at the threshold, and the state is still
    'closed'. *)
Theorem two_failures_leave_breaker_closed (handlerID : string)
    (event1 event2 : gmap string value) (start1 start2 : Z) (err1 err2 : string)
    (w : World) (row : Row) :
  event_handlers (database w) !! handlerID = Some row →
  circuit_breaker_enabled row = 1 →
  circuit_breaker_threshold row = 2 →
  total_errors row = 0 →
  circuit_breaker_state row = Some "closed"%string →
  let w2 :=
    fail_execution handlerID event2 start2 err2
      (fail_execution handlerID event1 start1 err1 w) in
  ∃ row2,
    event_handlers (database w2) !! handlerID = Some row2 ∧
    total_errors row2 = 2 ∧ circuit_breaker_threshold row2 = 2 ∧
    circuit_breaker_state row2 = Some "closed"%string.
Proof.
  keep_stated.
  intros Hrow Hen Hthr Herr Hstate w2.
  destruct (fail_execution_below_threshold handlerID event1 start1 err1 w row)
    as (row1 & Hrow1 & Herr1 & Hen1 & Hthr1 & Hstate1); [done | done | lia |].
  destruct (fail_execution_below_threshold handlerID event2 start2 err2 _ row1 Hrow1)
    as (row2 & Hrow2 & Herr2 & Hen2 & Hthr2 & Hstate2); [congruence | lia |].
  exists row2. split; [done|]. repeat split; congruence || lia.
Qed.

(** No outcome of an execution ever stores the state 'open': the
    statistics keep the state, and every row the breaker writes is
    'closed'. *)
Lemma breaker_never_opens (handlerID id : string) (success : bool) (now : Z)
    (db : Database) (row' : Row) :
  (∀ row, event_handlers db !! id = Some row →
          circuit_breaker_state row ≠ Some "open"%string) →
  event_handlers (default db (UpdateCircuitBreaker handlerID success now db)) !! id
  = Some row' →
  circuit_breaker_state row' ≠ Some "open"%string.
Proof.
  keep_stated.
  intros Hclosed. unfold UpdateCircuitBreaker.
  destruct (GetHandler handlerID db) as [h|]; cbn [mbind option_bind default];
    [|by apply Hclosed].
  assert (Hsave : ∀ state,
    event_handlers
      (default db (SaveHandler (<["circuit_breaker_state" := VStr state]> h) now db)) !! id
    = Some row' → circuit_breaker_state row' ≠ Some "open"%string).
  { intros state.
    destruct (SaveHandler _ now db) as [db'|] eqn:Hs; cbn; [|by apply Hclosed].
    apply SaveHandler_row in Hs as (id' & r & _ & -> & _ & Hr & _).
    rewrite lookup_insert. case_decide; [|by apply Hclosed].
    intros [= <-]. by rewrite Hr. }
  destruct (as_bool (h !! "circuit_breaker_enabled")) as [[]|]; [|by apply Hclosed..].
  destruct success; [by apply Hsave|].
  destruct (_ <=? _); [by apply Hsave | by apply Hclosed].
Qed.

(** ** Registration *)

Lemma lookup_set_default (k k' : string) (v : value) (data : gmap string value) :
  set_default k v data !! k'
  = match data !! k' with
    | Some x => Some x
    | None => if decide (k = k') then Some v else None
    end.
Proof.
  keep_stated.
  unfold set_default. destruct (data !! k) as [x|] eqn:Hk.
  - destruct (data !! k') eqn:Hk'; [done|]. case_decide; [congruence|done].
  - rewrite lookup_insert. case_decide; subst; [by rewrite Hk|].
    by destruct (data !! k').
Qed.

(** The request with its defaults filled in. *)
Lemma defaults_bindable (d : gmap string value) :
  let d' := set_default "timeout_seconds" (VInt 30)
              (set_default "priority" (VInt 0) (set_default "enabled" (VBool true) d)) in
  (∀ k x, k ∈ raw_columns → d' !! k = Some x → bindable x) ↔
  (∀ k x, k ∈ raw_columns → d !! k = Some x → bindable x).
Proof.
  keep_stated.
  cbn zeta. split; intros H k x Hk Hx.
  - apply (H k x Hk). rewrite !lookup_set_default. by rewrite Hx.
  - rewrite !lookup_set_default in Hx.
    destruct (d !! k) as [y|] eqn:Hy; [injection Hx as <-; by apply (H k)|].
    repeat case_decide; simplify_eq; done.
Qed.

(** C9, amended.  A registration fails exactly when the request is
    invalid or the store refuses the write; a failed registration leaves
    the store as it was; a registration that succeeds leaves a row under
    the request's id in which a missing [enabled] reads 1 (true), a
    missing [priority] reads 0 and a missing [timeout_seconds] reads
    30. *)
Theorem handleRegisterHandler_spec (data : option (gmap string value)) (now : Z)
    (db : Database) :
  let result := (handleRegisterHandler data now db).1 in
  let db' := (handleRegisterHandler data now db).2 in
  (Success result = false ↔ invalid_request data ∨ store_refuses data) ∧
  (Success result = false → db' = db) ∧
  (Success result = true →
   ∃ d handlerID row,
     data = Some d ∧ d !! "handler_id" = Some (VStr handlerID) ∧
     event_handlers db' !! handlerID = Some row ∧
     (d !! "enabled" = None → enabled row = 1) ∧
     (d !! "priority" = None → priority row = IInt 0) ∧
     (d !! "timeout_seconds" = None → timeout_seconds row = IInt 30)).
Proof.
  keep_stated.
  cbn zeta. unfold handleRegisterHandler, invalid_request, store_refuses.
  destruct data as [d|]; [|cbn; split; [split; [auto | done] | split; done]].
  destruct (d !! "handler_id") as [[| | | | |handlerID| |]|] eqn:Hid; cbn [as_string];
    try (cbn; split; [split; [intros _; left; left; by intros ? [=] | done]
                     | split; done]).
  destruct (String.eqb handlerID "") eqn:Hempty.
  { apply String.eqb_eq in Hempty as ->. cbn.
    split; [split; [intros _; left; left; by intros ? [= <-] | done] | split; done]. }
  apply String.eqb_neq in Hempty.
  destruct (d !! "event_filter") as [filter|] eqn:Hfilter; cbn [negb bool_decide];
    [rewrite bool_decide_eq_true_2 by done
    |rewrite bool_decide_eq_false_2 by (by intros []); cbn;
     split; [split; [intros _; left; right; by left | done] | split; done]].
  cbn [negb].
  destruct (d !! "action") as [act|] eqn:Haction;
    [rewrite bool_decide_eq_true_2 by done
    |rewrite bool_decide_eq_false_2 by (by intros []); cbn;
     split; [split; [intros _; left; right; by right | done] | split; done]].
  cbn [negb].
  set (d' := set_default "timeout_seconds" (VInt 30)
               (set_default "priority" (VInt 0) (set_default "enabled" (VBool true) d))).
  assert (Hid' : d' !! "handler_id" = Some (VStr handlerID))
    by (unfold d'; rewrite !lookup_set_default; by rewrite Hid).
  pose proof (SaveHandler_is_Some d' now db) as Hsome.
  pose proof (defaults_bindable d) as Hdef. cbn zeta in Hdef. fold d' in Hdef.
  destruct (SaveHandler d' now db) as [db'|] eqn:Hsave; cbn.
  - split; [split; [done|]|split; [done|]].
    + intros [[Hbad|[?|?]]|(d0 & k & x & [= <-] & Hk & Hx & Hnb)]; try congruence.
      * specialize (Hbad handlerID eq_refl). done.
      * destruct Hsome as [[_ Hall] _]; [done|].
        destruct Hnb. apply (proj1 Hdef Hall k x Hk Hx).
    + intros _. exists d, handlerID.
      apply SaveHandler_row in Hsave
        as (id & row & Hrid & Hdb' & _ & _ & _ & _ & _ & _ & _ & _ & _ & Hen & Hprio & Htime).
      assert (id = handlerID) as -> by congruence.
      exists row. rewrite Hdb', lookup_insert_eq. repeat split; try done.
      * intros Habsent. rewrite Hen. unfold d'. rewrite !lookup_set_default, Habsent.
        done.
      * intros Habsent. rewrite (Hprio (SqlInt 0)); [done|].
        unfold d'. rewrite !lookup_set_default, Habsent. done.
      * intros Habsent. rewrite (Htime (SqlInt 30)); [done|].
        unfold d'. rewrite !lookup_set_default, Habsent. done.
  - split; [split; [intros _|done]|split; done].
    right. exists d.
    assert (Hnot : ¬ ∀ k x, k ∈ raw_columns → d !! k = Some x → bindable x).
    { intros Hall. destruct Hsome as [_ Hs]. destruct Hs as [? ?]; [|done].
      split; [by rewrite Hid'|]. by apply Hdef. }
    clear -Hnot.
    assert (Hdec : ∀ ks : list string,
      (∀ k x, k ∈ ks → d !! k = Some x → bindable x)
      ∨ ∃ k x, k ∈ ks ∧ d !! k = Some x ∧ ¬ bindable x).
    { induction ks as [|k ks IH]; [left; by intros ? ? ?%elem_of_nil|].
      destruct IH as [IH|(k' & x & ? & ? & ?)];
        [|right; exists k', x; split; [by right|done]].
      destruct (d !! k) as [x|] eqn:Hx.
      - destruct x; try (left; intros k' x' [->|?]%elem_of_cons Hx';
                         [by simplify_eq | by eapply IH]);
          right; eexists k, _; (split; [by left | split; [done | by intros []]]).
      - left. intros k' x' [->|?]%elem_of_cons Hx'; [congruence | by eapply IH]. }
    destruct (Hdec raw_columns) as [?|(k & x & ? & ? & ?)]; [done|].
    by exists k, x.
Qed.

(** * Further properties of the engine, the store and the operations *)

(** ** The bubble sort on any list *)

Lemma snoc_cons {A} (pre : list A) (x : A) (t : list A) :
  pre ++ x :: t = (pre ++ [x]) ++ t.
Proof. keep_stated. by rewrite <- app_assoc. Qed.

Lemma swap_if_less_middle (pre : list (gmap string value)) (x y : gmap string value)
    (t : list (gmap string value)) :
  swap_if_less (length pre) (pre ++ x :: y :: t)
  = if handler_priority x <? handler_priority y
    then pre ++ y :: x :: t else pre ++ x :: y :: t.
Proof.
  keep_stated. unfold swap_if_less.
  rewrite list_lookup_middle by done.
  replace (S (length pre)) with (length (pre ++ [x])) by (rewrite length_app; cbn; lia).
  rewrite (snoc_cons pre x (y :: t)).
  rewrite list_lookup_middle by done. cbn zeta.
  fold (handler_priority x). fold (handler_priority y).
  destruct (handler_priority x <? handler_priority y); [|done].
  replace (length (pre ++ [x])) with (length (pre ++ [x]) + 0)%nat at 1 by lia.
  rewrite insert_app_r. cbn.
  rewrite <- (snoc_cons pre x (x :: t)).
  replace (length pre) with (length pre + 0)%nat by lia.
  by rewrite insert_app_r.
Qed.

Lemma inner_loop_short (count j : nat) (hs : list (gmap string value)) :
  (length hs ≤ S j)%nat → inner_loop count j hs = hs.
Proof.
  keep_stated. revert j. induction count as [|count IH]; intros j Hj; [done|].
  cbn. unfold swap_if_less. rewrite (lookup_ge_None_2 hs (S j)) by lia.
  destruct (hs !! j); apply IH; lia.
Qed.

(** A pass of the inner loop that starts behind [pre] carries the next
    element through the rest. *)
Lemma inner_loop_carry (count : nat) (pre : list (gmap string value))
    (x : gmap string value) (t : list (gmap string value)) :
  inner_loop count (length pre) (pre ++ x :: t) = pre ++ carry x t count.
Proof.
  keep_stated. revert pre x t. induction count as [|count IH]; intros pre x t; [by destruct t|].
  destruct t as [|y t].
  - rewrite inner_loop_short by (rewrite length_app; cbn; lia). done.
  - cbn [inner_loop carry]. rewrite swap_if_less_middle.
    destruct (handler_priority x <? handler_priority y).
    + replace (S (length pre)) with (length (pre ++ [y])) by (rewrite length_app; cbn; lia).
      rewrite (snoc_cons pre y (x :: t)), IH. by rewrite <- app_assoc.
    + replace (S (length pre)) with (length (pre ++ [x])) by (rewrite length_app; cbn; lia).
      rewrite (snoc_cons pre x (y :: t)), IH. by rewrite <- app_assoc.
Qed.

Lemma carry_Permutation (x : gmap string value) (t : list (gmap string value)) (c : nat) :
  carry x t c ≡ₚ x :: t.
Proof.
  keep_stated. revert x t. induction c as [|c IH]; intros x t; [by destruct t|].
  destruct t as [|y t]; [done|]. cbn.
  destruct (handler_priority x <? handler_priority y).
  - rewrite IH. apply Permutation_swap.
  - by rewrite IH.
Qed.

(** A pass never changes the order among handlers of one priority. *)
Lemma carry_stable (p : Z) (x : gmap string value) (t : list (gmap string value))
    (c : nat) :
  filter (λ h, handler_priority h = p) (carry x t c)
  = filter (λ h, handler_priority h = p) (x :: t).
Proof.
  keep_stated. revert x t. induction c as [|c IH]; intros x t; [by destruct t|].
  destruct t as [|y t]; [done|]. cbn [carry].
  destruct (Z.ltb_spec (handler_priority x) (handler_priority y)) as [Hlt|Hge].
  - rewrite (filter_cons _ y), IH, !filter_cons.
    repeat case_decide; try done; lia.
  - by rewrite (filter_cons _ x), IH, !filter_cons.
Qed.

(** After [c] comparisons the element at position [c] has the smallest
    priority of the first [c + 1], and the rest is untouched. *)
Lemma carry_window (c : nat) (x : gmap string value) (t : list (gmap string value)) :
  (c ≤ length t)%nat →
  ∃ front m,
    carry x t c = front ++ m :: drop c t ∧
    front ++ [m] ≡ₚ x :: take c t ∧
    Forall (λ z, priority_ge z m) (x :: take c t).
Proof.
  keep_stated. unfold priority_ge.
  revert x t. induction c as [|c IH]; intros x t Hc.
  - exists [], x. rewrite take_0, drop_0. split; [by destruct t|]. split; [done|].
    by repeat constructor.
  - destruct t as [|y t]; [cbn in Hc; lia|]. cbn in Hc. cbn [carry take drop].
    destruct (Z.ltb_spec (handler_priority x) (handler_priority y)) as [Hlt|Hge].
    + destruct (IH x t) as (front & m & -> & Hperm & Hmin); [lia|].
      exists (y :: front), m. split; [done|]. split.
      * cbn. rewrite Hperm. apply Permutation_swap.
      * apply Forall_cons in Hmin as [Hx Hrest].
        repeat constructor; [done | lia | done].
    + destruct (IH y t) as (front & m & -> & Hperm & Hmin); [lia|].
      exists (x :: front), m. split; [done|]. split.
      * cbn. by rewrite Hperm.
      * pose proof Hmin as [Hy Hrest]%Forall_cons.
        constructor; [lia | done].
Qed.

Lemma outer_loop_Permutation (n count i : nat) (hs : list (gmap string value)) :
  outer_loop n count i hs ≡ₚ hs
  ∧ ∀ p, filter (λ h, handler_priority h = p) (outer_loop n count i hs)
         = filter (λ h, handler_priority h = p) hs.
Proof.
  keep_stated. revert i hs. induction count as [|count IH]; intros i hs; [done|].
  cbn [outer_loop]. destruct (IH (S i) (inner_loop (n - i - 1) 0 hs)) as [Hperm Hstable].
  destruct hs as [|x t].
  - rewrite inner_loop_short in Hperm, Hstable |- * by (cbn; lia). done.
  - pose proof (inner_loop_carry (n - i - 1) [] x t) as Hpass. cbn in Hpass.
    rewrite Hpass in Hperm, Hstable |- *. split.
    + by rewrite Hperm, carry_Permutation.
    + intros p. by rewrite Hstable, carry_stable.
Qed.

(** The invariant of the outer loop: behind the first [S count]
    elements, the list is in order and below them. *)
Lemma outer_loop_sorted (count : nat) (front back : list (gmap string value)) :
  length front = S count →
  StronglySorted priority_ge back →
  (∀ a b, a ∈ front → b ∈ back → priority_ge a b) →
  StronglySorted priority_ge
    (outer_loop (length (front ++ back)) count (length back) (front ++ back)).
Proof.
  keep_stated. revert front back. induction count as [|count IH];
    intros front back Hlen Hback Hover.
  - cbn. destruct front as [|a [|]]; try done. cbn.
    constructor; [done|]. apply Forall_forall. intros b Hb. apply Hover; [by left|done].
  - cbn [outer_loop]. destruct front as [|x front]; [done|].
    cbn in Hlen. injection Hlen as Hlen.
    replace (length ((x :: front) ++ back) - length back - 1)%nat with (S count)
      by (cbn; rewrite length_app; lia).
    pose proof (inner_loop_carry (S count) [] x (front ++ back)) as Hpass.
    cbn [length app] in Hpass. rewrite <- (app_comm_cons front back x), Hpass.
    destruct (carry_window (S count) x (front ++ back)) as (keep & m & Hcarry & Hperm & Hmin);
      [rewrite length_app; lia|].
    rewrite take_app_length' in Hperm, Hmin by done.
    rewrite drop_app_length' in Hcarry by done.
    rewrite Hcarry.
    assert (Hkeep : length keep = S count).
    { apply Permutation_length in Hperm. rewrite length_app in Hperm. cbn in Hperm. lia. }
    assert (Hm : m ∈ x :: front) by (rewrite <- Hperm; set_solver).
    assert (Hin : ∀ a, a ∈ keep → a ∈ x :: front)
      by (intros a Ha; rewrite <- Hperm; set_solver).
    replace (length (x :: front ++ back)) with (length (keep ++ m :: back))
      by (cbn; rewrite !length_app; cbn; lia).
    replace (S (length back)) with (length (m :: back)) by done.
    apply IH; [done | |].
    + constructor; [done|]. apply Forall_forall. intros b Hb. by apply Hover.
    + intros a b Ha [->|Hb]%elem_of_cons.
      * rewrite Forall_forall in Hmin. by apply Hmin, Hin.
      * apply Hover; [by apply Hin | done].
Qed.

Lemma sortHandlersByPriority_elem_of (hs : list (gmap string value))
    (h : gmap string value) :
  h ∈ sortHandlersByPriority hs ↔ h ∈ hs.
Proof.
  keep_stated. unfold sortHandlersByPriority.
  destruct (outer_loop_Permutation (length hs) (length hs - 1) 0 hs) as [Hperm _].
  by rewrite Hperm.
Qed.

(** X1.  [sortHandlersByPriority] sorts any list: the result is a
    permutation of the input, in descending order of priority, and
    handlers of equal priority keep the order they came in. *)
Theorem sortHandlersByPriority_stable_sort (hs : list (gmap string value)) :
  sortHandlersByPriority hs ≡ₚ hs ∧
  StronglySorted priority_ge (sortHandlersByPriority hs) ∧
  ∀ p, filter (λ h, handler_priority h = p) (sortHandlersByPriority hs)
       = filter (λ h, handler_priority h = p) hs.
Proof.
  keep_stated. unfold sortHandlersByPriority. cbn zeta.
  destruct (outer_loop_Permutation (length hs) (length hs - 1) 0 hs) as [Hperm Hstable].
  split; [done|]. split; [|done].
  destruct hs as [|x t]; [constructor|].
  replace (length (x :: t) - 1)%nat with (length t) by (cbn; lia).
  pose proof (outer_loop_sorted (length t) (x :: t) []) as Hsorted.
  rewrite app_nil_r in Hsorted. apply Hsorted; [done | constructor |].
  by intros a b _ ?%elem_of_nil.
Qed.

(** ** What [MatchEvent] returns *)

Lemma as_bool_Some (v : option value) (b : bool) :
  as_bool v = Some b → v = Some (VBool b).
Proof. keep_stated. destruct v as [[]|]; cbn; congruence. Qed.

Lemma as_string_Some (v : option value) (s : string) :
  as_string v = Some s → v = Some (VStr s).
Proof. keep_stated. destruct v as [[]|]; cbn; congruence. Qed.

Lemma checkRateLimits_handlers (handler event : gmap string value) (now : Z)
    (em em1 : EventMatcher) (allowed : bool) :
  checkRateLimits handler event now em = Some (allowed, em1) →
  handlers em1 = handlers em.
Proof.
  keep_stated. intros Hcheck.
  destruct (as_string (handler !! "handler_id")) as [handlerID|] eqn:Hid.
  - apply as_string_Some in Hid.
    rewrite (checkRateLimits_eq handler event now em handlerID Hid) in Hcheck.
    by injection Hcheck as _ <-.
  - unfold checkRateLimits in Hcheck. by rewrite Hid in Hcheck.
Qed.

Lemma match_loop_kept (snapshot : list (gmap string value)) (event : gmap string value)
    (now : Z) (em : EventMatcher) (acc matches : list (gmap string value))
    (em' : EventMatcher) :
  match_loop snapshot event now em acc = Some (matches, em') →
  handlers em' = handlers em ∧
  ∃ kept, matches = acc ++ kept ∧
    Forall (λ h, h ∈ snapshot ∧ h !! "enabled" = Some (VBool true) ∧
                 isCircuitBreakerOpen h now = false ∧
                 matchesFilter h event = true) kept.
Proof.
  keep_stated. revert em acc. induction snapshot as [|handler rest IH]; intros em acc Hloop.
  - injection Hloop as <- <-. split; [done|]. exists []. by rewrite app_nil_r.
  - cbn [match_loop] in Hloop.
    assert (Hskip : ∀ em1, handlers em1 = handlers em →
              match_loop rest event now em1 acc = Some (matches, em') →
              handlers em' = handlers em ∧
              ∃ kept, matches = acc ++ kept ∧
                Forall (λ h, h ∈ handler :: rest ∧ h !! "enabled" = Some (VBool true) ∧
                             isCircuitBreakerOpen h now = false ∧
                             matchesFilter h event = true) kept).
    { intros em1 Hsame Hrest. destruct (IH _ _ Hrest) as (Hh & kept & -> & Hkept).
      split; [congruence|]. exists kept. split; [done|].
      eapply Forall_impl; [exact Hkept|]. intros h (? & ?). split; [by right | done]. }
    destruct (as_bool (handler !! "enabled")) as [[]|] eqn:Hen;
      try by apply (Hskip em).
    apply as_bool_Some in Hen.
    destruct (isCircuitBreakerOpen handler now) eqn:Hopen; [by apply (Hskip em)|].
    destruct (checkRateLimits handler event now em) as [[allowed em1]|] eqn:Hcheck;
      [|done]. cbn in Hloop.
    apply checkRateLimits_handlers in Hcheck as Hem1.
    destruct allowed; cbn in Hloop; [|by apply (Hskip em1)].
    destruct (checkCooldown handler now em1) as [cooled|]; [|done]. cbn in Hloop.
    destruct cooled; cbn in Hloop; [|by apply (Hskip em1)].
    destruct (matchesFilter handler event) eqn:Hmatch; [|by apply (Hskip em1)].
    destruct (IH _ _ Hloop) as (Hh & kept & -> & Hkept).
    split; [congruence|]. exists (handler :: kept). rewrite <- app_assoc. split; [done|].
    constructor; [split; [by left | done]|].
    eapply Forall_impl; [exact Hkept|]. intros h (? & ?). split; [by right | done].
Qed.

(** X2.  Every handler [MatchEvent] returns is a handler of the snapshot
    that is enabled, whose breaker does not block at the time of the
    call, and whose filter matches the event; the snapshot itself is left
    as it was.  In particular a handler that is not enabled is never
    returned. *)
Theorem MatchEvent_sound (event : gmap string value) (now : Z) (em em' : EventMatcher)
    (result : list (gmap string value)) :
  MatchEvent event now em = Some (result, em') →
  handlers em' = handlers em ∧
  ∀ h, h ∈ result →
       h ∈ handlers em ∧ h !! "enabled" = Some (VBool true) ∧
       isCircuitBreakerOpen h now = false ∧ matchesFilter h event = true.
Proof.
  keep_stated. unfold MatchEvent. intros Hmatch.
  destruct (match_loop (handlers em) event now em []) as [[matches em1]|] eqn:Hloop;
    [|done]. cbn in Hmatch. injection Hmatch as <- <-.
  apply match_loop_kept in Hloop as (Hh & kept & -> & Hkept).
  split; [done|]. intros h Hin.
  rewrite sortHandlersByPriority_elem_of in Hin.
  rewrite Forall_forall in Hkept. apply Hkept, Hin.
Qed.

Lemma verdict_no_limits (handler event : gmap string value) (now : Z) (L : RateLimiter) :
  (∀ k, k ∈ limit_keys → as_int64 (handler !! k) = None) →
  verdict handler event now L = true.
Proof.
  keep_stated. intros Hnone. unfold verdict, sender_checked, limit_keys in *.
  rewrite !Hnone by set_solver. done.
Qed.

Lemma match_loop_keeps (snapshot : list (gmap string value)) (event : gmap string value)
    (now : Z) (em : EventMatcher) (acc : list (gmap string value))
    (h : gmap string value) :
  Forall has_id snapshot →
  h ∈ snapshot →
  h !! "enabled" = Some (VBool true) →
  isCircuitBreakerOpen h now = false →
  (∀ k, k ∈ limit_keys → as_int64 (h !! k) = None) →
  as_int64 (h !! "cooldown_seconds") = None →
  matchesFilter h event = true →
  ∃ matches em', match_loop snapshot event now em acc = Some (matches, em') ∧ h ∈ matches.
Proof.
  keep_stated. intros Hids Hin Hen Hopen Hlimits Hcool Hmatch.
  revert em acc Hin. induction snapshot as [|handler rest IH]; intros em acc Hin;
    [by apply elem_of_nil in Hin|].
  apply Forall_cons in Hids as [Hid Hids].
  apply elem_of_cons in Hin as [<-|Hin].
  - cbn [match_loop]. rewrite Hen. cbn [as_bool]. rewrite Hopen.
    destruct Hid as [handlerID Hid].
    rewrite (checkRateLimits_eq _ _ _ _ handlerID Hid). cbn.
    rewrite verdict_no_limits by done. cbn.
    unfold checkCooldown. rewrite Hcool. cbn. rewrite Hmatch.
    destruct (match_loop_sublist rest event now
                (set_limiter em handlerID (touched h event now (limiter_of em handlerID)))
                (acc ++ [h]) Hids) as (kept & em' & -> & _).
    eexists _, _. split; [done|]. set_solver.
  - destruct (match_loop_sublist [handler] event now em acc) as (kept1 & em1 & Hone & _);
      [by constructor|].
    cbn [match_loop] in Hone |- *.
    assert (Hgo : ∀ em1 acc1, ∃ matches em',
              match_loop rest event now em1 acc1 = Some (matches, em') ∧ h ∈ matches)
      by (intros; by apply IH).
    destruct (as_bool (handler !! "enabled")) as [[]|]; [|by apply Hgo..].
    destruct (isCircuitBreakerOpen handler now); [by apply Hgo|].
    destruct Hid as [handlerID Hid].
    rewrite (checkRateLimits_eq _ _ _ _ handlerID Hid). cbn.
    destruct (verdict _ _ _ _); cbn; [|by apply Hgo].
    destruct (checkCooldown_returns handler now
                (set_limiter em handlerID
                   (touched handler event now (limiter_of em handlerID)))) as [cooled ->];
      [by exists handlerID|]. cbn.
    destruct cooled; cbn; [|by apply Hgo].
    destruct (matchesFilter handler event); by apply Hgo.
Qed.

(** X3.  A handler of the snapshot that is enabled, is not blocked by
    its breaker, has no limit and no cooldown configured and whose filter
    matches the event is returned by [MatchEvent] (every handler of the
    snapshot having an id, as loaded handlers do). *)
Theorem MatchEvent_complete (event : gmap string value) (now : Z) (em : EventMatcher)
    (h : gmap string value) :
  Forall has_id (handlers em) →
  h ∈ handlers em →
  h !! "enabled" = Some (VBool true) →
  isCircuitBreakerOpen h now = false →
  (∀ k, k ∈ limit_keys → as_int64 (h !! k) = None) →
  as_int64 (h !! "cooldown_seconds") = None →
  matchesFilter h event = true →
  ∃ result em', MatchEvent event now em = Some (result, em') ∧ h ∈ result.
Proof.
  keep_stated. intros Hids Hin Hen Hopen Hlimits Hcool Hmatch.
  destruct (match_loop_keeps (handlers em) event now em [] h) as (matches & em' & Hloop & Hm);
    try done.
  exists (sortHandlersByPriority matches), em'. unfold MatchEvent. rewrite Hloop. cbn.
  split; [done|]. by apply sortHandlersByPriority_elem_of.
Qed.

(** ** The rate limiter after a recorded execution *)



Lemma drop_old_lookup (oldest b n : Z) (counts : gmap Z Z) :
  drop_old oldest counts !! b = Some n → oldest ≤ b ∧ counts !! b = Some n.
Proof.
  keep_stated. unfold drop_old. rewrite map_lookup_filter_Some. cbn. intros [? ?].
  split; [lia | done].
Qed.

(** X5.  After an execution is recorded at [now] the limiter of the
    handler holds no minute bucket below [(Unix now - 7200) / 60], no
    hour bucket below [(Unix now - 7200) / 3600], and no sender without
    a bucket. *)
Theorem RecordExecution_evicts (handlerID : string) (event : gmap string value) (now : Z)
    (em : EventMatcher) :
  let L := limiter_of (RecordExecution handlerID event now em) handlerID in
  (∀ b n, perMinuteCounts L !! b = Some n → Z.quot (Unix now - 7200) 60 ≤ b) ∧
  (∀ b n, perHourCounts L !! b = Some n → Z.quot (Unix now - 7200) 3600 ≤ b) ∧
  (∀ sender counts, perSenderCounts L !! sender = Some counts →
     counts ≠ ∅ ∧ ∀ b n, counts !! b = Some n → Z.quot (Unix now - 7200) 3600 ≤ b).
Proof.
  keep_stated. cbn zeta. unfold RecordExecution.
  rewrite limiter_of_set_limiter, decide_True by done.
  cbn [perMinuteCounts perHourCounts perSenderCounts]. split; [|split].
  - intros b n Hb. by apply drop_old_lookup in Hb as [? _].
  - intros b n Hb. by apply drop_old_lookup in Hb as [? _].
  - intros sender counts. unfold drop_old_senders. rewrite lookup_omap.
    destruct (_ !! sender) as [old|]; [|done]. cbn.
    case_decide as Hsize; [done|]. intros [= <-]. split.
    + intros Hempty. apply Hsize. by rewrite Hempty, map_size_empty.
    + intros b n Hb. by apply drop_old_lookup in Hb as [? _].
Qed.

Lemma oldest_hour_le (now : Z) : Z.quot (Unix now - 7200) 3600 ≤ hour_bucket now.
Proof.
  keep_stated. unfold hour_bucket. apply Z.quot_le_mono; lia. Qed.

Lemma count_at_drop_old_senders (oldest bucket : Z) (senders : gmap string (gmap Z Z))
    (sender : string) :
  count_at (default ∅ (drop_old_senders oldest senders !! sender)) bucket
  = if decide (bucket < oldest) then 0
    else count_at (default ∅ (senders !! sender)) bucket.
Proof.
  keep_stated. unfold drop_old_senders. rewrite lookup_omap.
  destruct (senders !! sender) as [counts|]; cbn; [|by case_decide].
  case_decide as Hsize; cbn.
  - rewrite <- (count_at_drop_old oldest bucket counts).
    apply map_size_empty_inv in Hsize. by rewrite Hsize.
  - apply count_at_drop_old.
Qed.

(** X6.  Recording an execution adds one to the hour bucket of the
    handler and, when the event names a sender, to that sender's count
    for the hour; the count of every other sender for the hour stays as
    it was, and an event without a sender changes no sender's count. *)
Theorem RecordExecution_hour_counts (handlerID : string) (event : gmap string value)
    (now : Z) (em : EventMatcher) (sender : string) :
  let em' := RecordExecution handlerID event now em in
  hour_count em' handlerID (hour_bucket now)
  = wrap64 (hour_count em handlerID (hour_bucket now) + 1) ∧
  sender_count em' handlerID sender (hour_bucket now)
  = if decide (sender = string_of (event !! "from") ∧ sender ≠ "")
    then wrap64 (sender_count em handlerID sender (hour_bucket now) + 1)
    else sender_count em handlerID sender (hour_bucket now).
Proof.
  keep_stated. cbn zeta. unfold hour_count, sender_count, RecordExecution.
  rewrite limiter_of_set_limiter, decide_True by done.
  cbn [perHourCounts perSenderCounts]. pose proof (oldest_hour_le now). split.
  - rewrite count_at_drop_old, decide_False by lia.
    unfold count_at at 1. by rewrite lookup_insert_eq.
  - rewrite count_at_drop_old_senders, decide_False by lia.
    destruct (String.eqb (string_of (event !! "from")) "") eqn:Hfrom.
    + apply String.eqb_eq in Hfrom. rewrite decide_False; [done|].
      intros [-> ?]. done.
    + apply String.eqb_neq in Hfrom. case_decide as Hs.
      * destruct Hs as [-> _]. rewrite lookup_insert_eq. cbn.
        unfold count_at at 1. by rewrite lookup_insert_eq.
      * rewrite lookup_insert_ne; [done|]. intros <-. by apply Hs.
Qed.

(** ** Reading handlers back from the store *)

Lemma lookup_set_if_eq (k : string) (o : option value) (m : gmap string value) :
  set_if k o m !! k = from_option Some (m !! k) o.
Proof. keep_stated. destruct o; cbn; [by rewrite lookup_insert_eq | done]. Qed.

Ltac read_key :=
  repeat first
    [ rewrite lookup_set_if_ne by done
    | rewrite lookup_insert_ne by done
    | rewrite lookup_set_if_eq
    | rewrite lookup_insert_eq
    | rewrite lookup_empty ].

Lemma GetHandler_is_Some (handlerID : string) (db : Database) :
  is_Some (GetHandler handlerID db) ↔
  ∃ row, event_handlers db !! handlerID = Some row ∧ row_scans row.
Proof.
  keep_stated. unfold row_scans. split.
  - intros [h Hget]. unfold GetHandler in Hget.
    destruct (event_handlers db !! handlerID) as [row|]; [|done]. cbn in Hget.
    exists row. split; [done|].
    destruct (scan_int (priority row)); [cbn in Hget | done].
    destruct (scan_null_int (max_executions_per_minute row)); [cbn in Hget | done].
    destruct (scan_null_int (max_executions_per_hour row)); [cbn in Hget | done].
    destruct (scan_null_int (max_executions_per_sender_per_hour row));
      [cbn in Hget | done].
    destruct (scan_null_int (cooldown_seconds row)); [cbn in Hget | done].
    destruct (scan_null_int (timeout_seconds row)); [cbn in Hget | done].
    by repeat split.
  - intros (row & Hrow & [p Hp] & [a Ha] & [b Hb] & [c Hc] & [d Hd] & [e He]).
    unfold GetHandler. rewrite Hrow. cbn. rewrite Hp. cbn. rewrite Ha. cbn.
    rewrite Hb. cbn. rewrite Hc. cbn. rewrite Hd. cbn. rewrite He. cbn. done.
Qed.

(** The handler map [GetHandler] builds, key by key. *)
Lemma GetHandler_fields (handlerID : string) (db : Database) (h : gmap string value) :
  GetHandler handlerID db = Some h →
  ∃ row p,
    event_handlers db !! handlerID = Some row ∧ priority row = IInt p ∧
    h !! "handler_id" = Some (VStr handlerID) ∧
    h !! "event_filter" = Some (VMap (json_object (event_filter row))) ∧
    h !! "action" = Some (VMap (json_object (action row))) ∧
    h !! "enabled" = Some (VBool (enabled row =? 1)) ∧
    h !! "priority" = Some (VInt p) ∧
    h !! "execution_count" = Some (VInt (execution_count row)) ∧
    h !! "total_errors" = Some (VInt (total_errors row)) ∧
    h !! "circuit_breaker_state"
      = Some (VStr (default "closed"%string (circuit_breaker_state row))) ∧
    h !! "max_executions_per_minute" = nullable (max_executions_per_minute row) ∧
    h !! "max_executions_per_hour" = nullable (max_executions_per_hour row) ∧
    h !! "max_executions_per_sender_per_hour"
      = nullable (max_executions_per_sender_per_hour row) ∧
    h !! "cooldown_seconds" = nullable (cooldown_seconds row) ∧
    h !! "timeout_seconds" = nullable (timeout_seconds row) ∧
    h !! "circuit_breaker_enabled"
      = (if circuit_breaker_enabled row =? 1 then Some (VBool true) else None) ∧
    h !! "circuit_breaker_reset_seconds"
      = (if circuit_breaker_enabled row =? 1
         then Some (VInt64 (circuit_breaker_reset_seconds row)) else None) ∧
    h !! "last_error_time" = (λ t, VStr (time_Format t)) <$> last_error_time row.
Proof.
  keep_stated. unfold GetHandler. intros Hget.
  destruct (event_handlers db !! handlerID) as [row|]; [|done]. cbn in Hget.
  destruct (priority row) as [|p|] eqn:Hp; try done. cbn in Hget.
  destruct (scan_null_int (max_executions_per_minute row)) eqn:H1; [cbn in Hget | done].
  destruct (scan_null_int (max_executions_per_hour row)) eqn:H2; [cbn in Hget | done].
  destruct (scan_null_int (max_executions_per_sender_per_hour row)) eqn:H3;
    [cbn in Hget | done].
  destruct (scan_null_int (cooldown_seconds row)) eqn:H4; [cbn in Hget | done].
  destruct (scan_null_int (timeout_seconds row)) eqn:H5; [cbn in Hget | done].
  injection Hget as <-. exists row, p. split; [done|]. split; [done|].
  destruct (circuit_breaker_enabled row =? 1);
    repeat split; read_key;
    first
      [ done
      | match goal with
        | |- context [nullable ?c] => destruct c; cbn in *; by simplify_eq
        end
      | by destruct (circuit_breaker_state row)
      | by destruct (last_error_time row) ].
Qed.


(** ** What a reload puts into the snapshot *)

Lemma ListHandlers_elem_of (enabledOnly : bool) (db : Database)
    (listed : list (gmap string value)) :
  ListHandlers enabledOnly db = Some listed →
  (∀ h, h ∈ listed →
        ∃ handlerID row,
          h !! "handler_id" = Some (VStr handlerID) ∧
          event_handlers db !! handlerID = Some row ∧
          (enabledOnly = false ∨ enabled row = 1)) ∧
  (∀ handlerID row,
     event_handlers db !! handlerID = Some row →
     enabledOnly = false ∨ enabled row = 1 →
     ∃ h, h ∈ listed ∧ h !! "handler_id" = Some (VStr handlerID)).
Proof.
  keep_stated. unfold ListHandlers. intros Hlist.
  destruct (mapM _ _) as [keyed|] eqn:Hkeyed; [|done]. cbn in Hlist.
  injection Hlist as <-. apply mapM_Some_1 in Hkeyed. split.
  - intros h Hh. apply list_elem_of_fmap in Hh as (x & -> & Hx).
    rewrite merge_sort_Permutation in Hx.
    apply list_elem_of_lookup in Hx as [i Hi].
    destruct (Forall2_lookup_r _ _ _ _ _ Hkeyed Hi) as (kr & Hkr & Hscan).
    apply list_elem_of_lookup_2, list_elem_of_filter in Hkr as [Hsel Hkr].
    destruct kr as [handlerID row]. apply elem_of_map_to_list in Hkr. cbn in *.
    destruct (priority row) as [|p|]; try done. cbn in Hscan. injection Hscan as <-.
    cbn. exists handlerID, row. by rewrite list_entry_id.
  - intros handlerID row Hrow Hsel.
    assert (Hin : (handlerID, row) ∈
              filter (λ kr : string * Row, enabledOnly = false ∨ enabled kr.2 = 1)
                (map_to_list (event_handlers db))).
    { apply list_elem_of_filter. split; [done|]. by apply elem_of_map_to_list. }
    apply list_elem_of_lookup in Hin as [i Hi].
    destruct (Forall2_lookup_l _ _ _ _ _ Hkeyed Hi) as (x & Hx & Hscan).
    cbn in Hscan. destruct (priority row) as [|p|]; try done. cbn in Hscan.
    injection Hscan as <-.
    exists (list_entry handlerID p row). split; [|apply list_entry_id].
    apply list_elem_of_fmap. exists ((p, handlerID), row). split; [done|].
    rewrite merge_sort_Permutation. by eapply list_elem_of_lookup_2.
Qed.

Lemma load_loop_elem_of (db : Database) (listed acc full : list (gmap string value)) :
  load_loop db listed acc = Some full →
  ∀ f, f ∈ full ↔
       f ∈ acc ∨ ∃ h handlerID, h ∈ listed ∧ h !! "handler_id" = Some (VStr handlerID) ∧
                                GetHandler handlerID db = Some f.
Proof.
  keep_stated. revert acc. induction listed as [|h rest IH]; intros acc Hload f.
  - injection Hload as <-. split; [by left|]. intros [?|(? & ? & ?%elem_of_nil & _)]; done.
  - cbn [load_loop] in Hload.
    destruct (as_string (h !! "handler_id")) as [handlerID|] eqn:Hid; [|done].
    apply as_string_Some in Hid. cbn in Hload.
    destruct (GetHandler handlerID db) as [fullHandler|] eqn:Hget.
    + rewrite (IH _ Hload f), elem_of_app, list_elem_of_singleton. split.
      * intros [[?| ->]|(h' & id & Hin & ? & ?)]; [by left| |].
        -- right. exists h, handlerID. split; [by left | done].
        -- right. exists h', id. split; [by right | done].
      * intros [?|(h' & id & [->|Hin]%elem_of_cons & Hid' & Hget')]; [by left; left| |].
        -- left. right. congruence.
        -- right. by exists h', id.
    + rewrite (IH _ Hload f). split.
      * intros [?|(h' & id & Hin & ? & ?)]; [by left|].
        right. exists h', id. split; [by right | done].
      * intros [?|(h' & id & [->|Hin]%elem_of_cons & Hid' & Hget')]; [by left| |].
        -- congruence.
        -- right. by exists h', id.
Qed.

Lemma LoadHandlers_elem_of (db : Database) (em em' : EventMatcher) :
  LoadHandlers db em = Some em' →
  rateLimits em' = rateLimits em ∧
  ∀ h, h ∈ handlers em' ↔
       ∃ handlerID row, event_handlers db !! handlerID = Some row ∧ enabled row = 1 ∧
                        GetHandler handlerID db = Some h.
Proof.
  keep_stated. unfold LoadHandlers. intros Hload.
  destruct (ListHandlers true db) as [listed|] eqn:Hlist; [|done]. cbn in Hload.
  destruct (load_loop db listed []) as [full|] eqn:Hfull; [|done]. cbn in Hload.
  injection Hload as <-. cbn. split; [done|]. intros f.
  apply ListHandlers_elem_of in Hlist as [Hrows Hall].
  rewrite (load_loop_elem_of _ _ _ _ Hfull f). split.
  - intros [?%elem_of_nil|(h & handlerID & Hin & Hid & Hget)]; [done|].
    destruct (Hrows h Hin) as (id & row & Hid' & Hrow & [?|Hen]); [done|].
    exists handlerID, row. split; [congruence | done].
  - intros (handlerID & row & Hrow & Hen & Hget). right.
    destruct (Hall handlerID row Hrow) as (h & Hin & Hid); [by right|].
    by exists h, handlerID.
Qed.

(** X8.  When the reload succeeds, the new snapshot holds exactly the
    handlers [GetHandler] reads from the rows stored as enabled, and the
    rate limiters are the ones from before the reload. *)
Theorem LoadHandlers_snapshot (db : Database) (em em' : EventMatcher) :
  LoadHandlers db em = Some em' →
  rateLimits em' = rateLimits em ∧
  ∀ h, h ∈ handlers em' ↔
       ∃ handlerID row, event_handlers db !! handlerID = Some row ∧ enabled row = 1 ∧
                        GetHandler handlerID db = Some h.
Proof. keep_stated. apply LoadHandlers_elem_of. Qed.

Lemma requested_id_Some (data : option (gmap string value)) (handlerID : string) :
  requested_id data = inr handlerID ↔
  ∃ d, data = Some d ∧ d !! "handler_id" = Some (VStr handlerID) ∧ handlerID ≠ ""%string.
Proof.
  keep_stated. unfold requested_id. destruct data as [d|];
    [|split; [done | by intros (? & ? & _)]].
  destruct (as_string (d !! "handler_id")) as [id|] eqn:Hid.
  - apply as_string_Some in Hid. destruct (String.eqb id "") eqn:Hempty.
    + apply String.eqb_eq in Hempty as ->.
      split; [done | intros (? & [= <-] & ? & ?); congruence].
    + apply String.eqb_neq in Hempty. split.
      * intros [= <-]. by exists d.
      * intros (? & [= <-] & ? & ?). congruence.
  - split; [done|]. intros (? & [= <-] & Hd & _). by rewrite Hd in Hid.
Qed.

(** X9.  Once a handler has been disabled or deleted through its
    operation and the matcher has reloaded, no event is matched to that
    handler id any more. *)
Theorem disabled_or_deleted_never_matches (data : option (gmap string value))
    (handlerID : string) (now t : Z) (db db' : Database) (em em' em'' : EventMatcher)
    (event : gmap string value) (result : list (gmap string value)) :
  requested_id data = inr handlerID →
  db' = (handleDisableHandler data now db).2 ∨ db' = (handleDeleteHandler data db).2 →
  LoadHandlers db' em = Some em' →
  MatchEvent event t em' = Some (result, em'') →
  ∀ h, h ∈ result → h !! "handler_id" ≠ Some (VStr handlerID).
Proof.
  keep_stated. intros Hreq Hdb Hload Hmatch h Hin Hid.
  unfold handleDisableHandler, handleDeleteHandler in Hdb. rewrite Hreq in Hdb. cbn in Hdb.
  unfold MatchEvent in Hmatch.
  destruct (match_loop (handlers em') event t em' []) as [[matches em1]|] eqn:Hloop;
    [|done]. cbn in Hmatch. injection Hmatch as <- <-.
  rewrite sortHandlersByPriority_elem_of in Hin.
  apply match_loop_kept in Hloop as (_ & kept & -> & Hkept).
  rewrite Forall_forall in Hkept. destruct (Hkept h Hin) as (Hsnap & _).
  apply LoadHandlers_elem_of in Hload as [_ Hsnapshot].
  apply Hsnapshot in Hsnap as (id & row & Hrow & Hen & Hget).
  apply GetHandler_fields in Hget as (_ & _ & _ & _ & Hid' & _).
  assert (id = handlerID) as -> by congruence.
  destruct Hdb as [-> | ->]; cbn in Hrow.
  - rewrite lookup_alter_eq in Hrow. destruct (event_handlers db !! handlerID); [|done].
    cbn in Hrow. injection Hrow as <-. done.
  - by rewrite lookup_delete_eq in Hrow.
Qed.

(** ** Writing a handler and reading it back *)

Lemma SaveHandler_columns (handler : gmap string value) (now : Z) (db db' : Database) :
  SaveHandler handler now db = Some db' →
  ∃ handlerID row,
    handler !! "handler_id" = Some (VStr handlerID) ∧
    event_handlers db' = <[handlerID := row]> (event_handlers db) ∧
    handler_executions db' = handler_executions db ∧
    event_filter row = iface (handler !! "event_filter") ∧
    action row = iface (handler !! "action") ∧
    enabled row = (if default true (as_bool (handler !! "enabled")) then 1 else 0) ∧
    priority row = integer_stored (handler !! "priority") ∧
    max_executions_per_minute row
      = integer_stored (handler !! "max_executions_per_minute") ∧
    max_executions_per_hour row = integer_stored (handler !! "max_executions_per_hour") ∧
    max_executions_per_sender_per_hour row
      = integer_stored (handler !! "max_executions_per_sender_per_hour") ∧
    cooldown_seconds row = integer_stored (handler !! "cooldown_seconds") ∧
    timeout_seconds row = integer_stored (handler !! "timeout_seconds") ∧
    circuit_breaker_state row = Some "closed"%string ∧
    execution_count row = 0 ∧ total_errors row = 0 ∧
    last_executed row = None ∧ last_error row = None ∧ last_error_time row = None ∧
    created_at row = Unix now * Second ∧ updated_at row = now ∧
    circuit_breaker_enabled row
      = match handler !! "circuit_breaker_enabled" with
        | Some (VBool false) => 0
        | Some (VInt cb) => cb
        | Some (VFloat cb) => if Qeq_bool cb 0 then 0 else 1
        | _ => 1
        end.
Proof.
  keep_stated. unfold SaveHandler, integer_stored. intros Hsave.
  destruct (handler !! "handler_id") as [[| | | | |handlerID| |]|]; try done.
  cbn in Hsave.
  repeat match type of Hsave with
         | context [bind ?v] => destruct (bind v); [cbn in Hsave | done]
         end.
  injection Hsave as <-. eexists handlerID, _. cbn.
  repeat split; try reflexivity.
  by destruct (as_bool (handler !! "enabled")) as [[]|].
Qed.

Lemma GetHandler_same_row (id : string) (db db' : Database) :
  event_handlers db' !! id = event_handlers db !! id →
  GetHandler id db' = GetHandler id db.
Proof. keep_stated. unfold GetHandler. by intros ->. Qed.

Lemma scan_null_int_is_Some (c : intcol) : is_Some (scan_null_int c) ↔ c ≠ IJunk.
Proof. keep_stated. destruct c; cbn; split; try done; by intros []. Qed.

(** X10.  A handler written by [SaveHandler] reads back through
    [GetHandler] exactly when its priority was stored as an integer and
    none of the limits, the cooldown and the timeout was stored as
    something no integer can be read from.  What reads back is the id,
    the filter and the action after their trip through JSON, the enabled
    flag (true unless the boolean false was given), the integers as
    stored, and fresh statistics; every other handler reads as before. *)
Theorem SaveHandler_then_GetHandler (handler : gmap string value) (now : Z)
    (db db' : Database) (handlerID : string) :
  SaveHandler handler now db = Some db' →
  handler !! "handler_id" = Some (VStr handlerID) →
  (is_Some (GetHandler handlerID db') ↔
   is_Some (scan_int (integer_stored (handler !! "priority"))) ∧
   integer_stored (handler !! "max_executions_per_minute") ≠ IJunk ∧
   integer_stored (handler !! "max_executions_per_hour") ≠ IJunk ∧
   integer_stored (handler !! "max_executions_per_sender_per_hour") ≠ IJunk ∧
   integer_stored (handler !! "cooldown_seconds") ≠ IJunk ∧
   integer_stored (handler !! "timeout_seconds") ≠ IJunk) ∧
  (∀ h, GetHandler handlerID db' = Some h →
     h !! "handler_id" = Some (VStr handlerID) ∧
     h !! "event_filter" = Some (VMap (json_object (iface (handler !! "event_filter")))) ∧
     h !! "action" = Some (VMap (json_object (iface (handler !! "action")))) ∧
     h !! "enabled" = Some (VBool (default true (as_bool (handler !! "enabled")))) ∧
     h !! "priority" = VInt <$> scan_int (integer_stored (handler !! "priority")) ∧
     h !! "max_executions_per_minute"
       = nullable (integer_stored (handler !! "max_executions_per_minute")) ∧
     h !! "max_executions_per_hour"
       = nullable (integer_stored (handler !! "max_executions_per_hour")) ∧
     h !! "max_executions_per_sender_per_hour"
       = nullable (integer_stored (handler !! "max_executions_per_sender_per_hour")) ∧
     h !! "cooldown_seconds" = nullable (integer_stored (handler !! "cooldown_seconds")) ∧
     h !! "timeout_seconds" = nullable (integer_stored (handler !! "timeout_seconds")) ∧
     h !! "execution_count" = Some (VInt 0) ∧ h !! "total_errors" = Some (VInt 0) ∧
     h !! "circuit_breaker_state" = Some (VStr "closed") ∧
     h !! "last_error_time" = None) ∧
  (∀ id, id ≠ handlerID → GetHandler id db' = GetHandler id db).
Proof.
  keep_stated. intros Hsave Hid.
  apply SaveHandler_columns in Hsave
    as (id' & row & Hid' & Hrows & _ & Hfilter & Haction & Hen & Hprio & H1 & H2 & H3
        & H4 & H5 & Hstate & Hcount & Herrors & _ & _ & Htime & _ & _).
  assert (id' = handlerID) as -> by congruence.
  assert (Hrow : event_handlers db' !! handlerID = Some row)
    by (rewrite Hrows; apply lookup_insert_eq).
  split; [|split].
  - rewrite GetHandler_is_Some. unfold row_scans.
    rewrite <- Hprio, <- H1, <- H2, <- H3, <- H4, <- H5, <- !scan_null_int_is_Some. split.
    + intros (row' & Hrow' & ?). by assert (row' = row) as -> by congruence.
    + intros ?. by exists row.
  - intros h Hget.
    apply GetHandler_fields in Hget
      as (row' & p & Hrow' & Hp & G1 & G2 & G3 & G4 & G5 & G6 & G7 & G8 & G9 & G10 & G11
          & G12 & G13 & _ & _ & G14).
    assert (row' = row) as -> by congruence.
    rewrite G1, G2, G3, G4, G5, G6, G7, G8, G9, G10, G11, G12, G13, G14.
    rewrite Hfilter, Haction, Hen, Hstate, Hcount, Herrors, Htime,
      <- Hprio, <- H1, <- H2, <- H3, <- H4, <- H5, Hp.
    repeat split. by destruct (default true (as_bool (handler !! "enabled"))).
  - intros id Hne. apply GetHandler_same_row.
    rewrite Hrows. by apply lookup_insert_ne.
Qed.

(** X11.  One selected row whose priority does not read as an integer
    (a NULL, as a request with a null priority leaves it) makes
    [ListHandlers] return an error for the whole listing, and with the
    row enabled the reload fails as well. *)
Theorem unreadable_priority_fails_listing (db : Database) (handlerID : string) (row : Row)
    (enabledOnly : bool) (em : EventMatcher) :
  event_handlers db !! handlerID = Some row →
  scan_int (priority row) = None →
  enabledOnly = false ∨ enabled row = 1 →
  ListHandlers enabledOnly db = None ∧
  (enabled row = 1 → LoadHandlers db em = None).
Proof.
  keep_stated. intros Hrow Hscan Hsel.
  assert (Hnone : ∀ only, only = false ∨ enabled row = 1 → ListHandlers only db = None).
  { intros only Honly. unfold ListHandlers.
    destruct (mapM _ _) as [keyed|] eqn:Hkeyed; [|done]. exfalso.
    assert (Hsome : is_Some (mapM (λ kr : string * Row,
                       p ← scan_int (priority kr.2); Some (p, kr.1, kr.2))
                     (filter (λ kr : string * Row, only = false ∨ enabled kr.2 = 1)
                        (map_to_list (event_handlers db))))) by (by rewrite Hkeyed).
    rewrite mapM_is_Some, Forall_forall in Hsome.
    destruct (Hsome (handlerID, row)) as [x Hx].
    - apply list_elem_of_filter. split; [done|]. by apply elem_of_map_to_list.
    - cbn in Hx. by rewrite Hscan in Hx. }
  split; [by apply Hnone|]. intros Hen. unfold LoadHandlers.
  rewrite Hnone by (by right). done.
Qed.

(** ** The operations on one handler *)

(** X12.  [handleDeleteHandler] on a well-formed id reports success
    whether or not the handler exists; afterwards the handler cannot be
    read, every other handler reads as before, and the execution history
    is kept. *)
Theorem handleDeleteHandler_spec (data : option (gmap string value)) (db : Database)
    (handlerID : string) :
  requested_id data = inr handlerID →
  let result := (handleDeleteHandler data db).1 in
  let db' := (handleDeleteHandler data db).2 in
  Success result = true ∧
  GetHandler handlerID db' = None ∧
  Success (handleGetHandler data db') = false ∧
  (∀ id, id ≠ handlerID → GetHandler id db' = GetHandler id db) ∧
  handler_executions db' = handler_executions db.
Proof.
  keep_stated. intros Hreq. cbn zeta. unfold handleDeleteHandler, handleGetHandler.
  rewrite Hreq. cbn [fst snd Success].
  assert (Hget : GetHandler handlerID (DeleteHandler handlerID db) = None).
  { unfold GetHandler, DeleteHandler. cbn. by rewrite lookup_delete_eq. }
  rewrite Hget. repeat split.
  intros id Hne. apply GetHandler_same_row.
  cbn. by apply lookup_delete_ne.
Qed.

Lemma lookup_insert_congr (k key : string) (v : value) (m m' : gmap string value) :
  m !! k = m' !! k → <[key := v]> m !! k = <[key := v]> m' !! k.
Proof. keep_stated. intros Hm. rewrite !lookup_insert. by case_decide. Qed.

Lemma lookup_set_if_congr (k key : string) (o : option value) (m m' : gmap string value) :
  m !! k = m' !! k → set_if key o m !! k = set_if key o m' !! k.
Proof. keep_stated. intros Hm. destruct o; cbn; [by apply lookup_insert_congr | done]. Qed.

Lemma UpdateHandlerEnabled_GetHandler (handlerID : string) (enable : bool) (now : Z)
    (db : Database) (h : gmap string value) :
  GetHandler handlerID db = Some h →
  GetHandler handlerID (UpdateHandlerEnabled handlerID enable now db)
  = Some (<["enabled" := VBool enable]> (<["updated_at" := VStr (time_Format now)]> h)).
Proof.
  keep_stated. unfold GetHandler, UpdateHandlerEnabled. cbn [event_handlers].
  rewrite lookup_alter_eq. intros Hget.
  destruct (event_handlers db !! handlerID) as [row|]; [|done].
  cbn in Hget |- *.
  destruct (scan_int (priority row)); [cbn in Hget |- * | done].
  destruct (scan_null_int (max_executions_per_minute row)); [cbn in Hget |- * | done].
  destruct (scan_null_int (max_executions_per_hour row)); [cbn in Hget |- * | done].
  destruct (scan_null_int (max_executions_per_sender_per_hour row));
    [cbn in Hget |- * | done].
  destruct (scan_null_int (cooldown_seconds row)); [cbn in Hget |- * | done].
  destruct (scan_null_int (timeout_seconds row)); [cbn in Hget |- * | done].
  injection Hget as <-. f_equal. apply map_eq. intros k.
  destruct (decide (k = "enabled")) as [->|Hk1].
  { destruct (circuit_breaker_enabled row =? 1); read_key; by destruct enable. }
  destruct (decide (k = "updated_at")) as [->|Hk2].
  { destruct (circuit_breaker_enabled row =? 1); by read_key. }
  rewrite (lookup_insert_ne _ "enabled" k), (lookup_insert_ne _ "updated_at" k)
    by congruence.
  destruct (circuit_breaker_enabled row =? 1);
    repeat first
      [ reflexivity
      | apply lookup_set_if_congr
      | apply lookup_insert_congr
      | rewrite !(lookup_insert_ne _ "enabled" k) by congruence
      | rewrite !(lookup_insert_ne _ "updated_at" k) by congruence ].
Qed.

(** X13.  [handleEnableHandler] and [handleDisableHandler] on a
    well-formed id report success whether or not the handler exists; a
    missing handler leaves the store as it was.  For a stored handler
    only the enabled flag and the time of the update change in what
    [GetHandler] reads: the limits, the statistics and the breaker state
    stay.  Other handlers and the execution history are untouched. *)
Theorem enable_disable_spec (data : option (gmap string value)) (now : Z) (db : Database)
    (handlerID : string) (enable : bool) :
  requested_id data = inr handlerID →
  let out := if enable then handleEnableHandler data now db
             else handleDisableHandler data now db in
  Success out.1 = true ∧
  (event_handlers db !! handlerID = None → out.2 = db) ∧
  (∀ h, GetHandler handlerID db = Some h →
        GetHandler handlerID out.2
        = Some (<["enabled" := VBool enable]>
                  (<["updated_at" := VStr (time_Format now)]> h))) ∧
  (∀ id, id ≠ handlerID → GetHandler id out.2 = GetHandler id db) ∧
  handler_executions out.2 = handler_executions db.
Proof.
  keep_stated. intros Hreq. cbn zeta.
  assert (Hout : (if enable then handleEnableHandler data now db
                  else handleDisableHandler data now db).2
                 = UpdateHandlerEnabled handlerID enable now db
                 ∧ Success (if enable then handleEnableHandler data now db
                            else handleDisableHandler data now db).1 = true).
  { unfold handleEnableHandler, handleDisableHandler. rewrite Hreq. by destruct enable. }
  destruct Hout as [-> ->]. split; [done|]. split; [|split; [|split]].
  - intros Hmissing. unfold UpdateHandlerEnabled.
    rewrite alter_id by (intros row Hrow; congruence). by destruct db.
  - apply UpdateHandlerEnabled_GetHandler.
  - intros id Hne. apply GetHandler_same_row. cbn. by apply lookup_alter_ne.
  - done.
Qed.

Lemma bindable_or_refused (d : gmap string value) (ks : list string) :
  (∀ k x, k ∈ ks → d !! k = Some x → bindable x)
  ∨ ∃ k x, k ∈ ks ∧ d !! k = Some x ∧ ¬ bindable x.
Proof.
  keep_stated. induction ks as [|k ks IH]; [left; by intros ? ? ?%elem_of_nil|].
  destruct IH as [IH|(k' & x & ? & ? & ?)];
    [|right; exists k', x; split; [by right|done]].
  destruct (d !! k) as [x|] eqn:Hx.
  - destruct x; try (left; intros k' x' [->|?]%elem_of_cons Hx';
                     [by simplify_eq | by eapply IH]);
      right; eexists k, _; (split; [by left | split; [done | by intros []]]).
  - left. intros k' x' [->|?]%elem_of_cons Hx'; [congruence | by eapply IH].
Qed.

(** X14.  [handleUpdateHandler] fails exactly when the request names no
    well-formed id, the handler cannot be read, or the store refuses the
    write; a failed update leaves the store as it was.  A successful
    update replaces the row: the statistics and the breaker state are
    back at the column defaults, the breaker is enabled unless the
    request says otherwise, the priority is the request's if it gives
    one and the stored one if not; the execution history is kept. *)
Theorem handleUpdateHandler_spec (data : option (gmap string value)) (now : Z)
    (db : Database) :
  let result := (handleUpdateHandler data now db).1 in
  let db' := (handleUpdateHandler data now db).2 in
  (Success result = false ↔
   (∀ handlerID, requested_id data ≠ inr handlerID)
   ∨ (∃ handlerID, requested_id data = inr handlerID ∧ GetHandler handlerID db = None)
   ∨ store_refuses data) ∧
  (Success result = false → db' = db) ∧
  (Success result = true →
   ∃ d handlerID row row',
     data = Some d ∧ requested_id data = inr handlerID ∧
     event_handlers db !! handlerID = Some row ∧
     event_handlers db' = <[handlerID := row']> (event_handlers db) ∧
     handler_executions db' = handler_executions db ∧
     execution_count row' = 0 ∧ total_errors row' = 0 ∧
     last_executed row' = None ∧ last_error row' = None ∧ last_error_time row' = None ∧
     circuit_breaker_state row' = Some "closed"%string ∧
     created_at row' = Unix now * Second ∧
     (d !! "circuit_breaker_enabled" = None → circuit_breaker_enabled row' = 1) ∧
     (d !! "priority" = None → priority row' = priority row) ∧
     (∀ v, d !! "priority" = Some v → priority row' = integer_stored (Some v))).
Proof.
  keep_stated. cbn zeta. unfold handleUpdateHandler.
  destruct data as [d|]; [|cbn; split; [split; [by left | done] | split; done]].
  destruct (requested_id (Some d)) as [err|handlerID] eqn:Hreq;
    [cbn; split; [split; [by left | done] | split; done]|].
  destruct (GetHandler handlerID db) as [h|] eqn:Hget;
    [|cbn; split; [split; [intros _; right; left; by exists handlerID | done]
                  | split; done]].
  pose proof (SaveHandler_is_Some (d ∪ h) now db) as Hsome.
  pose proof (GetHandler_bindable _ _ _ Hget) as Hstored.
  apply requested_id_Some in Hreq as Hd. destruct Hd as (d0 & [= <-] & Hid & Hne).
  assert (Hmerged : (d ∪ h) !! "handler_id" = Some (VStr handlerID))
    by (by apply lookup_union_Some_l).
  destruct (SaveHandler (d ∪ h) now db) as [db'|] eqn:Hsave; cbn.
  - split; [split; [done|]|split; [done|]].
    + intros [Hbad|[(id & [= <-] & ?)|(d0 & k & x & [= <-] & Hk & Hx & Hnb)]];
        [by destruct (Hbad handlerID) | congruence |].
      destruct Hsome as [[_ Hall] _]; [done|].
      destruct Hnb. apply (Hall k x Hk). by apply lookup_union_Some_l.
    + intros _.
      apply SaveHandler_columns in Hsave
        as (id & row' & Hrid & Hdb' & Hexecs & _ & _ & _ & Hprio & _ & _ & _ & _ & _
            & Hstate & Hcount & Herrors & Hexec & Herr & Htime & Hcreated & _ & Hcb).
      assert (id = handlerID) as -> by congruence.
      apply GetHandler_fields in Hget
        as (row & p & Hrow & Hp & _ & _ & _ & _ & Hhp & _ & _ & _ & _ & _ & _ & _ & _
            & Hhcb & _).
      exists d, handlerID, row, row'. repeat split; try done.
      * intros Habsent. rewrite Hcb, lookup_union_r, Hhcb by done.
        by destruct (circuit_breaker_enabled row =? 1).
      * intros Habsent. rewrite Hprio, lookup_union_r, Hhp, Hp by done. done.
      * intros v Hv. rewrite Hprio. by rewrite (lookup_union_Some_l _ _ _ _ Hv).
  - split; [split; [intros _|done]|split; done].
    right. right. exists d.
    destruct (bindable_or_refused d raw_columns) as [Hall|(k & x & ? & ? & ?)];
      [|by exists k, x].
    destruct Hsome as [_ Hs]. destruct Hs as [? ?]; [|done].
    split; [by rewrite Hmerged|]. intros k x Hk Hx.
    apply lookup_union_Some_raw in Hx as [Hx|[_ Hx]]; [by apply (Hall k) | by apply (Hstored k)].
Qed.

(** ** Running actions *)

Lemma acts_within_refl (n : nat) (w : World) : acts_within n w w.
Proof.
  keep_stated. split; [done|]. split; [done|]. split; [lia|].
  exists []. rewrite app_nil_r. split; [done | cbn; lia].
Qed.

Lemma acts_within_trans (n m : nat) (w1 w2 w3 : World) :
  acts_within n w1 w2 → acts_within m w2 w3 → acts_within (n + m) w1 w3.
Proof.
  keep_stated. intros (Hd1 & He1 & Hc1 & new1 & Hn1 & Hl1) (Hd2 & He2 & Hc2 & new2 & Hn2 & Hl2).
  repeat split; [congruence | congruence | lia |].
  exists (new1 ++ new2). rewrite Hn2, Hn1, app_assoc, length_app. split; [done | lia].
Qed.

Lemma acts_within_le (n m : nat) (w w' : World) :
  (n ≤ m)%nat → acts_within n w w' → acts_within m w w'.
Proof.
  keep_stated. intros Hle (? & ? & ? & new & ? & ?). repeat split; try done.
  exists new. split; [done | lia].
Qed.

Lemma call_acts (method : string) (params : gmap string value) (w : World) :
  acts_within 1 w (call method params w).2.
Proof.
  keep_stated. unfold call, acts_within. cbn [snd database eventMatcher clock calls].
  split; [done|]. split; [done|]. split; [lia|]. by exists [(method, params)].
Qed.

(** One directive makes at most one call. *)
Lemma directive_acts (actionMap : gmap string value) (w : World) :
  acts_within 1 w
    (let actionType := string_of (actionMap !! "type") in
     if String.eqb actionType "send_message" then executeSendMessage actionMap w
     else if String.eqb actionType "send_reaction" then executeSendReaction actionMap w
     else if String.eqb actionType "mark_read" then executeMarkRead actionMap w
     else if String.eqb actionType "send_presence" then executeSendPresence actionMap w
     else if String.eqb actionType "send_chat_presence"
          then executeSendChatPresence actionMap w
     else if String.eqb actionType "delay" then executeDelay actionMap w
     else if String.eqb actionType "call_method" then executeCallMethod actionMap w
     else (false, w)).2.
Proof.
  keep_stated. cbn zeta.
  unfold executeSendMessage, executeSendReaction, executeMarkRead, executeSendPresence,
    executeSendChatPresence, executeDelay, executeCallMethod.
  repeat match goal with
         | |- context [if ?b then _ else _] => destruct b
         | |- context [match ?o with Some _ => _ | None => _ end] => destruct o
         end;
    first [ apply acts_within_refl | apply call_acts | idtac ].
  unfold acts_within. cbn [snd database eventMatcher clock calls].
  split; [done|]. split; [done|]. split; [lia|].
  exists []. rewrite app_nil_r. split; [done | cbn; lia].
Qed.

Lemma executeReturnedActions_acts (actions : list value) (eventData : gmap string value)
    (executed : Z) (w : World) :
  acts_within (length actions) w (executeReturnedActions actions eventData executed w).2 ∧
  (0 ≤ executed → executed + Z.of_nat (length actions) < 2 ^ 63 →
   executed ≤ (executeReturnedActions actions eventData executed w).1
   ≤ executed + Z.of_nat (length actions)).
Proof.
  keep_stated. revert executed w. induction actions as [|action rest IH]; intros executed w.
  - cbn. split; [apply acts_within_refl | lia].
  - cbn [executeReturnedActions length].
    destruct action as [| | | | | | |actionMap];
      try (destruct (IH executed w) as [Hacts Hcount]; split;
           [by apply (acts_within_le (length rest)); [lia|] | lia]).
    pose proof (directive_acts (substituteVariables actionMap eventData) w) as Hone.
    cbn zeta in Hone.
    destruct (if String.eqb (string_of (substituteVariables actionMap eventData !! "type"))
                   "send_message" then _ else _) as [ok w1].
    cbn [snd] in Hone.
    destruct (IH (if ok then wrap64 (executed + 1) else executed) w1) as [Hacts Hcount].
    split; [by apply (acts_within_trans 1 (length rest) w w1)|].
    intros H0 Hmax. destruct ok.
    + rewrite wrap64_small in Hcount |- * by lia. lia.
    + lia.
Qed.

(** X15.  Running a list of directives never touches the store or the
    matcher and never moves the clock back; it makes at most one call on
    the messaging client per directive, and the count it returns lies
    between zero and the number of directives. *)
Theorem executeReturnedActions_bounds (actions : list value)
    (eventData : gmap string value) (w : World) :
  Z.of_nat (length actions) < 2 ^ 63 →
  let out := executeReturnedActions actions eventData 0 w in
  database out.2 = database w ∧ eventMatcher out.2 = eventMatcher w ∧
  clock w ≤ clock out.2 ∧
  (∃ new, calls out.2 = calls w ++ new ∧ (length new ≤ length actions)%nat) ∧
  0 ≤ out.1 ≤ Z.of_nat (length actions).
Proof.
  keep_stated. intros Hlen. cbn zeta.
  destruct (executeReturnedActions_acts actions eventData 0 w)
    as [(Hdb & Hem & Hclock & Hcalls) Hcount].
  repeat split; try done; lia.
Qed.

(** ** One execution of a handler *)

Lemma downloadMedia_acts (event : gmap string value) (w : World) :
  acts_within 1 w (downloadMedia event w).2.
Proof.
  keep_stated. unfold downloadMedia.
  repeat match goal with
         | |- context [if ?b then _ else _] => destruct b
         | |- context [match ?o with Some _ => _ | None => _ end] => destruct o
         end; try apply acts_within_refl.
  all: match goal with
       | |- context [call ?m ?p ?w] =>
           pose proof (call_acts m p w) as Hcall; destruct (call m p w) as [[] w']; exact Hcall
       end.
Qed.

Lemma prepareEventData_acts (event : gmap string value) (w : World) :
  acts_within 1 w (prepareEventData event w).2.
Proof.
  keep_stated. unfold prepareEventData.
  destruct (nonempty_string (event !! "media_type")); [|apply acts_within_refl].
  pose proof (downloadMedia_acts event w) as Hd.
  destruct (downloadMedia event w) as [[mediaPath|] w']; [|exact Hd].
  by destruct (String.eqb mediaPath "").
Qed.

Lemma executeDirectActions_acts (action eventData : gmap string value) (w : World) :
  ∃ n, acts_within n w (executeDirectActions action eventData w).2.
Proof.
  keep_stated. unfold executeDirectActions.
  destruct (as_slice (action !! "actions")) as [actions|];
    [|exists 0%nat; apply acts_within_refl].
  destruct (executeReturnedActions_acts actions eventData 0 w) as [Hacts _].
  destruct (executeReturnedActions actions eventData 0 w) as [executed w'].
  by exists (length actions).
Qed.

(** An execution is: record it in the limiter, prepare the event data,
    run the actions, then end in one of three ways. *)
Lemma executeHandler_shape (handler event : gmap string value) (w : World)
    (handlerID : string) :
  handler !! "handler_id" = Some (VStr handlerID) →
  ∃ n w2 e,
    acts_within n (started handlerID event w) w2 ∧
    executeHandler handler event w = Some (end_execution handlerID event (clock w) e w2) ∧
    (e = InvalidAction ↔ as_map (handler !! "action") = None).
Proof.
  keep_stated. intros Hid. unfold executeHandler. rewrite Hid.
  cbn [as_string mbind option_bind]. fold (started handlerID event w).
  pose proof (prepareEventData_acts event (started handlerID event w)) as Hprep.
  destruct (prepareEventData event (started handlerID event w)) as [eventData w1].
  cbn [snd] in Hprep.
  destruct (as_map (handler !! "action")) as [action|].
  2:{ exists 1%nat, w1, InvalidAction. split; [exact Hprep|]. by split. }
  assert (Hrun : ∃ n,
    acts_within n w1
      (if String.eqb (string_of (action !! "type")) "python"
       then (executePythonAction action eventData
               match as_int64 (handler !! "timeout_seconds") with
               | Some t => if 0 <? t then t else 30
               | None => 30
               end, w1)
       else if String.eqb (string_of (action !! "type")) "actions"
            then executeDirectActions action eventData w1
            else (inl ("unknown action type: " +:+ string_of (action !! "type")), w1)).2).
  { destruct (String.eqb _ "python"); [exists 0%nat; apply acts_within_refl|].
    destruct (String.eqb _ "actions"); [apply executeDirectActions_acts|].
    exists 0%nat; apply acts_within_refl. }
  destruct Hrun as [n Hrun].
  destruct (if String.eqb (string_of (action !! "type")) "python" then _ else _)
    as [outcome w2].
  cbn [snd] in Hrun.
  pose proof (acts_within_trans _ _ _ _ _ Hprep Hrun) as Hacts.
  destruct outcome as [err|result].
  { exists (1 + n)%nat, w2, (Failed err). split; [exact Hacts|]. by split. }
  destruct (bool_of (result !! "success")); cbn [negb].
  2:{ exists (1 + n)%nat, w2, (Failed (string_of (result !! "error"))).
      split; [exact Hacts|]. by split. }
  destruct (as_slice (result !! "actions")) as [actions|].
  - destruct (executeReturnedActions_acts actions eventData 0 w2) as [Hret _].
    destruct (executeReturnedActions actions eventData 0 w2) as [executed w3].
    cbn [snd] in Hret.
    exists (1 + n + length actions)%nat, w3, (Succeeded executed).
    split; [by eapply acts_within_trans|]. by split.
  - exists (1 + n)%nat, w2, (Succeeded 0). split; [exact Hacts|]. by split.
Qed.

Lemma UpdateCircuitBreaker_frame (handlerID : string) (success : bool) (now : Z)
    (db : Database) :
  let db' := default db (UpdateCircuitBreaker handlerID success now db) in
  handler_executions db' = handler_executions db ∧
  ∀ id, id ≠ handlerID → event_handlers db' !! id = event_handlers db !! id.
Proof.
  keep_stated. cbn zeta. unfold UpdateCircuitBreaker.
  destruct (GetHandler handlerID db) as [h|] eqn:Hget; [|done]. cbn.
  apply GetHandler_fields in Hget as (_ & _ & _ & _ & Hid & _).
  assert (Hsave : ∀ state,
    let db' := default db (SaveHandler (<["circuit_breaker_state" := VStr state]> h) now db) in
    handler_executions db' = handler_executions db ∧
    ∀ id, id ≠ handlerID → event_handlers db' !! id = event_handlers db !! id).
  { intros state. cbn zeta.
    destruct (SaveHandler _ now db) as [db'|] eqn:Hsave; [|done]. cbn.
    apply SaveHandler_columns in Hsave as (id' & row & Hid' & Hrows & Hexecs & _).
    rewrite lookup_insert_ne, Hid in Hid' by done. injection Hid' as <-.
    split; [done|]. intros id Hne. rewrite Hrows. by apply lookup_insert_ne. }
  destruct (as_bool (h !! "circuit_breaker_enabled")) as [[]|]; [|done..].
  destruct success; [apply Hsave|].
  destruct (_ <=? _); [apply Hsave | done].
Qed.

Lemma settle_frame (handlerID : string) (success : bool) (errorMsg : string) (now : Z)
    (db : Database) :
  let db1 := default db (UpdateCircuitBreaker handlerID success now db) in
  let db2 := UpdateHandlerStats handlerID success errorMsg now db1 in
  handler_executions db2 = handler_executions db ∧
  ∀ id, id ≠ handlerID → event_handlers db2 !! id = event_handlers db !! id.
Proof.
  keep_stated. cbn zeta.
  destruct (UpdateCircuitBreaker_frame handlerID success now db) as [Hexecs Hrows].
  cbn zeta in Hexecs, Hrows. unfold UpdateHandlerStats. cbn. split; [done|].
  intros id Hne. rewrite lookup_alter_ne by done. by apply Hrows.
Qed.

(** What every ending leaves: one more record in the history, and no
    change to the matcher, the calls, the clock or the rows of other
    handlers. *)
Lemma end_execution_effects (handlerID : string) (event : gmap string value)
    (startTime : Z) (e : ending) (w : World) :
  let w' := end_execution handlerID event startTime e w in
  eventMatcher w' = eventMatcher w ∧ calls w' = calls w ∧ clock w' = clock w ∧
  (∃ record,
     handler_executions (database w') = handler_executions (database w) ++ [record] ∧
     exec_handler_id record = handlerID ∧
     exec_started_at record = startTime ∧ exec_completed_at record = clock w ∧
     exec_success record = (if e is Succeeded _ then 1 else 0) ∧
     exec_error record
       = match e with
         | InvalidAction => Some "Invalid action definition"%string
         | Failed errorMsg => Some errorMsg
         | Succeeded _ => None
         end ∧
     exec_actions_executed record = (if e is Succeeded n then Some n else None)) ∧
  (∀ id, id ≠ handlerID →
         event_handlers (database w') !! id = event_handlers (database w) !! id).
Proof.
  keep_stated. cbn zeta. destruct e as [|errorMsg|actionsExecuted].
  - cbn. repeat split. eexists. by repeat split.
  - unfold end_execution, fail_execution. cbn [with_database eventMatcher calls clock database].
    set (db1 := database (logExecutionError handlerID event startTime errorMsg w)).
    destruct (settle_frame handlerID false errorMsg
                (clock (logExecutionError handlerID event startTime errorMsg w)) db1)
      as [Hexecs Hrows]. cbn zeta in Hexecs, Hrows.
    split; [done|]. split; [done|]. split; [done|]. split.
    + eexists. rewrite Hexecs. unfold db1. cbn. by repeat split.
    + intros id Hne. rewrite Hrows by done. done.
  - unfold end_execution, succeed_execution.
    cbn [with_database eventMatcher calls clock database].
    set (w1 := logExecutionSuccess handlerID event startTime
                 (milliseconds_since startTime (clock w)) actionsExecuted w).
    destruct (settle_frame handlerID true "" (clock w1) (database w1)) as [Hexecs Hrows].
    cbn zeta in Hexecs, Hrows.
    split; [done|]. split; [done|]. split; [done|]. split.
    + eexists. rewrite Hexecs. unfold w1. cbn. by repeat split.
    + intros id Hne. rewrite Hrows by done. done.
Qed.

(** X16.  An execution of a handler with a string id always completes.
    It puts the execution on record in the rate limiter at the time it
    starts and appends exactly one record to the history, under the
    handler's id and with that start time; the snapshot of the matcher
    stays, calls on the messaging client are only added, the clock does
    not go back, and the rows of other handlers are untouched. *)
Theorem executeHandler_effects (handler event : gmap string value) (w : World)
    (handlerID : string) :
  handler !! "handler_id" = Some (VStr handlerID) →
  ∃ w' record,
    executeHandler handler event w = Some w' ∧
    eventMatcher w' = RecordExecution handlerID event (clock w) (eventMatcher w) ∧
    handler_executions (database w')
      = handler_executions (database w) ++ [record] ∧
    exec_handler_id record = handlerID ∧
    exec_started_at record = clock w ∧ exec_completed_at record = clock w' ∧
    (∃ new, calls w' = calls w ++ new) ∧
    clock w ≤ clock w' ∧
    (∀ id, id ≠ handlerID →
           event_handlers (database w') !! id = event_handlers (database w) !! id).
Proof.
  keep_stated. intros Hid.
  destruct (executeHandler_shape handler event w handlerID Hid)
    as (n & w2 & e & (Hdb & Hem & Hclock & new & Hcalls & _) & -> & _).
  destruct (end_execution_effects handlerID event (clock w) e w2)
    as (Hem' & Hcalls' & Hclock' & (record & Hexecs & Hrid & Hstart & Hdone & _) & Hrows).
  cbn zeta in *. exists (end_execution handlerID event (clock w) e w2), record.
  cbn in Hdb, Hem, Hclock, Hcalls.
  rewrite Hem', Hcalls', Hclock', Hexecs, Hdb, Hem, Hcalls.
  repeat split; try done.
  - by exists new.
  - intros id Hne. rewrite Hrows, Hdb by done. done.
Qed.


(** X18.  For a stored handler whose breaker is disabled, an execution
    with an action object adds one to the execution count of the row and
    sets its time of last execution; it adds one to the error count, and
    stores the error and its time, exactly when the record it appends to
    the history is a failure. *)
Theorem executeHandler_statistics (handler event action : gmap string value) (w : World)
    (handlerID : string) (row : Row) :
  handler !! "handler_id" = Some (VStr handlerID) →
  as_map (handler !! "action") = Some action →
  event_handlers (database w) !! handlerID = Some row →
  circuit_breaker_enabled row ≠ 1 →
  ∃ w' row' record,
    executeHandler handler event w = Some w' ∧
    event_handlers (database w') !! handlerID = Some row' ∧
    handler_executions (database w')
      = handler_executions (database w) ++ [record] ∧
    execution_count row' = execution_count row + 1 ∧
    last_executed row' = Some (clock w') ∧
    total_errors row' = total_errors row + (1 - exec_success record) ∧
    (exec_success record = 1 →
     last_error row' = last_error row ∧ last_error_time row' = last_error_time row) ∧
    (exec_success record = 0 →
     last_error row' = exec_error record ∧ last_error_time row' = Some (clock w')) ∧
    enabled row' = enabled row ∧ priority row' = priority row ∧
    circuit_breaker_state row' = circuit_breaker_state row.
Proof.
  keep_stated. intros Hid Haction Hrow Hcb.
  destruct (executeHandler_shape handler event w handlerID Hid)
    as (n & w2 & e & (Hdb & _) & -> & He).
  cbn in Hdb.
  assert (Hbreaker : ∀ success now db,
            event_handlers db = event_handlers (database w) →
            default db (UpdateCircuitBreaker handlerID success now db) = db).
  { intros success now db Hsame. unfold UpdateCircuitBreaker.
    destruct (GetHandler handlerID db) as [h|] eqn:Hget; [|done]. cbn.
    apply GetHandler_fields in Hget
      as (row0 & p & Hrow0 & _ & _ & _ & _ & _ & _ & _ & _ & _ & _ & _ & _ & _ & _ & Hen & _).
    rewrite Hsame, Hrow in Hrow0. injection Hrow0 as <-.
    rewrite Hen. destruct (circuit_breaker_enabled row =? 1) eqn:Heq; [|done].
    by apply Z.eqb_eq in Heq. }
  destruct e as [|errorMsg|actionsExecuted].
  - destruct He as [He _]. rewrite He in Haction by done. done.
  - eexists _, _, _. split; [done|].
    unfold end_execution, fail_execution.
    cbn [with_database eventMatcher calls clock database logExecutionError
         LogHandlerExecution event_handlers handler_executions].
    rewrite Hbreaker by (by rewrite Hdb).
    unfold UpdateHandlerStats, LogHandlerExecution.
    cbn [event_handlers handler_executions].
    rewrite lookup_alter_eq, Hdb, Hrow. cbn. split; [done|]. split; [done|].
    repeat split; cbn; try done; lia.
  - eexists _, _, _. split; [done|].
    unfold end_execution, succeed_execution.
    cbn [with_database eventMatcher calls clock database logExecutionSuccess
         LogHandlerExecution event_handlers handler_executions].
    rewrite Hbreaker by (by rewrite Hdb).
    unfold UpdateHandlerStats, LogHandlerExecution.
    cbn [event_handlers handler_executions].
    rewrite lookup_alter_eq, Hdb, Hrow. cbn. split; [done|]. split; [done|].
    repeat split; cbn; try done; lia.
Qed.

(** X19.  Preparing the event data keeps every field of the event; only
    [media_path] and [has_media] may be added.  An event without a media
    type is passed on as it is, with no call made; a media file that is
    already on disk is not downloaded again. *)
Theorem prepareEventData_spec (event : gmap string value) (w : World) :
  let out := prepareEventData event w in
  (∀ k, k ≠ "has_media"%string → k ≠ "media_path"%string → out.1 !! k = event !! k) ∧
  database out.2 = database w ∧ eventMatcher out.2 = eventMatcher w ∧
  clock out.2 = clock w ∧
  (calls out.2 = calls w ∨
   ∃ params, calls out.2 = calls w ++ [("DownloadMediaWithPath"%string, params)]) ∧
  (nonempty_string (event !! "media_type") = false → out = (event, w)) ∧
  (∀ path, (downloadMedia event w).1 = Some path → os_Stat path = true →
           calls out.2 = calls w).
Proof.
  keep_stated. cbn zeta. unfold prepareEventData.
  destruct (nonempty_string (event !! "media_type")) eqn:Hmedia.
  2:{ cbn. repeat split; try done. by left. }
  assert (Hd : database (downloadMedia event w).2 = database w ∧
               eventMatcher (downloadMedia event w).2 = eventMatcher w ∧
               clock (downloadMedia event w).2 = clock w ∧
               (calls (downloadMedia event w).2 = calls w ∨
                ∃ params, calls (downloadMedia event w).2
                          = calls w ++ [("DownloadMediaWithPath"%string, params)]) ∧
               (∀ path, (downloadMedia event w).1 = Some path → os_Stat path = true →
                        calls (downloadMedia event w).2 = calls w)).
  { unfold downloadMedia.
    destruct (as_string (event !! "message_id")) as [messageID|];
      [|cbn; repeat split; try done; by left].
    destruct (String.eqb messageID ""); [cbn; repeat split; try done; by left|].
    destruct (String.eqb (string_of (event !! "media_type")) "");
      [cbn; repeat split; try done; by left|].
    destruct (os_Stat _) eqn:Hstat; [cbn; repeat split; try done; by left|].
    destruct client_available; cbn [negb]; [|cbn; repeat split; try done; by left].
    unfold call. destruct (CallWhatsmeowMethod _ _); cbn.
    - repeat split; try done; [right; by eexists|]. intros path [= <-]. congruence.
    - repeat split; try done. right; by eexists. }
  destruct (downloadMedia event w) as [[mediaPath|] w'].
  - destruct Hd as (? & ? & ? & ? & Hcached). cbn [fst snd] in *.
    destruct (String.eqb mediaPath ""); cbn [fst snd];
      (split; [intros k ? ?; by rewrite ?lookup_insert_ne by done|]);
      repeat split; try done.
  - destruct Hd as (? & ? & ? & ? & Hcached). cbn [fst snd] in *.
    repeat split; done.
Qed.

(** ** The error state *)

Lemma recent_loop_spec (entries : list ErrorEntry) (count : nat) (severity : option string)
    (limit : Z) (filtered : list ErrorEntry) :
  (count ≤ length entries)%nat →
  (0 < limit → Z.of_nat (length filtered) < limit) →
  recent_loop entries count severity limit filtered
  = Some (filtered ++
          let rest := filter (λ entry, severity_selected severity entry)
                        (reverse (take count entries)) in
          if 0 <? limit then take (Z.to_nat limit - length filtered) rest else rest).
Proof.
  keep_stated. revert filtered. induction count as [|i IH]; intros filtered Hcount Hroom.
  - cbn. rewrite take_0. cbn. destruct (0 <? limit); cbn; by rewrite ?take_nil, app_nil_r.
  - cbn [recent_loop].
    destruct (lookup_lt_is_Some_2 entries i) as [entry Hentry]; [lia|].
    rewrite Hentry. cbn [mbind option_bind].
    rewrite (take_S_r _ _ _ Hentry), reverse_snoc.
    destruct (severity_selected severity entry) eqn:Hsel.
    + rewrite filter_cons_True by (by rewrite Hsel).
      rewrite length_app. cbn [length].
      destruct (0 <? limit) eqn:Hpos; cbn [andb].
      * apply Z.ltb_lt in Hpos. specialize (Hroom Hpos).
        destruct (limit <=? Z.of_nat (length filtered + 1)) eqn:Hfull.
        -- apply Z.leb_le in Hfull.
           replace (Z.to_nat limit - length filtered)%nat with 1%nat by lia.
           cbn. by rewrite take_0.
        -- apply Z.leb_gt in Hfull. rewrite IH; [|lia|rewrite length_app; cbn; lia].
           try (assert ((0 <? limit) = true) as -> by lia).
           rewrite length_app. cbn [length].
           replace (Z.to_nat limit - length filtered)%nat
             with (S (Z.to_nat limit - (length filtered + 1)))%nat by lia.
           cbn. by rewrite <- app_assoc.
      * pose proof Hpos as Hle. apply Z.ltb_ge in Hle.
        rewrite IH; [|lia|lia]. rewrite ?Hpos. cbn. by rewrite <- app_assoc.
    + rewrite filter_cons_False by (rewrite Hsel; by intros []).
      rewrite IH; [done | lia | done].
Qed.

Lemma GetRecentErrors_spec_eq (severity : option string) (limit : Z) (es : ErrorState) :
  GetRecentErrors severity limit es
  = Some (let selected := filter (λ entry, severity_selected severity entry)
                            (reverse (recent_errors es)) in
          if 0 <? limit then take (Z.to_nat limit) selected else selected).
Proof.
  keep_stated. unfold GetRecentErrors.
  rewrite recent_loop_spec by (cbn; lia). rewrite firstn_all. cbn [app length].
  by rewrite Nat.sub_0_r.
Qed.

(** X20.  [GetRecentErrors] never fails.  It returns the entries of the
    requested severity (all entries when none is requested), newest
    first; a positive limit keeps the first [limit] of them, a limit of
    zero or below keeps them all. *)
Theorem GetRecentErrors_spec (severity : option string) (limit : Z) (es : ErrorState) :
  GetRecentErrors severity limit es
  = Some (let selected := filter (λ entry, severity_selected severity entry)
                            (reverse (recent_errors es)) in
          if 0 <? limit then take (Z.to_nat limit) selected else selected).
Proof. keep_stated. apply GetRecentErrors_spec_eq. Qed.

Lemma error_run_snoc (cs : list error_call) (c : error_call) (es : ErrorState) :
  error_run (cs ++ [c]) es = error_step (error_run cs es) c.
Proof. keep_stated. unfold error_run. by rewrite foldl_snoc. Qed.

Lemma logged_snoc (cs : list error_call) (c : error_call) (es : ErrorState) :
  logged (cs ++ [c]) es
  = match c with
    | CallLogError id now stack severity operation message details =>
        logged cs es
        ++ [(LogError id now stack severity operation message details (error_run cs es)).1]
    | _ => logged cs es
    end.
Proof.
  keep_stated. unfold logged, error_run. rewrite foldl_snoc.
  assert (Hfst : ∀ acc,
    (foldl (λ '(es, entries) c,
              (error_step es c,
               match c with
               | CallLogError id now stack severity operation message details =>
                   entries
                   ++ [(LogError id now stack severity operation message details es).1]
               | _ => entries
               end)) acc cs).1 = foldl error_step acc.1 cs).
  { induction cs as [|c' cs IH]; intros [es' entries]; [done|]. cbn. by rewrite IH. }
  specialize (Hfst (es, [])). cbn in Hfst.
  destruct (foldl _ (es, []) cs) as [es' entries]. cbn in Hfst. subst es'.
  by destruct c.
Qed.

(** X21.  From a fresh error state with room for [max] entries, after
    any sequence of calls the list of recent errors holds at most [max]
    entries, and they are entries that were logged, in the order they
    were logged. *)
Theorem recent_errors_bounded (max : Z) (es0 : ErrorState) (cs : list error_call) :
  NewErrorState max = Some es0 →
  let es := error_run cs es0 in
  max_recent_errors es = max ∧
  Z.of_nat (length (recent_errors es)) ≤ max ∧
  recent_errors es `sublist_of` logged cs es0.
Proof.
  keep_stated. unfold NewErrorState. intros Hnew. cbn zeta.
  destruct (max <? 0) eqn:Hmax; [done|]. apply Z.ltb_ge in Hmax. injection Hnew as <-.
  induction cs as [|c cs IH] using rev_ind; [cbn; split; [done|]; split; [lia|done]|].
  rewrite error_run_snoc, logged_snoc.
  destruct IH as (Hsame & Hlen & Hsub).
  set (es := error_run cs _) in *. destruct c; cbn [error_step].
  - unfold LogError. cbn [fst snd max_recent_errors recent_errors].
    split; [done|]. rewrite Hsame, length_app. cbn [length].
    set (entry := mkErrorEntry _ _ _ _ _ _ _).
    destruct (max <? Z.of_nat (length (recent_errors es) + 1)) eqn:Hfull.
    + split.
      * rewrite length_drop, length_app. cbn. lia.
      * etrans; [apply sublist_drop|]. by apply sublist_app.
    + apply Z.ltb_ge in Hfull. split; [rewrite length_app; cbn; lia|].
      by apply sublist_app.
  - done.
  - cbn. split; [done|]. split.
    + pose proof (length_filter (λ entry, entry_Severity entry = "critical"%string)
                    (recent_errors es)). lia.
    + etrans; [apply sublist_filter | done].
Qed.

Lemma error_run_keeps_critical (cs : list error_call) (es : ErrorState) :
  Forall keeps_critical cs →
  current_critical_error (error_run cs es) = current_critical_error es.
Proof.
  keep_stated. induction cs as [|c cs IH] using rev_ind; [done|].
  intros [Hcs Hc%Forall_inv]%Forall_app. rewrite error_run_snoc, <- IH by done.
  destruct c; [|by destruct Hc|reflexivity]. unfold error_step, LogError. cbn in Hc |- *.
  destruct (String.eqb severity "critical") eqn:Hsev; [|done].
  by apply String.eqb_eq in Hsev.
Qed.

(** X22.  A critical error stays current until it is cleared: after a
    critical entry is logged, whatever is logged below that severity and
    whether or not the recent errors are cleared, [CheckErrorState]
    refuses every operation and names that entry; after
    [ClearCriticalError] it lets operations pass. *)
Theorem critical_error_latch (before after : list error_call) (id : string) (now : Z)
    (stack operation message details : string) (es : ErrorState) (asked : string) :
  Forall keeps_critical after →
  let es' :=
    error_run
      (before ++ CallLogError id now stack "critical" operation message details :: after)
      es in
  current_critical_error es'
  = Some (mkErrorEntry id now "critical" operation message details stack) ∧
  (∃ result, CheckErrorState asked es' = Some result ∧ Success result = false ∧
             Data result !! "blocked_by_critical_error" = Some (VBool true) ∧
             ∃ described, Data result !! "critical_error" = Some (VMap described) ∧
                          described !! "id" = Some (VStr id)) ∧
  CheckErrorState asked (ClearCriticalError es') = None.
Proof.
  keep_stated. intros Hafter. cbn zeta.
  assert (Hcurrent : current_critical_error
            (error_run (before ++ CallLogError id now stack "critical" operation message
                                    details :: after) es)
            = Some (mkErrorEntry id now "critical" operation message details stack)).
  { unfold error_run. rewrite foldl_app. cbn [foldl].
    fold (error_run before es).
    change (foldl error_step ?x after) with (error_run after x).
    by rewrite error_run_keeps_critical. }
  split; [done|]. split; [|done].
  unfold CheckErrorState, HasCriticalError, GetCriticalError. rewrite Hcurrent.
  cbn [mbind option_bind]. eexists. split; [done|]. cbn [Success Data].
  split; [done|]. split; [by read_key|]. eexists. split; [by read_key|].
  cbn [entry_ID]. by read_key.
Qed.

Lemma filter_selected_critical (l : list ErrorEntry) :
  filter (λ entry, severity_selected (Some "critical"%string) entry)
    (filter (λ entry, entry_Severity entry = "critical"%string) l)
  = filter (λ entry, severity_selected (Some "critical"%string) entry) l.
Proof.
  keep_stated. induction l as [|entry l IH]; [done|].
  rewrite (filter_cons (λ entry, entry_Severity entry = "critical"%string)).
  case_decide as Hsev.
  - rewrite !(filter_cons (λ entry, severity_selected (Some "critical"%string) entry)).
    by rewrite IH.
  - rewrite IH.
    rewrite (filter_cons (λ entry, severity_selected (Some "critical"%string) entry)).
    rewrite decide_False; [done|]. cbn. intros Heq. apply Hsev.
    apply String.eqb_eq. by destruct (String.eqb _ _).
Qed.

Lemma filter_selected_other (severity : string) (l : list ErrorEntry) :
  severity ≠ "critical"%string →
  filter (λ entry, severity_selected (Some severity) entry)
    (filter (λ entry, entry_Severity entry = "critical"%string) l) = [].
Proof.
  keep_stated. intros Hne. induction l as [|entry l IH]; [done|].
  rewrite (filter_cons (λ entry, entry_Severity entry = "critical"%string)).
  case_decide as Hsev; [|done].
  rewrite filter_cons_False; [done|]. cbn. rewrite Hsev.
  destruct (String.eqb "critical" severity) eqn:Heq; [|by intros []].
  apply String.eqb_eq in Heq. by subst.
Qed.

(** X23.  [ClearRecentErrors] keeps the critical entries and drops the
    rest: a query for the critical entries answers as before, a query
    for any other severity answers with nothing, and a current critical
    error stays current. *)
Theorem ClearRecentErrors_spec (limit : Z) (es : ErrorState) :
  GetRecentErrors (Some "critical"%string) limit (ClearRecentErrors es)
  = GetRecentErrors (Some "critical"%string) limit es ∧
  (∀ severity, severity ≠ "critical"%string →
     GetRecentErrors (Some severity) limit (ClearRecentErrors es) = Some []) ∧
  GetCriticalError (ClearRecentErrors es) = GetCriticalError es.
Proof.
  keep_stated. split; [|split; [|done]].
  - rewrite !GetRecentErrors_spec_eq. cbn [ClearRecentErrors recent_errors].
    by rewrite !filter_reverse, filter_selected_critical.
  - intros severity Hne. rewrite GetRecentErrors_spec_eq.
    cbn [ClearRecentErrors recent_errors].
    rewrite filter_reverse, filter_selected_other by done. cbn.
    by destruct (0 <? limit); rewrite ?take_nil.
Qed.

(** ** The listing and the senders *)

Lemma ListHandlers_names (enabledOnly : bool) (db : Database)
    (listed : list (gmap string value)) :
  ListHandlers enabledOnly db = Some listed →
  handler_name <$> listed
  ≡ₚ (filter (λ kr : string * Row, enabledOnly = false ∨ enabled kr.2 = 1)
        (map_to_list (event_handlers db))).*1.
Proof.
  keep_stated. unfold ListHandlers. intros Hlist.
  destruct (mapM _ _) as [keyed|] eqn:Hkeyed; [|done]. cbn in Hlist.
  injection Hlist as <-. apply mapM_Some_1 in Hkeyed.
  assert (Hname : ∀ l : list (Z * string * Row),
            handler_name <$> ((λ x, list_entry x.1.2 x.1.1 x.2) <$> l)
            = (λ x, x.1.2) <$> l).
  { induction l as [|x l IH]; [done|]. cbn. rewrite IH. unfold handler_name.
    by rewrite list_entry_id. }
  rewrite Hname, merge_sort_Permutation.
  induction Hkeyed as [|kr x selected keyed Hx _ IH]; [done|].
  cbn. destruct (scan_int (priority kr.2)); [|done]. cbn in Hx. injection Hx as <-.
  cbn. by rewrite IH.
Qed.

(** X24.  A listing that succeeds is in the order of the query,
    priority descending and equal priorities by id ascending; it names
    every selected handler exactly once: all of them, or with
    [enabledOnly] the enabled ones. *)
Theorem ListHandlers_spec (enabledOnly : bool) (db : Database)
    (listed : list (gmap string value)) :
  ListHandlers enabledOnly db = Some listed →
  StronglySorted handler_before listed ∧
  Forall has_id listed ∧
  NoDup (handler_name <$> listed) ∧
  ∀ handlerID,
    handlerID ∈ handler_name <$> listed ↔
    ∃ row, event_handlers db !! handlerID = Some row ∧
           (enabledOnly = false ∨ enabled row = 1).
Proof.
  keep_stated. intros Hlist. pose proof (ListHandlers_names _ _ _ Hlist) as Hnames.
  pose proof (ListHandlers_sorted _ _ _ Hlist) as [Hsorted Hrows].
  split; [done|]. split; [|split].
  - eapply Forall_impl; [exact Hrows|]. intros h (id & row & p & Hid & _). by exists id.
  - rewrite Hnames.
    eapply sublist_NoDup; [apply (NoDup_fst_map_to_list (event_handlers db))|].
    apply fmap_sublist, sublist_filter.
  - intros handlerID. rewrite Hnames, list_elem_of_fmap. split.
    + intros ([id row] & -> & [Hsel Hin%elem_of_map_to_list]%list_elem_of_filter).
      by exists row.
    + intros (row & Hrow & Hsel). exists (handlerID, row). split; [done|].
      apply list_elem_of_filter. split; [done|]. by apply elem_of_map_to_list.
Qed.

Lemma hour_bucket_mono (t now : Z) : t ≤ now → hour_bucket t ≤ hour_bucket now.
Proof.
  keep_stated. intros Hle. unfold hour_bucket, Unix, Second.
  apply Z.quot_le_mono; [lia|]. apply Z.div_le_mono; lia.
Qed.

(** X25.  With only a per-sender limit configured, an execution recorded
    for one sender does not change the answer of the rate-limit check
    for an event of another sender, or of an event without a sender, at
    any later time. *)
Theorem per_sender_limit_isolated (handler recorded event : gmap string value)
    (t now : Z) (em : EventMatcher) (handlerID : string) :
  handler !! "handler_id" = Some (VStr handlerID) →
  as_int64 (handler !! "max_executions_per_minute") = None →
  as_int64 (handler !! "max_executions_per_hour") = None →
  string_of (event !! "from") ≠ string_of (recorded !! "from") →
  t ≤ now →
  fst <$> checkRateLimits handler event now (RecordExecution handlerID recorded t em)
  = fst <$> checkRateLimits handler event now em.
Proof.
  keep_stated. intros Hid Hminute Hhour Hother Hlater.
  rewrite !(checkRateLimits_eq _ _ _ _ handlerID Hid). cbn. f_equal.
  unfold verdict. rewrite Hminute, Hhour. cbn [limit_reached negb andb]. f_equal. f_equal.
  unfold RecordExecution. rewrite limiter_of_set_limiter, decide_True by done.
  cbn [perSenderCounts].
  rewrite count_at_drop_old_senders.
  pose proof (oldest_hour_le t). pose proof (hour_bucket_mono t now Hlater).
  rewrite decide_False by lia.
  destruct (String.eqb (string_of (recorded !! "from")) ""); [done|].
  by rewrite lookup_insert_ne.
Qed.

(** ** The stored breaker state *)

Lemma SaveHandler_no_open (handler : gmap string value) (now : Z) (db : Database) :
  no_open_breaker db → no_open_breaker (default db (SaveHandler handler now db)).
Proof.
  keep_stated. intros Hdb. destruct (SaveHandler handler now db) as [db'|] eqn:Hsave; [|done].
  cbn. apply SaveHandler_columns in Hsave
    as (id' & r & _ & Hrows & _ & _ & _ & _ & _ & _ & _ & _ & _ & _ & Hstate & _).
  intros id row. rewrite Hrows, lookup_insert. case_decide; [|by apply Hdb].
  intros [= <-]. by rewrite Hstate.
Qed.

Lemma settle_no_open (handlerID : string) (success : bool) (errorMsg : string) (now : Z)
    (db : Database) :
  no_open_breaker db →
  no_open_breaker
    (UpdateHandlerStats handlerID success errorMsg now
       (default db (UpdateCircuitBreaker handlerID success now db))).
Proof.
  keep_stated. intros Hdb id row'. unfold UpdateHandlerStats. cbn [event_handlers].
  rewrite lookup_alter. case_decide as Hid.
  - subst id.
    destruct (event_handlers (default db (UpdateCircuitBreaker handlerID success now db))
                !! handlerID) as [row|] eqn:Hrow; [|done].
    cbn. intros [= <-].
    pose proof (breaker_never_opens handlerID handlerID success now db row
                  (λ r, Hdb handlerID r) Hrow) as Hclosed.
    by destruct success.
  - intros Hrow.
    apply (breaker_never_opens handlerID id success now db row' (λ r, Hdb id r) Hrow).
Qed.

Lemma end_execution_no_open (handlerID : string) (event : gmap string value)
    (startTime : Z) (e : ending) (w : World) :
  no_open_breaker (database w) →
  no_open_breaker (database (end_execution handlerID event startTime e w)).
Proof.
  keep_stated. intros Hdb. destruct e as [|errorMsg|actionsExecuted].
  - exact Hdb.
  - unfold end_execution, fail_execution. cbn [with_database database].
    by apply settle_no_open.
  - unfold end_execution, succeed_execution. cbn [with_database database].
    by apply settle_no_open.
Qed.

(** X26.  The breaker state 'open' never reaches the store.  From a
    store in which no handler has it, neither an execution, whatever its
    outcome, nor a registration, an update, an enabling, a disabling or a
    deletion produces a row with that state; so no handler loaded from
    such a store is ever held back by its breaker. *)
Theorem breaker_state_never_open (w : World) :
  no_open_breaker (database w) →
  (∀ handler event w',
     executeHandler handler event w = Some w' → no_open_breaker (database w')) ∧
  (∀ data now,
     no_open_breaker (handleRegisterHandler data now (database w)).2 ∧
     no_open_breaker (handleUpdateHandler data now (database w)).2 ∧
     no_open_breaker (handleEnableHandler data now (database w)).2 ∧
     no_open_breaker (handleDisableHandler data now (database w)).2 ∧
     no_open_breaker (handleDeleteHandler data (database w)).2) ∧
  (∀ em em' h now,
     LoadHandlers (database w) em = Some em' → h ∈ handlers em' →
     isCircuitBreakerOpen h now = false).
Proof.
  keep_stated. intros Hdb. split; [|split].
  - intros handler event w' Hrun.
    destruct (as_string (handler !! "handler_id")) as [handlerID|] eqn:Hid;
      [|unfold executeHandler in Hrun; by rewrite Hid in Hrun].
    apply as_string_Some in Hid.
    destruct (executeHandler_shape handler event w handlerID Hid)
      as (n & w2 & e & (Hsame & _) & Hshape & _).
    rewrite Hshape in Hrun. injection Hrun as <-.
    apply end_execution_no_open. by rewrite Hsame.
  - intros data now.
    assert (Henabled : ∀ enable handlerID,
              no_open_breaker (UpdateHandlerEnabled handlerID enable now (database w))).
    { intros enable handlerID id row'. unfold UpdateHandlerEnabled. cbn [event_handlers].
      rewrite lookup_alter. case_decide; [|by apply Hdb]. subst id.
      destruct (event_handlers (database w) !! handlerID) as [row|] eqn:Hrow; [|done].
      cbn. intros [= <-]. cbn. by apply (Hdb handlerID). }
    split; [|split; [|split; [|split]]].
    + unfold handleRegisterHandler.
      repeat match goal with
             | |- context [match ?o with Some _ => _ | None => _ end] =>
                 destruct o eqn:?; try exact Hdb
             | |- context [if ?b then _ else _] => destruct b; try exact Hdb
             end.
      match goal with
      | H : SaveHandler ?h now (database w) = Some ?db' |- _ =>
          pose proof (SaveHandler_no_open h now (database w) Hdb) as Hsaved;
          by rewrite H in Hsaved
      end.
    + unfold handleUpdateHandler.
      repeat match goal with
             | |- context [match ?o with Some _ => _ | None => _ end] =>
                 destruct o eqn:?; try exact Hdb
             | |- context [match ?o with inl _ => _ | inr _ => _ end] =>
                 destruct o eqn:?; try exact Hdb
             end.
      match goal with
      | H : SaveHandler ?h now (database w) = Some ?db' |- _ =>
          pose proof (SaveHandler_no_open h now (database w) Hdb) as Hsaved;
          by rewrite H in Hsaved
      end.
    + unfold handleEnableHandler. destruct (requested_id data); [exact Hdb|].
      apply Henabled.
    + unfold handleDisableHandler. destruct (requested_id data); [exact Hdb|].
      apply Henabled.
    + unfold handleDeleteHandler. destruct (requested_id data); [exact Hdb|].
      intros id row. cbn. intros [_ Hrow]%lookup_delete_Some. by apply (Hdb id).
  - intros em em' h now Hload Hin.
    apply LoadHandlers_elem_of in Hload as [_ Hsnapshot].
    apply Hsnapshot in Hin as (handlerID & row & Hrow & _ & Hget).
    apply GetHandler_fields in Hget
      as (row' & p & Hrow' & _ & _ & _ & _ & _ & _ & _ & _ & Hstate & _).
    assert (row' = row) as -> by congruence.
    unfold isCircuitBreakerOpen. rewrite Hstate.
    destruct (as_bool (h !! "circuit_breaker_enabled")) as [[]|]; [|done..].
    cbn [string_of as_string default from_option id].
    destruct (String.eqb (default "closed"%string (circuit_breaker_state row)) "open")
      eqn:Hopen; [|done].
    apply String.eqb_eq in Hopen. pose proof (Hdb handlerID row Hrow) as Hclosed.
    destruct (circuit_breaker_state row) as [state|]; [|done].
    cbn in Hopen. by subst.
Qed.

End Engine.

(** * The properties at concrete inputs, on the reference instance *)

Lemma Contains_empty (s : string) : Contains s "" = true.
Proof. by destruct s. Qed.

Lemma matchesFilter_iff_satisfied_witness :
  matchesFilter lower literal_match greeter_request message_event = true ↔
  filter_satisfied lower literal_match
    (<["event_types"%string := VList [VStr "message"]]> $
     <["is_from_me"%string := VBool false]> $
     <["text_contains"%string := VList [VStr "hello"]]> ∅) message_event.
Proof.
  apply (matchesFilter_iff_satisfied lower literal_match).
  - intros s. unfold literal_match. f_equal. apply Contains_empty.
  - vm_compute. reflexivity.
Defined.

Lemma substituteValue_spec_witness :
  substituteValue message_event (VStr ("{event." +:+ "from" +:+ "}"))
  = VStr "491700000000@s.whatsapp.net".
Proof.
  apply (proj1 (substituteValue_spec message_event) "from"%string).
  vm_compute. reflexivity.
Defined.

Lemma rate_limit_minute_bucket_witness :
  let em3 :=
    RecordExecution "h1" message_event 1700000020000000000
      (RecordExecution "h1" message_event 1700000010000000000
         (RecordExecution "h1" message_event 1700000000000000000 NewEventMatcher)) in
  fst <$> checkRateLimits limited_handler message_event 1700000030000000000 em3
  = Some false
  ∧ fst <$> checkRateLimits limited_handler message_event 1700000080000000000 em3
    = Some true.
Proof.
  cbn zeta.
  destruct (rate_limit_minute_bucket limited_handler message_event message_event
              message_event message_event 1700000000000000000 1700000010000000000
              1700000020000000000 28333333 NewEventMatcher "h1") as [Hsame Hlater];
    try (vm_compute; reflexivity).
  { vm_compute. split; [discriminate | reflexivity]. }
  split.
  - apply Hsame. vm_compute. reflexivity.
  - apply Hlater; vm_compute; reflexivity.
Defined.

Lemma checkRateLimits_read_only_witness :
  ∃ allowed em',
    checkRateLimits limited_handler message_event 1700000050000000000 NewEventMatcher
    = Some (allowed, em') ∧
    handlers em' = handlers NewEventMatcher ∧
    (∀ id bucket, minute_count em' id bucket = minute_count NewEventMatcher id bucket) ∧
    (∀ id bucket, hour_count em' id bucket = hour_count NewEventMatcher id bucket) ∧
    (∀ id sender bucket,
       sender_count em' id sender bucket = sender_count NewEventMatcher id sender bucket) ∧
    (∀ id, last_execution em' id = last_execution NewEventMatcher id) ∧
    fst <$> checkRateLimits limited_handler message_event 1700000050000000000 em'
    = Some allowed.
Proof.
  apply (checkRateLimits_read_only limited_handler message_event 1700000050000000000
           NewEventMatcher "h1").
  vm_compute. reflexivity.
Defined.

Lemma nonpositive_limit_never_blocks_witness :
  ∃ em',
    checkRateLimits unlimited_handler message_event 1700000050000000000
      (RecordExecution "h1" message_event 1700000040000000000 NewEventMatcher)
    = Some (true, em').
Proof.
  apply (proj2 (nonpositive_limit_never_blocks unlimited_handler message_event
                  1700000050000000000
                  (RecordExecution "h1" message_event 1700000040000000000 NewEventMatcher))
           "h1"%string).
  - vm_compute. reflexivity.
  - intros k n Hk. unfold limit_keys in Hk. rewrite !elem_of_cons in Hk.
    destruct Hk as [->|[->|[->|Hk]]]; [| | |by apply elem_of_nil in Hk];
      vm_compute; intros [= <-]; discriminate.
Defined.

Lemma MatchEvent_priority_order_witness :
  ∃ result em',
    MatchEvent lower literal_match seconds_Parse message_event 1700000000000000000
      (mkEventMatcher
         (default [] (handlers <$> LoadHandlers seconds_Format priority_store NewEventMatcher))
         ∅)
    = Some (result, em') ∧
    StronglySorted handler_before result.
Proof.
  apply (proj1 (MatchEvent_priority_order lower literal_match seconds_Format seconds_Parse)
           priority_store NewEventMatcher).
  vm_compute. reflexivity.
Defined.

Lemma handleRegisterHandler_spec_witness :
  ∃ d handlerID row,
    Some plain_request = Some d ∧ d !! "handler_id" = Some (VStr handlerID) ∧
    event_handlers
      (handleRegisterHandler no_real_text parse_decimal (Some plain_request)
         1700000000000000000 empty_store).2 !! handlerID = Some row ∧
    (d !! "enabled" = None → enabled row = 1) ∧
    (d !! "priority" = None → priority row = IInt 0) ∧
    (d !! "timeout_seconds" = None → timeout_seconds row = IInt 30).
Proof.
  apply (proj2 (proj2 (handleRegisterHandler_spec no_real_text parse_decimal
                         (Some plain_request) 1700000000000000000 empty_store))).
  vm_compute. reflexivity.
Defined.

(** C9 as stated fails: this request names a handler id, a filter and an
    action, so it is not invalid, and yet its registration fails, because
    the driver refuses the list given as priority. *)
Lemma register_valid_request_fails :
  ¬ invalid_request (Some list_priority_request) ∧
  Success (handleRegisterHandler no_real_text parse_decimal (Some list_priority_request)
             1700000000000000000 empty_store).1 = false.
Proof.
  split; [|vm_compute; reflexivity].
  intros [Hid|[Hfilter|Haction]].
  - specialize (Hid "h1"%string). discriminate Hid. vm_compute. reflexivity.
  - vm_compute in Hfilter. discriminate Hfilter.
  - vm_compute in Haction. discriminate Haction.
Qed.

Lemma two_failures_leave_breaker_closed_witness :
  ∃ row2,
    event_handlers
      (database
         (fail_execution seconds_Format no_real_text parse_decimal "h1" message_event
            1700000060000000000 "boom"
            (fail_execution seconds_Format no_real_text parse_decimal "h1" message_event
               1700000000000000000 "boom" (breaker_world (breaker_row 0 0 None None)))))
      !! "h1"%string = Some row2 ∧
    total_errors row2 = 2 ∧ circuit_breaker_threshold row2 = 2 ∧
    circuit_breaker_state row2 = Some "closed"%string.
Proof.
  apply (two_failures_leave_breaker_closed seconds_Format no_real_text parse_decimal
           "h1" message_event message_event 1700000000000000000 1700000060000000000
           "boom" "boom" (breaker_world (breaker_row 0 0 None None))
           (breaker_row 0 0 None None));
    vm_compute; reflexivity.
Defined.

Lemma UpdateCircuitBreaker_resets_row_witness :
  ∃ db' row',
    UpdateCircuitBreaker seconds_Format no_real_text parse_decimal "h1" false
      1700000120000000000 tripped_store
    = Some db' ∧
    event_handlers db' !! "h1"%string = Some row' ∧
    circuit_breaker_state row' = Some "closed"%string ∧
    execution_count row' = 0 ∧ total_errors row' = 0 ∧
    last_error row' = None ∧ last_error_time row' = None ∧
    created_at row' = Unix 1700000120000000000 * Second.
Proof.
  apply (UpdateCircuitBreaker_resets_row seconds_Format no_real_text parse_decimal
           "h1" false 1700000120000000000 tripped_store
           (default ∅ (GetHandler seconds_Format "h1" tripped_store))
           (breaker_row 2 2 (Some "boom"%string) (Some 1700000060000000000))).
  - vm_compute. exact eq_refl.
  - vm_compute. exact eq_refl.
  - vm_compute. exact eq_refl.
  - right. vm_compute. discriminate.
Defined.

(** C3 on the code.  The greeting handler is registered, matches the
    message, and its one [send_message] directive is executed, addressed
    to the sender of the event; the execution record that is written
    reports success and zero executed actions. *)
Theorem static_action_logs_zero_actions :
  match register_and_run lower literal_match seconds_Format seconds_Parse no_real_text
          parse_decimal accept_call "/tmp" slash_Join no_file true false no_tool no_json
          greeter_request message_event 1700000000000000000 with
  | Some (registered, matched, w) =>
      registered = true ∧
      List.map handler_name matched = ["greeter"%string] ∧
      calls w
      = [("SendMessage"%string,
          <["to"%string := VStr "491700000000@s.whatsapp.net"]>
            (<["message"%string := VMap {[ "conversation"%string := VStr "hi!" ]}]> ∅))] ∧
      List.map log_summary (handler_executions (database w))
      = [("greeter"%string, 1, None, Some 0)]
  | None => False
  end.
Proof. vm_compute. repeat split; reflexivity. Qed.

(** * Further properties at concrete inputs *)

Lemma MatchEvent_sound_witness :
  let em := default NewEventMatcher (LoadHandlers seconds_Format single_store NewEventMatcher) in
  let out := default ([], NewEventMatcher)
               (MatchEvent lower literal_match seconds_Parse message_event
                  1700000000000000000 em) in
  handlers out.2 = handlers em ∧
  ∀ h, h ∈ out.1 →
       h ∈ handlers em ∧ h !! "enabled" = Some (VBool true) ∧
       isCircuitBreakerOpen seconds_Parse h 1700000000000000000 = false ∧
       matchesFilter lower literal_match h message_event = true.
Proof.
  cbn zeta.
  apply (MatchEvent_sound lower literal_match seconds_Parse message_event
           1700000000000000000).
  vm_compute. exact eq_refl.
Defined.

Lemma MatchEvent_complete_witness :
  let em := default NewEventMatcher (LoadHandlers seconds_Format single_store NewEventMatcher) in
  let h := default ∅ (GetHandler seconds_Format "alpha" single_store) in
  ∃ result em',
    MatchEvent lower literal_match seconds_Parse message_event 1700000000000000000 em
    = Some (result, em') ∧ h ∈ result.
Proof.
  cbn zeta.
  apply (MatchEvent_complete lower literal_match seconds_Parse message_event
           1700000000000000000).
  - destruct (LoadHandlers_sorted seconds_Format single_store NewEventMatcher
                (default NewEventMatcher
                   (LoadHandlers seconds_Format single_store NewEventMatcher)))
      as [_ Hids]; [vm_compute; exact eq_refl | exact Hids].
  - apply (list_elem_of_lookup_2 _ 0%nat). vm_compute. exact eq_refl.
  - vm_compute. exact eq_refl.
  - vm_compute. exact eq_refl.
  - intros k Hk. unfold limit_keys in Hk. rewrite !elem_of_cons in Hk.
    destruct Hk as [->|[->|[->|Hk]]]; [| | |by apply elem_of_nil in Hk];
      vm_compute; exact eq_refl.
  - vm_compute. exact eq_refl.
  - vm_compute. exact eq_refl.
Defined.



Lemma LoadHandlers_snapshot_witness :
  let em' := default NewEventMatcher (LoadHandlers seconds_Format single_store NewEventMatcher) in
  rateLimits em' = rateLimits NewEventMatcher ∧
  ∀ h, h ∈ handlers em' ↔
       ∃ handlerID row, event_handlers single_store !! handlerID = Some row ∧
                        enabled row = 1 ∧
                        GetHandler seconds_Format handlerID single_store = Some h.
Proof.
  cbn zeta. apply (LoadHandlers_snapshot seconds_Format single_store NewEventMatcher).
  vm_compute. exact eq_refl.
Defined.

Lemma disabled_or_deleted_never_matches_witness :
  let db' := (handleDisableHandler (Some alpha_request) 1700000000000000000
                single_store).2 in
  let em' := default NewEventMatcher (LoadHandlers seconds_Format db' NewEventMatcher) in
  let out := default ([], NewEventMatcher)
               (MatchEvent lower literal_match seconds_Parse message_event
                  1700000010000000000 em') in
  Forall (λ h, h !! "handler_id" ≠ Some (VStr "alpha")) out.1.
Proof.
  cbn zeta. apply Forall_forall.
  apply (disabled_or_deleted_never_matches lower literal_match seconds_Format seconds_Parse
           (Some alpha_request) "alpha" 1700000000000000000 1700000010000000000
           single_store
           (handleDisableHandler (Some alpha_request) 1700000000000000000 single_store).2
           NewEventMatcher
           (default NewEventMatcher
              (LoadHandlers seconds_Format
                 (handleDisableHandler (Some alpha_request) 1700000000000000000
                    single_store).2 NewEventMatcher))
           (default ([], NewEventMatcher)
              (MatchEvent lower literal_match seconds_Parse message_event
                 1700000010000000000
                 (default NewEventMatcher
                    (LoadHandlers seconds_Format
                       (handleDisableHandler (Some alpha_request) 1700000000000000000
                          single_store).2 NewEventMatcher)))).2
           message_event).
  - vm_compute. exact eq_refl.
  - left. reflexivity.
  - vm_compute. exact eq_refl.
  - vm_compute. exact eq_refl.
Defined.

Lemma SaveHandler_then_GetHandler_witness :
  let db' := default empty_store
               (SaveHandler no_real_text parse_decimal stored_request 1700000000000000000
                  empty_store) in
  ∃ h, GetHandler seconds_Format "greeter" db' = Some h ∧
       h !! "priority" = Some (VInt 7) ∧
       h !! "cooldown_seconds" = Some (VInt64 60) ∧
       h !! "enabled" = Some (VBool true) ∧
       h !! "execution_count" = Some (VInt 0).
Proof.
  cbn zeta.
  destruct (SaveHandler_then_GetHandler seconds_Format no_real_text parse_decimal
              stored_request 1700000000000000000 empty_store
              (default empty_store
                 (SaveHandler no_real_text parse_decimal stored_request 1700000000000000000
                    empty_store)) "greeter") as (Hsome & Hfields & _).
  - vm_compute. exact eq_refl.
  - vm_compute. exact eq_refl.
  - destruct (proj2 Hsome) as [h Hh].
    + vm_compute. repeat split; try discriminate; eexists; reflexivity.
    + exists h. split; [exact Hh|].
      destruct (Hfields h Hh) as (_ & _ & _ & Hen & Hprio & _ & _ & _ & Hcool & _ & Hcount & _).
      split; [exact Hprio|]. split; [exact Hcool|]. split; [exact Hen | exact Hcount].
Defined.

Lemma unreadable_priority_fails_listing_witness :
  let db := (handleRegisterHandler no_real_text parse_decimal (Some null_priority_request)
               1700000000000000000 empty_store).2 in
  ListHandlers seconds_Format false db = None ∧
  LoadHandlers seconds_Format db NewEventMatcher = None.
Proof.
  cbn zeta.
  destruct (unreadable_priority_fails_listing seconds_Format
              (handleRegisterHandler no_real_text parse_decimal (Some null_priority_request)
                 1700000000000000000 empty_store).2
              "h1"
              (default open_row
                 (event_handlers
                    (handleRegisterHandler no_real_text parse_decimal
                       (Some null_priority_request) 1700000000000000000
                       empty_store).2 !! "h1"))
              false NewEventMatcher) as [Hlist Hload].
  - vm_compute. exact eq_refl.
  - vm_compute. exact eq_refl.
  - left. reflexivity.
  - split; [exact Hlist|]. apply Hload. vm_compute. exact eq_refl.
Defined.

Lemma handleDeleteHandler_spec_witness :
  let db' := (handleDeleteHandler (Some alpha_request) single_store).2 in
  Success (handleDeleteHandler (Some alpha_request) single_store).1 = true ∧
  GetHandler seconds_Format "alpha" db' = None ∧
  Success (handleGetHandler seconds_Format (Some alpha_request) db') = false ∧
  (∀ id, id ≠ "alpha"%string →
         GetHandler seconds_Format id db' = GetHandler seconds_Format id single_store) ∧
  handler_executions db' = handler_executions single_store.
Proof.
  cbn zeta.
  apply (handleDeleteHandler_spec seconds_Format (Some alpha_request) single_store "alpha").
  vm_compute. exact eq_refl.
Defined.

Lemma enable_disable_spec_witness :
  let out := handleDisableHandler (Some alpha_request) 1700000000000000000 single_store in
  Success out.1 = true ∧
  (event_handlers single_store !! "alpha" = None → out.2 = single_store) ∧
  (∀ h, GetHandler seconds_Format "alpha" single_store = Some h →
        GetHandler seconds_Format "alpha" out.2
        = Some (<["enabled" := VBool false]>
                  (<["updated_at" := VStr (seconds_Format 1700000000000000000)]> h))) ∧
  (∀ id, id ≠ "alpha"%string →
         GetHandler seconds_Format id out.2 = GetHandler seconds_Format id single_store) ∧
  handler_executions out.2 = handler_executions single_store.
Proof.
  apply (enable_disable_spec seconds_Format (Some alpha_request) 1700000000000000000
           single_store "alpha" false).
  vm_compute. exact eq_refl.
Defined.

Lemma executeReturnedActions_bounds_witness :
  let w := mkWorld empty_store NewEventMatcher [] 1700000000000000000 in
  let out := executeReturnedActions accept_call greeter_directives message_event 0 w in
  database out.2 = database w ∧ eventMatcher out.2 = eventMatcher w ∧
  clock w ≤ clock out.2 ∧
  (∃ new, calls out.2 = calls w ++ new ∧ (length new ≤ length greeter_directives)%nat) ∧
  0 ≤ out.1 ≤ Z.of_nat (length greeter_directives).
Proof.
  apply (executeReturnedActions_bounds accept_call greeter_directives message_event).
  vm_compute. exact eq_refl.
Defined.

Lemma executeHandler_effects_witness :
  let w := breaker_world (breaker_row 0 0 None None) in
  ∃ w' record,
    executeHandler seconds_Format no_real_text parse_decimal accept_call "/tmp" slash_Join
      no_file true false no_tool no_json greeter_request message_event w = Some w' ∧
    eventMatcher w' = RecordExecution "greeter" message_event (clock w) (eventMatcher w) ∧
    handler_executions (database w') = handler_executions (database w) ++ [record] ∧
    exec_handler_id record = "greeter"%string ∧
    exec_started_at record = clock w ∧ exec_completed_at record = clock w' ∧
    (∃ new, calls w' = calls w ++ new) ∧
    clock w ≤ clock w' ∧
    (∀ id, id ≠ "greeter"%string →
           event_handlers (database w') !! id = event_handlers (database w) !! id).
Proof.
  apply (executeHandler_effects seconds_Format no_real_text parse_decimal accept_call "/tmp"
           slash_Join no_file true false no_tool no_json greeter_request message_event
           (breaker_world (breaker_row 0 0 None None)) "greeter").
  vm_compute. exact eq_refl.
Defined.


Lemma executeHandler_statistics_witness :
  ∃ w' row' record,
    executeHandler seconds_Format no_real_text parse_decimal accept_call "/tmp" slash_Join
      no_file true false no_tool no_json greeter_request message_event quiet_world
    = Some w' ∧
    event_handlers (database w') !! "greeter" = Some row' ∧
    handler_executions (database w')
    = handler_executions (database quiet_world) ++ [record] ∧
    execution_count row' = execution_count quiet_row + 1 ∧
    last_executed row' = Some (clock w') ∧
    total_errors row' = total_errors quiet_row + (1 - exec_success record) ∧
    (exec_success record = 1 →
     last_error row' = last_error quiet_row ∧
     last_error_time row' = last_error_time quiet_row) ∧
    (exec_success record = 0 →
     last_error row' = exec_error record ∧ last_error_time row' = Some (clock w')) ∧
    enabled row' = enabled quiet_row ∧ priority row' = priority quiet_row ∧
    circuit_breaker_state row' = circuit_breaker_state quiet_row.
Proof.
  apply (executeHandler_statistics seconds_Format no_real_text parse_decimal accept_call
           "/tmp" slash_Join no_file true false no_tool no_json greeter_request
           message_event (default ∅ (as_map (greeter_request !! "action"))) quiet_world
           "greeter" quiet_row).
  - vm_compute. exact eq_refl.
  - vm_compute. exact eq_refl.
  - vm_compute. exact eq_refl.
  - vm_compute. discriminate.
Defined.

Lemma recent_errors_bounded_witness :
  let es := error_run three_errors (mkErrorState None [] 2) in
  max_recent_errors es = 2 ∧
  Z.of_nat (length (recent_errors es)) ≤ 2 ∧
  recent_errors es `sublist_of` logged three_errors (mkErrorState None [] 2).
Proof.
  apply (recent_errors_bounded 2 (mkErrorState None [] 2) three_errors).
  vm_compute. exact eq_refl.
Defined.

Lemma critical_error_latch_witness :
  let es' :=
    error_run
      ([] ++ CallLogError "e2" 1700000001000000000 "trace" "critical" "connect" "lost" ""
          :: [CallLogError "e3" 1700000002000000000 "trace" "error" "send" "failed" "";
              CallClearRecentErrors])
      (mkErrorState None [] 2) in
  current_critical_error es'
  = Some (mkErrorEntry "e2" 1700000001000000000 "critical" "connect" "lost" "" "trace") ∧
  (∃ result, CheckErrorState seconds_Format "register_handler" es' = Some result ∧
             Success result = false ∧
             Data result !! "blocked_by_critical_error" = Some (VBool true) ∧
             ∃ described, Data result !! "critical_error" = Some (VMap described) ∧
                          described !! "id" = Some (VStr "e2")) ∧
  CheckErrorState seconds_Format "register_handler" (ClearCriticalError es') = None.
Proof.
  apply (critical_error_latch seconds_Format []
           [CallLogError "e3" 1700000002000000000 "trace" "error" "send" "failed" "";
            CallClearRecentErrors]
           "e2" 1700000001000000000 "trace" "connect" "lost" "" (mkErrorState None [] 2)
           "register_handler").
  constructor; [vm_compute; discriminate|]. constructor; [exact I | constructor].
Defined.

Lemma ListHandlers_spec_witness :
  let listed := default [] (ListHandlers seconds_Format false single_store) in
  StronglySorted handler_before listed ∧
  Forall has_id listed ∧
  NoDup (handler_name <$> listed) ∧
  ∀ handlerID,
    handlerID ∈ handler_name <$> listed ↔
    ∃ row, event_handlers single_store !! handlerID = Some row ∧
           (false = false ∨ enabled row = 1).
Proof.
  apply (ListHandlers_spec seconds_Format false single_store).
  vm_compute. exact eq_refl.
Defined.

Lemma per_sender_limit_isolated_witness :
  fst <$> checkRateLimits sender_limited_handler other_event 1700000030000000000
            (RecordExecution "h1" message_event 1700000000000000000 NewEventMatcher)
  = fst <$> checkRateLimits sender_limited_handler other_event 1700000030000000000
              NewEventMatcher.
Proof.
  apply (per_sender_limit_isolated sender_limited_handler message_event other_event
           1700000000000000000 1700000030000000000 NewEventMatcher "h1");
    try (vm_compute; exact eq_refl).
  - vm_compute. discriminate.
  - vm_compute. discriminate.
Defined.

Lemma breaker_state_never_open_witness :
  let w := breaker_world (breaker_row 0 0 None None) in
  (∀ handler event w',
     executeHandler seconds_Format no_real_text parse_decimal accept_call "/tmp" slash_Join
       no_file true false no_tool no_json handler event w = Some w' →
     no_open_breaker (database w')) ∧
  (∀ data now,
     no_open_breaker
       (handleRegisterHandler no_real_text parse_decimal data now (database w)).2 ∧
     no_open_breaker
       (handleUpdateHandler seconds_Format no_real_text parse_decimal data now
          (database w)).2 ∧
     no_open_breaker (handleEnableHandler data now (database w)).2 ∧
     no_open_breaker (handleDisableHandler data now (database w)).2 ∧
     no_open_breaker (handleDeleteHandler data (database w)).2) ∧
  (∀ em em' h now,
     LoadHandlers seconds_Format (database w) em = Some em' → h ∈ handlers em' →
     isCircuitBreakerOpen seconds_Parse h now = false).
Proof.
  apply (breaker_state_never_open seconds_Format seconds_Parse no_real_text parse_decimal
           accept_call "/tmp" slash_Join no_file true false no_tool no_json
           (breaker_world (breaker_row 0 0 None None))).
  intros id row. unfold breaker_world. cbn [database event_handlers].
  intros [_ <-]%lookup_singleton_Some. vm_compute. discriminate.
Defined.
